(** * ArduinoQuadLFO: a shallow embedding of QUAD_LFO.ino

    The sketch exists in two variants that share most of their text:
    the four-channel sketch (arrays indexed by the channel number) and the
    two-channel sketch (one set of scalars per channel, with a depth
    control).  Both are embedded here, each in its own module, over a few
    shared definitions: fixed-width integers, the wavetable library, the
    tick counters of the timer interrupt and the tuning-word formula. *)

From Stdlib Require Import ZArith QArith Qround Qabs Qpower Lia Lqa Bool List.
From Stdlib Require Import Floats.SpecFloat Btauto.
From stdpp Require Import base option list.
Import ListNotations.

Local Open Scope Z_scope.

(** ** Fixed-width integers

    [byte] is an 8-bit unsigned integer, [unsigned long] is 32 bits wide on
    the AVR; both are carried as [Z] with the wrap-around written out. *)

Definition to_byte (x : Z) : Z := x mod 2 ^ 8.
Definition to_ulong (x : Z) : Z := x mod 2 ^ 32.

Definition is_byte (x : Z) : Prop := 0 <= x < 2 ^ 8.
Definition is_ulong (x : Z) : Prop := 0 <= x < 2 ^ 32.

(** ** Wavetable library

    [waveTable] is the array of table pointers; a pointer to a table is
    carried as the name of the table.  The contents of the tables live in
    wave/*.h, so program memory is a parameter [flash] of the interrupt
    routine, and a read through [pgm_read_byte_near] yields a byte. *)

Inductive wave : Set :=
  | sine256 | ramp256 | saw256 | tri256
  | pulse8 | pulse16 | pulse64 | sq256 | noise256.

Definition waveTable : list wave :=
  [sine256; ramp256; saw256; tri256; pulse8; pulse16; pulse64; sq256; noise256].

Definition NUM_WAVES : Z := Z.of_nat (length waveTable).

Definition progmem : Type := wave -> Z -> Z.

Definition pgm_read_byte_near (flash : progmem) (table : wave) (offset : Z) : Z :=
  to_byte (flash table offset).

(** ** Tick counters of the timer interrupt

    Both sketches open their interrupt routine with
    [if (tickCounter++ == 125) { fourMilliCounter++; tickCounter = 0; }]
    on two [volatile byte] counters.  The comparison sees the value before
    the increment. *)

Definition count_tick (c : Z * Z) : Z * Z :=
  let '(tick, four) := c in
  if tick =? 125 then (0, to_byte (four + 1)) else (to_byte (tick + 1), four).

(** The control loop enters its slow branch when [fourMilliCounter > 25]. *)
Definition control_due (four : Z) : bool := 25 <? four.

(** ** Edges

    A trigger edge: the level read from the sync pin differs from the last
    one seen and is the trigger level.  A press edge: the wave switch
    reports a change and its debounced state is 1. *)

Definition trigger_edge (level last trigger : Z) : bool :=
  negb (level =? last) && (level =? trigger).

Definition press_edge (changed : bool) (stateDebounced : Z) : bool :=
  changed && (to_byte stateDebounced =? 1).

(** ** Faults

    An array access outside the declared bounds and a conversion of a
    [double] that does not fit the target integer have no defined result in
    C; the embedding stops there with a [Fault]. *)

Inductive fault : Set := OutOfBounds | NotRepresentable.

Inductive result (A : Type) : Type :=
  | Ok (a : A)
  | Fault (f : fault).
Arguments Ok {A} a.
Arguments Fault {A} f.

#[global] Instance result_bind : MBind result :=
  fun A B (k : A -> result B) (r : result A) =>
    match r with
    | Ok a => k a
    | Fault f => Fault f
    end.

(** [arr[i]] as a read and as a write, on an array of [length arr] elements. *)
Definition load {A : Type} (arr : list A) (i : nat) : result A :=
  match arr !! i with
  | Some x => Ok x
  | None => Fault OutOfBounds
  end.

Definition store {A : Type} (arr : list A) (i : nat) (x : A) : result (list A) :=
  if (i <? length arr)%nat then Ok (<[i := x]> arr) else Fault OutOfBounds.

(** [n] runs of a routine that may fault. *)
Fixpoint iterate {A : Type} (f : A -> result A) (n : nat) (x : A) : result A :=
  match n with
  | O => Ok x
  | S n' => x' ← f x; iterate f n' x'
  end.

(** A [for] loop over the index values it visits, in order. *)
Fixpoint for_each {I A : Type} (body : I -> A -> result A) (idx : list I) (x : A)
  : result A :=
  match idx with
  | [] => Ok x
  | i :: rest => x' ← body i x; for_each body rest x'
  end.

(** [for (byte i=0; i<n; i+=1)] and [for (byte i=0; i<=n; i+=1)]. *)
Definition below (n : Z) : list nat := seq 0 (Z.to_nat n).
Definition upto (n : Z) : list nat := seq 0 (S (Z.to_nat n)).

(** ** The [double] type

    On the AVR a [double] is an IEEE-754 single: 24 bits of precision,
    exponents below 128.  A finite [double] is carried as the rational it
    denotes, and an operation is the exact rational operation followed by
    rounding to the nearest representable value, ties to the even mantissa;
    a result that is not a finite number (overflow, division by zero) is
    [None] and stays [None] through the rest of the expression. *)

Definition double_prec : Z := 24.
Definition double_emax : Z := 128.
Definition double_emin : Z := 3 - double_emax - double_prec.

Definition pow2 (e : Z) : Q := Qpower 2 e.

(** [mag x] is the exponent [e] with [2^(e-1) <= |x| < 2^e]. *)
Definition mag (x : Q) : Z :=
  let k := Z.log2 (Z.abs (Qnum x)) - Z.log2 (Z.pos (Qden x)) in
  if Qle_bool (pow2 k) (Qabs x) then k + 1 else k.

(** Exponent of the last mantissa bit of the format at [x]. *)
Definition cexp (x : Q) : Z := Z.max (mag x - double_prec) double_emin.

(** Nearest integer, ties to even. *)
Definition rne (x : Q) : Z :=
  let f := Qfloor x in
  match (x - inject_Z f ?= 1 # 2)%Q with
  | Lt => f
  | Gt => f + 1
  | Eq => if Z.even f then f else f + 1
  end.

Definition round_abs (x : Q) : Q :=
  let e := cexp x in Qred (inject_Z (rne (x / pow2 e)) * pow2 e).

Definition round (x : Q) : Q :=
  if Qle_bool 0 x then round_abs x else (- round_abs (- x))%Q.

Definition double : Type := option Q.

Definition fl (x : Q) : double :=
  let y := round x in
  if Qle_bool (pow2 double_emax) (Qabs y) then None else Some y.

Definition double_of_Z (n : Z) : double := fl (inject_Z n).

Definition fadd (x y : double) : double := a ← x; b ← y; fl (a + b).
Definition fsub (x y : double) : double := a ← x; b ← y; fl (a - b).
Definition fmul (x y : double) : double := a ← x; b ← y; fl (a * b).
Definition fdiv (x y : double) : double :=
  a ← x; b ← y; if Qeq_bool b 0 then None else fl (a / b).

(** Conversion of a [double] to [unsigned long] drops the fraction; it is
    defined only when the integral part fits the 32 bits. *)
Definition Qtrunc (x : Q) : Z := if Qle_bool 0 x then Qfloor x else Qceiling x.

Definition double_to_ulong (x : double) : option Z :=
  a ← x;
  let t := Qtrunc a in
  if (0 <=? t) && (t <? 2 ^ 32) then Some t else None.

(** ** Tuning word

    [const unsigned long long POW2TO32 = pow(2, 32);]
    [const double clock = 31372.549;]
    [POW2TO32 * (((((double)value * FREQ_RANGE) / 1023L) + FREQ_MIN) / clock)]
    assigned to an [unsigned long].  The frequency bounds are literals of
    Settings.h; the range is their difference, a [double] constant. *)

Definition POW2TO32 : Z := 2 ^ 32.
Definition clock : double := fl (31372549 # 1000).

Definition FREQ_RANGE_of (freq_min freq_max : Q) : double :=
  fsub (fl freq_max) (fl freq_min).

Definition tuning_expr (freq_range freq_min : double) (value : Z) : double :=
  fmul (double_of_Z POW2TO32)
       (fdiv (fadd (fdiv (fmul (double_of_Z value) freq_range)
                         (double_of_Z 1023))
                   freq_min)
             clock).

Definition tuning_word (freq_range freq_min : double) (value : Z) : option Z :=
  double_to_ulong (tuning_expr freq_range freq_min value).

Definition assign_ulong (x : option Z) : result Z :=
  match x with
  | Some t => Ok t
  | None => Fault NotRepresentable
  end.

(** The same expression over the IEEE-754 reference operations of the
    standard library, at 24 bits of precision; [SF_value] reads a finite
    result back as a rational.  [SF_literal n d] is the constant [n/d]. *)

Definition SF_of_Z (n : Z) : spec_float :=
  binary_normalize double_prec double_emax n 0 false.

Definition SF_literal (n d : positive) : spec_float :=
  SFdiv double_prec double_emax (S754_finite false n 0) (S754_finite false d 0).

Definition SF_value (x : spec_float) : double :=
  match x with
  | S754_zero _ => Some 0%Q
  | S754_finite s m e => Some (Qred (inject_Z (cond_Zopp s (Z.pos m)) * pow2 e))
  | _ => None
  end.

Definition SF_tuning_expr (freq_range freq_min : spec_float) (value : Z) : spec_float :=
  SFmul double_prec double_emax (SF_of_Z POW2TO32)
    (SFdiv double_prec double_emax
       (SFadd double_prec double_emax
          (SFdiv double_prec double_emax
             (SFmul double_prec double_emax (SF_of_Z value) freq_range)
             (SF_of_Z 1023))
          freq_min)
       (SF_literal 31372549 1000)).

(** ** What the specification asks of the tuning word

    [round(2^32 * freq / tick_rate)] with
    [freq = min_freq + (reading / 1023) * (max_freq - min_freq)], over the
    rationals, rounded to the nearest integer. *)

Definition spec_freq (min_freq max_freq : Q) (reading : Z) : Q :=
  (min_freq + (inject_Z reading / 1023) * (max_freq - min_freq))%Q.

Definition spec_tuning_word (tick_rate min_freq max_freq : Q) (reading : Z) : Z :=
  Qfloor (inject_Z (2 ^ 32) * spec_freq min_freq max_freq reading / tick_rate + (1 # 2)).

(** ** The four-channel sketch *)

Module Quad.

Definition NUM_LFO : Z := 4.

(** Settings.h: the frequency bounds and the sync pins of the four
    oscillators, the trigger level, and whether SYNC is defined. *)
Record settings : Type := {
  SYNC : bool;
  SYNC1_PIN : Z; SYNC2_PIN : Z; SYNC3_PIN : Z; SYNC4_PIN : Z;
  SYNC_TRIGGER : Z;
  LFO1_FREQ_MIN : Q; LFO1_FREQ_MAX : Q;
  LFO2_FREQ_MIN : Q; LFO2_FREQ_MAX : Q;
  LFO3_FREQ_MIN : Q; LFO3_FREQ_MAX : Q;
  LFO4_FREQ_MIN : Q; LFO4_FREQ_MAX : Q
}.

Definition FREQ_RANGE (cfg : settings) : list double :=
  [FREQ_RANGE_of (LFO1_FREQ_MIN cfg) (LFO1_FREQ_MAX cfg);
   FREQ_RANGE_of (LFO2_FREQ_MIN cfg) (LFO2_FREQ_MAX cfg);
   FREQ_RANGE_of (LFO3_FREQ_MIN cfg) (LFO3_FREQ_MAX cfg);
   FREQ_RANGE_of (LFO4_FREQ_MIN cfg) (LFO4_FREQ_MAX cfg)].

Definition FREQ_MIN (cfg : settings) : list double :=
  [fl (LFO1_FREQ_MIN cfg); fl (LFO2_FREQ_MIN cfg);
   fl (LFO3_FREQ_MIN cfg); fl (LFO4_FREQ_MIN cfg)].

Definition SYNC_PIN (cfg : settings) : list Z :=
  [SYNC1_PIN cfg; SYNC2_PIN cfg; SYNC3_PIN cfg; SYNC4_PIN cfg].

(** The control objects [freqCtrl[]] and [waveCtrl[]]: four of each, named
    by their position.  What they report comes from the hardware. *)
Definition freqCtrl : list nat := [0; 1; 2; 3]%nat.
Definition waveCtrl : list nat := [0; 1; 2; 3]%nat.

Record inputs : Type := {
  digitalRead : Z -> Z;
  stateDebounced : nat -> Z;
  changed : nat -> bool;
  value : nat -> Z
}.

Record state : Type := mkState {
  pinState : Z;
  tickCounter : Z;
  fourMilliCounter : Z;
  accumulator : list Z;
  tuningWord : list Z;
  waveform : list wave;
  waveNum : list Z;
  lastSync : list Z;
  OCR2A : Z; OCR2B : Z; OCR0A : Z; OCR0B : Z
}.

Definition set_pinState (v : Z) (s : state) : state :=
  let '(mkState _ tc fc acc tw wf wn ls a b c d) := s in
  mkState v tc fc acc tw wf wn ls a b c d.
Definition set_counters (k : Z * Z) (s : state) : state :=
  let '(mkState ps _ _ acc tw wf wn ls a b c d) := s in
  mkState ps (fst k) (snd k) acc tw wf wn ls a b c d.
Definition set_accumulator (v : list Z) (s : state) : state :=
  let '(mkState ps tc fc _ tw wf wn ls a b c d) := s in
  mkState ps tc fc v tw wf wn ls a b c d.
Definition set_tuningWord (v : list Z) (s : state) : state :=
  let '(mkState ps tc fc acc _ wf wn ls a b c d) := s in
  mkState ps tc fc acc v wf wn ls a b c d.
Definition set_waveform (v : list wave) (s : state) : state :=
  let '(mkState ps tc fc acc tw _ wn ls a b c d) := s in
  mkState ps tc fc acc tw v wn ls a b c d.
Definition set_waveNum (v : list Z) (s : state) : state :=
  let '(mkState ps tc fc acc tw wf _ ls a b c d) := s in
  mkState ps tc fc acc tw wf v ls a b c d.
Definition set_lastSync (v : list Z) (s : state) : state :=
  let '(mkState ps tc fc acc tw wf wn _ a b c d) := s in
  mkState ps tc fc acc tw wf wn v a b c d.

(** [switch (i) { case 0: OCR2A = sample; ... case 3: OCR0B = sample; }] *)
Definition write_OCR (i : nat) (sample : Z) (s : state) : state :=
  let '(mkState ps tc fc acc tw wf wn ls a b c d) := s in
  match i with
  | 0%nat => mkState ps tc fc acc tw wf wn ls sample b c d
  | 1%nat => mkState ps tc fc acc tw wf wn ls a sample c d
  | 2%nat => mkState ps tc fc acc tw wf wn ls a b sample d
  | 3%nat => mkState ps tc fc acc tw wf wn ls a b c sample
  | _ => s
  end.

(** The state when [setup()] returns: statics are zero, every channel
    plays [waveTable[0]], and [lastSync[i]] holds the level read from
    [SYNC_PIN[i]]. *)
Definition after_setup (cfg : settings) (inp : inputs) : state :=
  {| pinState := 0; tickCounter := 0; fourMilliCounter := 0;
     accumulator := [0; 0; 0; 0];
     tuningWord := [0; 0; 0; 0];
     waveform := [sine256; sine256; sine256; sine256];
     waveNum := [0; 0; 0; 0];
     lastSync := (fun pin => to_byte (digitalRead inp pin)) <$> SYNC_PIN cfg;
     OCR2A := 0; OCR2B := 0; OCR0A := 0; OCR0B := 0 |}.

(** *** ISR(TIMER2_OVF_vect) *)

Definition lfo_tick (flash : progmem) (i : nat) (s : state) : result state :=
  acc ← load (accumulator s) i;
  tw ← load (tuningWord s) i;
  accs ← store (accumulator s) i (to_ulong (acc + tw));
  let s := set_accumulator accs s in
  acc ← load (accumulator s) i;
  let offset := to_byte (Z.shiftr acc 24) in
  table ← load (waveform s) i;
  let sample := pgm_read_byte_near flash table offset in
  Ok (write_OCR i sample s).

Definition ISR (flash : progmem) (s : state) : result state :=
  let s := set_counters (count_tick (tickCounter s, fourMilliCounter s)) s in
  for_each (lfo_tick flash) (below NUM_LFO) s.

(** *** loop() *)

Definition sync_lfo (cfg : settings) (inp : inputs) (i : nat) (s : state)
  : result state :=
  pin ← load (SYNC_PIN cfg) i;
  let s := set_pinState (to_byte (digitalRead inp pin)) s in
  last ← load (lastSync s) i;
  if negb (pinState s =? last) then
    ls ← store (lastSync s) i (pinState s);
    let s := set_lastSync ls s in
    if pinState s =? SYNC_TRIGGER cfg then
      accs ← store (accumulator s) i 0;
      Ok (set_accumulator accs s)
    else Ok s
  else Ok s.

Definition wave_select (inp : inputs) (i : nat) (s : state) : result state :=
  sw ← load waveCtrl i;
  let s := set_pinState (to_byte (stateDebounced inp sw)) s in
  sw ← load waveCtrl i;
  if changed inp sw then
    if pinState s =? 1 then
      n ← load (waveNum s) i;
      ns ← store (waveNum s) i (to_byte ((n + 1) mod NUM_WAVES));
      let s := set_waveNum ns s in
      n ← load (waveNum s) i;
      table ← load waveTable (Z.to_nat n);
      ws ← store (waveform s) i table;
      Ok (set_waveform ws s)
    else Ok s
  else Ok s.

Definition frequency (cfg : settings) (inp : inputs) (i : nat) (s : state)
  : result state :=
  pot ← load freqCtrl i;
  range ← load (FREQ_RANGE cfg) i;
  fmin ← load (FREQ_MIN cfg) i;
  tw ← assign_ulong (tuning_word range fmin (value inp pot));
  tws ← store (tuningWord s) i tw;
  Ok (set_tuningWord tws s).

Definition update_lfo (cfg : settings) (inp : inputs) (i : nat) (s : state)
  : result state :=
  s ← wave_select inp i s;
  frequency cfg inp i s.

Definition sync (cfg : settings) (inp : inputs) (s : state) : result state :=
  if SYNC cfg then for_each (sync_lfo cfg inp) (below NUM_LFO) s else Ok s.

(** [for (byte i=0; i<=NUM_LFO; i+=1)] *)
Definition update_indices : list nat := upto NUM_LFO.

Definition update (cfg : settings) (inp : inputs) (s : state) : result state :=
  if control_due (fourMilliCounter s) then
    let s := set_counters (tickCounter s, 0) s in
    for_each (update_lfo cfg inp) update_indices s
  else Ok s.

Definition loop (cfg : settings) (inp : inputs) (s : state) : result state :=
  s ← sync cfg inp s;
  update cfg inp s.

(** The arrays keep their declared length of four. *)
Definition wf (s : state) : Prop :=
  length (accumulator s) = 4%nat /\ length (tuningWord s) = 4%nat /\
  length (waveform s) = 4%nat /\ length (waveNum s) = 4%nat /\
  length (lastSync s) = 4%nat.

(** Every channel's wave number indexes [waveTable], and its waveform
    pointer is the table of that number. *)
Definition wave_ok (s : state) : Prop :=
  forall i : nat, (i < Z.to_nat NUM_LFO)%nat ->
    exists n table, waveNum s !! i = Some n /\ 0 <= n < NUM_WAVES /\
                    waveTable !! Z.to_nat n = Some table /\
                    waveform s !! i = Some table.

End Quad.

(** ** The two-channel sketch *)

Module Dual.

(** Settings.h: whether SYNC and SYNC_COMMON are defined, the sync pins
    and trigger levels, and the frequency bounds of the two oscillators. *)
Record settings : Type := {
  SYNC : bool;
  SYNC_COMMON : bool;
  SYNC1_PIN : Z; SYNC2_PIN : Z;
  SYNC1_TRIGGER : Z; SYNC2_TRIGGER : Z;
  LFO1_FREQ_MIN : Q; LFO1_FREQ_MAX : Q;
  LFO2_FREQ_MIN : Q; LFO2_FREQ_MAX : Q
}.

Definition LFO1_FREQ_RANGE (cfg : settings) : double :=
  FREQ_RANGE_of (LFO1_FREQ_MIN cfg) (LFO1_FREQ_MAX cfg).
Definition LFO2_FREQ_RANGE (cfg : settings) : double :=
  FREQ_RANGE_of (LFO2_FREQ_MIN cfg) (LFO2_FREQ_MAX cfg).

Definition HIGH : Z := 1.
Definition LOW : Z := 0.

(** What the pins, switches and knobs report during one pass of [loop()]. *)
Record inputs : Type := {
  digitalRead : Z -> Z;
  LFO1_WaveSwitch_stateDebounced : Z;
  LFO1_WaveSwitch_changed : bool;
  LFO2_WaveSwitch_stateDebounced : Z;
  LFO2_WaveSwitch_changed : bool;
  LFO1_FreqKnob_value : Z;
  LFO1_DepthKnob_value : Z;
  LFO2_FreqKnob_value : Z;
  LFO2_DepthKnob_value : Z
}.

Record state : Type := mkState {
  pinState : Z;
  lastSYNC1 : Z;
  lastSYNC2 : Z;
  tickCounter : Z;
  fourMilliCounter : Z;
  accumulatorA : Z; LFO1_TuningWord : Z; LFO1_Depth : Z;
  accumulatorB : Z; LFO2_TuningWord : Z; LFO2_Depth : Z;
  LFO1_WaveTable : wave; LFO2_WaveTable : wave;
  LFO1_WaveNum : Z; LFO2_WaveNum : Z;
  OCR2A : Z; OCR2B : Z
}.

Definition set_pinState (v : Z) (s : state) : state :=
  let '(mkState _ l1 l2 tc fc aa t1 d1 ab t2 d2 w1 w2 n1 n2 oa ob) := s in
  mkState v l1 l2 tc fc aa t1 d1 ab t2 d2 w1 w2 n1 n2 oa ob.
Definition set_lastSYNC1 (v : Z) (s : state) : state :=
  let '(mkState ps _ l2 tc fc aa t1 d1 ab t2 d2 w1 w2 n1 n2 oa ob) := s in
  mkState ps v l2 tc fc aa t1 d1 ab t2 d2 w1 w2 n1 n2 oa ob.
Definition set_lastSYNC2 (v : Z) (s : state) : state :=
  let '(mkState ps l1 _ tc fc aa t1 d1 ab t2 d2 w1 w2 n1 n2 oa ob) := s in
  mkState ps l1 v tc fc aa t1 d1 ab t2 d2 w1 w2 n1 n2 oa ob.
Definition set_counters (k : Z * Z) (s : state) : state :=
  let '(mkState ps l1 l2 _ _ aa t1 d1 ab t2 d2 w1 w2 n1 n2 oa ob) := s in
  mkState ps l1 l2 (fst k) (snd k) aa t1 d1 ab t2 d2 w1 w2 n1 n2 oa ob.
Definition set_accumulatorA (v : Z) (s : state) : state :=
  let '(mkState ps l1 l2 tc fc _ t1 d1 ab t2 d2 w1 w2 n1 n2 oa ob) := s in
  mkState ps l1 l2 tc fc v t1 d1 ab t2 d2 w1 w2 n1 n2 oa ob.
Definition set_LFO1_TuningWord (v : Z) (s : state) : state :=
  let '(mkState ps l1 l2 tc fc aa _ d1 ab t2 d2 w1 w2 n1 n2 oa ob) := s in
  mkState ps l1 l2 tc fc aa v d1 ab t2 d2 w1 w2 n1 n2 oa ob.
Definition set_LFO1_Depth (v : Z) (s : state) : state :=
  let '(mkState ps l1 l2 tc fc aa t1 _ ab t2 d2 w1 w2 n1 n2 oa ob) := s in
  mkState ps l1 l2 tc fc aa t1 v ab t2 d2 w1 w2 n1 n2 oa ob.
Definition set_accumulatorB (v : Z) (s : state) : state :=
  let '(mkState ps l1 l2 tc fc aa t1 d1 _ t2 d2 w1 w2 n1 n2 oa ob) := s in
  mkState ps l1 l2 tc fc aa t1 d1 v t2 d2 w1 w2 n1 n2 oa ob.
Definition set_LFO2_TuningWord (v : Z) (s : state) : state :=
  let '(mkState ps l1 l2 tc fc aa t1 d1 ab _ d2 w1 w2 n1 n2 oa ob) := s in
  mkState ps l1 l2 tc fc aa t1 d1 ab v d2 w1 w2 n1 n2 oa ob.
Definition set_LFO2_Depth (v : Z) (s : state) : state :=
  let '(mkState ps l1 l2 tc fc aa t1 d1 ab t2 _ w1 w2 n1 n2 oa ob) := s in
  mkState ps l1 l2 tc fc aa t1 d1 ab t2 v w1 w2 n1 n2 oa ob.
Definition set_LFO1_WaveTable (v : wave) (s : state) : state :=
  let '(mkState ps l1 l2 tc fc aa t1 d1 ab t2 d2 _ w2 n1 n2 oa ob) := s in
  mkState ps l1 l2 tc fc aa t1 d1 ab t2 d2 v w2 n1 n2 oa ob.
Definition set_LFO2_WaveTable (v : wave) (s : state) : state :=
  let '(mkState ps l1 l2 tc fc aa t1 d1 ab t2 d2 w1 _ n1 n2 oa ob) := s in
  mkState ps l1 l2 tc fc aa t1 d1 ab t2 d2 w1 v n1 n2 oa ob.
Definition set_LFO1_WaveNum (v : Z) (s : state) : state :=
  let '(mkState ps l1 l2 tc fc aa t1 d1 ab t2 d2 w1 w2 _ n2 oa ob) := s in
  mkState ps l1 l2 tc fc aa t1 d1 ab t2 d2 w1 w2 v n2 oa ob.
Definition set_LFO2_WaveNum (v : Z) (s : state) : state :=
  let '(mkState ps l1 l2 tc fc aa t1 d1 ab t2 d2 w1 w2 n1 _ oa ob) := s in
  mkState ps l1 l2 tc fc aa t1 d1 ab t2 d2 w1 w2 n1 v oa ob.
Definition set_OCR2A (v : Z) (s : state) : state :=
  let '(mkState ps l1 l2 tc fc aa t1 d1 ab t2 d2 w1 w2 n1 n2 _ ob) := s in
  mkState ps l1 l2 tc fc aa t1 d1 ab t2 d2 w1 w2 n1 n2 v ob.
Definition set_OCR2B (v : Z) (s : state) : state :=
  let '(mkState ps l1 l2 tc fc aa t1 d1 ab t2 d2 w1 w2 n1 n2 oa _) := s in
  mkState ps l1 l2 tc fc aa t1 d1 ab t2 d2 w1 w2 n1 n2 oa v.

(** The state when [setup()] returns. *)
Definition after_setup (cfg : settings) : state :=
  {| pinState := 0;
     lastSYNC1 := if HIGH =? SYNC1_TRIGGER cfg then LOW else HIGH;
     lastSYNC2 := if SYNC_COMMON cfg then 0
                  else if HIGH =? SYNC2_TRIGGER cfg then LOW else HIGH;
     tickCounter := 0; fourMilliCounter := 0;
     accumulatorA := 0; LFO1_TuningWord := 0; LFO1_Depth := 0;
     accumulatorB := 0; LFO2_TuningWord := 0; LFO2_Depth := 0;
     LFO1_WaveTable := sine256; LFO2_WaveTable := sine256;
     LFO1_WaveNum := 0; LFO2_WaveNum := 0;
     OCR2A := 0; OCR2B := 0 |}.

(** *** ISR(TIMER2_OVF_vect)

    [OCRx = (pgm_read_byte_near(table + offset) * depth) / 1024L;]
    the product and the quotient are [unsigned long], the register holds
    a byte. *)

Definition depth_scale (sample depth : Z) : Z :=
  to_byte (to_ulong (sample * depth) / 1024).

Definition ISR (flash : progmem) (s : state) : state :=
  let s := set_counters (count_tick (tickCounter s, fourMilliCounter s)) s in
  let s := set_accumulatorA (to_ulong (accumulatorA s + LFO1_TuningWord s)) s in
  let offset := to_byte (Z.shiftr (accumulatorA s) 24) in
  let s := set_OCR2A (depth_scale (pgm_read_byte_near flash (LFO1_WaveTable s) offset)
                                  (LFO1_Depth s)) s in
  let s := set_accumulatorB (to_ulong (accumulatorB s + LFO2_TuningWord s)) s in
  let offset := to_byte (Z.shiftr (accumulatorB s) 24) in
  set_OCR2B (depth_scale (pgm_read_byte_near flash (LFO2_WaveTable s) offset)
                         (LFO2_Depth s)) s.

(** *** loop() *)

Definition sync1 (cfg : settings) (inp : inputs) (s : state) : state :=
  let s := set_pinState (to_byte (digitalRead inp (SYNC1_PIN cfg))) s in
  if negb (pinState s =? lastSYNC1 s) then
    let s := set_lastSYNC1 (pinState s) s in
    if pinState s =? SYNC1_TRIGGER cfg then
      let s := set_accumulatorA 0 s in
      if SYNC_COMMON cfg then set_accumulatorB 0 s else s
    else s
  else s.

Definition sync2 (cfg : settings) (inp : inputs) (s : state) : state :=
  let s := set_pinState (to_byte (digitalRead inp (SYNC2_PIN cfg))) s in
  if negb (pinState s =? lastSYNC2 s) then
    let s := set_lastSYNC2 (pinState s) s in
    if pinState s =? SYNC2_TRIGGER cfg then set_accumulatorB 0 s else s
  else s.

Definition sync (cfg : settings) (inp : inputs) (s : state) : state :=
  if SYNC cfg then
    let s := sync1 cfg inp s in
    if SYNC_COMMON cfg then s else sync2 cfg inp s
  else s.

Definition wave_select1 (inp : inputs) (s : state) : result state :=
  let s := set_pinState (to_byte (LFO1_WaveSwitch_stateDebounced inp)) s in
  if LFO1_WaveSwitch_changed inp then
    if pinState s =? 1 then
      let s := set_LFO1_WaveNum (to_byte ((LFO1_WaveNum s + 1) mod NUM_WAVES)) s in
      table ← load waveTable (Z.to_nat (LFO1_WaveNum s));
      Ok (set_LFO1_WaveTable table s)
    else Ok s
  else Ok s.

Definition wave_select2 (inp : inputs) (s : state) : result state :=
  let s := set_pinState (to_byte (LFO2_WaveSwitch_stateDebounced inp)) s in
  if LFO2_WaveSwitch_changed inp then
    if pinState s =? 1 then
      let s := set_LFO2_WaveNum (to_byte ((LFO2_WaveNum s + 1) mod NUM_WAVES)) s in
      table ← load waveTable (Z.to_nat (LFO2_WaveNum s));
      Ok (set_LFO2_WaveTable table s)
    else Ok s
  else Ok s.

Definition controls1 (cfg : settings) (inp : inputs) (s : state) : result state :=
  tw ← assign_ulong (tuning_word (LFO1_FREQ_RANGE cfg) (fl (LFO1_FREQ_MIN cfg))
                                 (LFO1_FreqKnob_value inp));
  let s := set_LFO1_TuningWord tw s in
  Ok (set_LFO1_Depth (to_ulong (LFO1_DepthKnob_value inp)) s).

Definition controls2 (cfg : settings) (inp : inputs) (s : state) : result state :=
  tw ← assign_ulong (tuning_word (LFO2_FREQ_RANGE cfg) (fl (LFO2_FREQ_MIN cfg))
                                 (LFO2_FreqKnob_value inp));
  let s := set_LFO2_TuningWord tw s in
  Ok (set_LFO2_Depth (to_ulong (LFO2_DepthKnob_value inp)) s).

Definition update (cfg : settings) (inp : inputs) (s : state) : result state :=
  if control_due (fourMilliCounter s) then
    let s := set_counters (tickCounter s, 0) s in
    s ← wave_select1 inp s;
    s ← wave_select2 inp s;
    s ← controls1 cfg inp s;
    controls2 cfg inp s
  else Ok s.

Definition loop (cfg : settings) (inp : inputs) (s : state) : result state :=
  update cfg inp (sync cfg inp s).

End Dual.

(** ** The configuration of the end-to-end scenario

    Tick rate 31372.549 Hz (the sketch's [clock]), [min_freq = 0.1] Hz and
    [max_freq = 10] Hz on every channel. *)

Definition scenario_min : Q := 1 # 10.
Definition scenario_max : Q := 10 # 1.
Definition scenario_tick_rate : Q := 31372549 # 1000.

Definition scenario_tuning_word (reading : Z) : option Z :=
  tuning_word (FREQ_RANGE_of scenario_min scenario_max) (fl scenario_min) reading.

(** The tuning word of the sketch against the one of the specification,
    for one reading: defined, and equal to the specified one or one less. *)
Definition scenario_check (reading : Z) : bool :=
  match scenario_tuning_word reading with
  | Some t =>
      let w := spec_tuning_word scenario_tick_rate scenario_min scenario_max reading in
      (w - 1 <=? t) && (t <=? w)
  | None => false
  end.

Definition double_eqb (x y : double) : bool :=
  match x, y with
  | Some a, Some b => Qeq_bool a b
  | None, None => true
  | _, _ => false
  end.

(** The rounding model of [double] against the reference operations, for
    one reading. *)
Definition scenario_agrees (reading : Z) : bool :=
  double_eqb
    (SF_value (SF_tuning_expr
                 (SFsub double_prec double_emax (SF_literal 10 1) (SF_literal 1 10))
                 (SF_literal 1 10) reading))
    (tuning_expr (FREQ_RANGE_of scenario_min scenario_max) (fl scenario_min) reading).

Definition readings : list Z := Z.of_nat <$> seq 0 1024.

Definition scenario_quad : Quad.settings :=
  {| Quad.SYNC := true;
     Quad.SYNC1_PIN := 9; Quad.SYNC2_PIN := 10; Quad.SYNC3_PIN := 12; Quad.SYNC4_PIN := 13;
     Quad.SYNC_TRIGGER := 1;
     Quad.LFO1_FREQ_MIN := scenario_min; Quad.LFO1_FREQ_MAX := scenario_max;
     Quad.LFO2_FREQ_MIN := scenario_min; Quad.LFO2_FREQ_MAX := scenario_max;
     Quad.LFO3_FREQ_MIN := scenario_min; Quad.LFO3_FREQ_MAX := scenario_max;
     Quad.LFO4_FREQ_MIN := scenario_min; Quad.LFO4_FREQ_MAX := scenario_max |}.

Definition scenario_dual (common : bool) : Dual.settings :=
  {| Dual.SYNC := true; Dual.SYNC_COMMON := common;
     Dual.SYNC1_PIN := 9; Dual.SYNC2_PIN := if common then 9 else 10;
     Dual.SYNC1_TRIGGER := 1; Dual.SYNC2_TRIGGER := 1;
     Dual.LFO1_FREQ_MIN := scenario_min; Dual.LFO1_FREQ_MAX := scenario_max;
     Dual.LFO2_FREQ_MIN := scenario_min; Dual.LFO2_FREQ_MAX := scenario_max |}.

(** ** Sample data

    A program memory whose tables hold their own offsets, and for each
    sketch a pass of inputs (the first sync pin high, every wave switch
    reporting a press, every knob at 1023) and a state with a control pass
    due. *)

Definition ramp_flash : progmem := fun _ offset => offset.

Definition quad_inputs : Quad.inputs :=
  {| Quad.digitalRead := fun pin => if pin =? 9 then 1 else 0;
     Quad.stateDebounced := fun _ => 1;
     Quad.changed := fun _ => true;
     Quad.value := fun _ => 1023 |}.

Definition quad_example : Quad.state :=
  {| Quad.pinState := 0; Quad.tickCounter := 0; Quad.fourMilliCounter := 26;
     Quad.accumulator := [4294967295; 7; 0; 0];
     Quad.tuningWord := [3; 16777216; 0; 0];
     Quad.waveform := [sine256; sine256; sine256; sine256];
     Quad.waveNum := [0; 0; 0; 0];
     Quad.lastSync := [0; 0; 0; 0];
     Quad.OCR2A := 0; Quad.OCR2B := 0; Quad.OCR0A := 0; Quad.OCR0B := 0 |}.

Definition dual_inputs : Dual.inputs :=
  {| Dual.digitalRead := fun pin => if pin =? 9 then 1 else 0;
     Dual.LFO1_WaveSwitch_stateDebounced := 1;
     Dual.LFO1_WaveSwitch_changed := true;
     Dual.LFO2_WaveSwitch_stateDebounced := 0;
     Dual.LFO2_WaveSwitch_changed := false;
     Dual.LFO1_FreqKnob_value := 1023;
     Dual.LFO1_DepthKnob_value := 1023;
     Dual.LFO2_FreqKnob_value := 0;
     Dual.LFO2_DepthKnob_value := 512 |}.

Definition dual_example : Dual.state :=
  {| Dual.pinState := 0; Dual.lastSYNC1 := 0; Dual.lastSYNC2 := 0;
     Dual.tickCounter := 0; Dual.fourMilliCounter := 26;
     Dual.accumulatorA := 4294967295; Dual.LFO1_TuningWord := 3; Dual.LFO1_Depth := 1024;
     Dual.accumulatorB := 7; Dual.LFO2_TuningWord := 16777216; Dual.LFO2_Depth := 512;
     Dual.LFO1_WaveTable := sine256; Dual.LFO2_WaveTable := sine256;
     Dual.LFO1_WaveNum := 0; Dual.LFO2_WaveNum := 0;
     Dual.OCR2A := 0; Dual.OCR2B := 0 |}.

(** ** Timer registers

    [setBit(addr, bit)] is [_SFR_BYTE(addr) |= _BV(bit)] and
    [clearBit(addr, bit)] is [_SFR_BYTE(addr) &= ~_BV(bit)] (the two-channel
    sketch calls them [sbi] and [cbi]) on the 8-bit special function
    registers of the two timers.  The bit numbers [CS20] ... [TOIE2] come
    from the device header, so they are a parameter; [atmega328p] holds the
    numbers of the board's microcontroller. *)

Module Timer.

Inductive reg : Set := TCCR0A | TCCR0B | TCCR2A | TCCR2B | TIMSK2.

Definition reg_eqb (a b : reg) : bool :=
  match a, b with
  | TCCR0A, TCCR0A | TCCR0B, TCCR0B | TCCR2A, TCCR2A
  | TCCR2B, TCCR2B | TIMSK2, TIMSK2 => true
  | _, _ => false
  end.

Definition sfr : Type := reg -> Z.

Record bits : Type := {
  CS20 : Z; CS21 : Z; CS22 : Z;
  COM2A0 : Z; COM2A1 : Z; COM2B0 : Z; COM2B1 : Z;
  WGM20 : Z; WGM21 : Z; WGM22 : Z;
  TOIE2 : Z
}.

Definition atmega328p : bits :=
  {| CS20 := 0; CS21 := 1; CS22 := 2;
     COM2A0 := 6; COM2A1 := 7; COM2B0 := 4; COM2B1 := 5;
     WGM20 := 0; WGM21 := 1; WGM22 := 3;
     TOIE2 := 0 |}.

Definition BV (bit : Z) : Z := Z.shiftl 1 bit.

Definition write (addr : reg) (v : Z) (m : sfr) : sfr :=
  fun a => if reg_eqb addr a then v else m a.

Definition setBit (addr : reg) (bit : Z) (m : sfr) : sfr :=
  write addr (to_byte (Z.lor (m addr) (BV bit))) m.

Definition clearBit (addr : reg) (bit : Z) (m : sfr) : sfr :=
  write addr (to_byte (Z.land (m addr) (Z.lnot (BV bit)))) m.

(** [PWM_Setup()] of the four-channel sketch: timer 0, then timer 2, then
    the overflow interrupt of timer 2. *)
Definition PWM_Setup (io : bits) (m : sfr) : sfr :=
  let m := setBit TCCR0B (CS20 io) m in
  let m := clearBit TCCR0B (CS21 io) m in
  let m := clearBit TCCR0B (CS22 io) m in
  let m := clearBit TCCR0A (COM2A0 io) m in
  let m := setBit TCCR0A (COM2A1 io) m in
  let m := clearBit TCCR0A (COM2B0 io) m in
  let m := setBit TCCR0A (COM2B1 io) m in
  let m := setBit TCCR0A (WGM20 io) m in
  let m := clearBit TCCR0A (WGM21 io) m in
  let m := clearBit TCCR0B (WGM22 io) m in
  let m := setBit TCCR2B (CS20 io) m in
  let m := clearBit TCCR2B (CS21 io) m in
  let m := clearBit TCCR2B (CS22 io) m in
  let m := clearBit TCCR2A (COM2A0 io) m in
  let m := setBit TCCR2A (COM2A1 io) m in
  let m := clearBit TCCR2A (COM2B0 io) m in
  let m := setBit TCCR2A (COM2B1 io) m in
  let m := setBit TCCR2A (WGM20 io) m in
  let m := clearBit TCCR2A (WGM21 io) m in
  let m := clearBit TCCR2B (WGM22 io) m in
  setBit TIMSK2 (TOIE2 io) m.

(** [Setup_timer2()] of the two-channel sketch. *)
Definition Setup_timer2 (io : bits) (m : sfr) : sfr :=
  let m := setBit TCCR2B (CS20 io) m in
  let m := clearBit TCCR2B (CS21 io) m in
  let m := clearBit TCCR2B (CS22 io) m in
  let m := clearBit TCCR2A (COM2A0 io) m in
  let m := setBit TCCR2A (COM2A1 io) m in
  let m := clearBit TCCR2A (COM2B0 io) m in
  let m := setBit TCCR2A (COM2B1 io) m in
  let m := setBit TCCR2A (WGM20 io) m in
  let m := clearBit TCCR2A (WGM21 io) m in
  let m := clearBit TCCR2B (WGM22 io) m in
  setBit TIMSK2 (TOIE2 io) m.

(** The bit numbers are bits of a byte, and the bits that share a register
    are different bits. *)
Definition bits_ok (io : bits) : Prop :=
  Forall (fun b => 0 <= b < 8)
    [CS20 io; CS21 io; CS22 io; COM2A0 io; COM2A1 io; COM2B0 io; COM2B1 io;
     WGM20 io; WGM21 io; WGM22 io; TOIE2 io] /\
  NoDup [CS20 io; CS21 io; CS22 io; WGM22 io] /\
  NoDup [COM2A0 io; COM2A1 io; COM2B0 io; COM2B1 io; WGM20 io; WGM21 io].

(** Bit [n] of a timer's two control registers after the mode sequence,
    from the register's value [old] before it: prescaler 1 ([CS20] set,
    [CS21] and [CS22] clear), phase-correct PWM ([WGM20] set, [WGM21] and
    [WGM22] clear), non-inverted outputs ([COM2A1] and [COM2B1] set,
    [COM2A0] and [COM2B0] clear), every other bit as before. *)
Definition mode_B (io : bits) (old : Z) (n : Z) : bool :=
  (n <? 8) &&
  (if n =? CS20 io then true
   else if (n =? CS21 io) || (n =? CS22 io) || (n =? WGM22 io) then false
   else Z.testbit old n).

Definition mode_A (io : bits) (old : Z) (n : Z) : bool :=
  (n <? 8) &&
  (if (n =? COM2A1 io) || (n =? COM2B1 io) || (n =? WGM20 io) then true
   else if (n =? COM2A0 io) || (n =? COM2B0 io) || (n =? WGM21 io) then false
   else Z.testbit old n).

End Timer.

(** ** setup()

    The state of a sketch when [setup()] returns, from the state at power
    on.  The loops that wait for a wave switch
    ([while (waveCtrl[i].stateDebounced() == 0);]) read the switch and write
    no variable; of them only the array access is kept. *)

Module QuadSetup.

(** [const byte LFO_PIN[] = {11, 3, 6, 5};] *)
Definition LFO_PIN : list Z := [11; 3; 6; 5].

Definition init_controls (i : nat) (s : Quad.state) : result Quad.state :=
  _ ← load Quad.freqCtrl i;
  _ ← load LFO_PIN i;
  Ok s.

Definition init_wave (i : nat) (s : Quad.state) : result Quad.state :=
  table ← load waveTable 0;
  ws ← store (Quad.waveform s) i table;
  Ok (Quad.set_waveform ws s).

Definition init_switch (i : nat) (s : Quad.state) : result Quad.state :=
  _ ← load Quad.waveCtrl i;
  Ok s.

Definition init_sync (cfg : Quad.settings) (inp : Quad.inputs) (i : nat) (s : Quad.state)
  : result Quad.state :=
  _ ← load (Quad.SYNC_PIN cfg) i;
  pin ← load (Quad.SYNC_PIN cfg) i;
  ls ← store (Quad.lastSync s) i (to_byte (Quad.digitalRead inp pin));
  Ok (Quad.set_lastSync ls s).

Definition setup (cfg : Quad.settings) (inp : Quad.inputs) (io : Timer.bits)
  (sm : Quad.state * Timer.sfr) : result (Quad.state * Timer.sfr) :=
  let '(s, m) := sm in
  s ← for_each init_controls (below Quad.NUM_LFO) s;
  s ← for_each init_wave (below Quad.NUM_LFO) s;
  s ← for_each init_switch (below Quad.NUM_LFO) s;
  s ← (if Quad.SYNC cfg then for_each (init_sync cfg inp) (below Quad.NUM_LFO) s
       else Ok s);
  Ok (s, Timer.PWM_Setup io m).

End QuadSetup.

Module DualSetup.

Definition setup (cfg : Dual.settings) (io : Timer.bits) (sm : Dual.state * Timer.sfr)
  : result (Dual.state * Timer.sfr) :=
  let '(s, m) := sm in
  let s :=
    if Dual.SYNC cfg then
      let s := Dual.set_lastSYNC1
                 (if Dual.HIGH =? Dual.SYNC1_TRIGGER cfg then Dual.LOW else Dual.HIGH) s in
      if Dual.SYNC_COMMON cfg then s
      else Dual.set_lastSYNC2
             (if Dual.HIGH =? Dual.SYNC2_TRIGGER cfg then Dual.LOW else Dual.HIGH) s
    else s in
  table ← load waveTable 0;
  let s := Dual.set_LFO1_WaveTable table s in
  table ← load waveTable 0;
  let s := Dual.set_LFO2_WaveTable table s in
  Ok (s, Timer.Setup_timer2 io m).

End DualSetup.

(** ** Channel outputs of the four-channel sketch *)

(** The PWM compare register that the interrupt's [switch (i)] writes for
    channel [i]. *)
Definition quad_output (i : nat) (s : Quad.state) : Z :=
  match i with
  | 0%nat => Quad.OCR2A s
  | 1%nat => Quad.OCR2B s
  | 2%nat => Quad.OCR0A s
  | _ => Quad.OCR0B s
  end.

(** Sample registers: every bit set. *)
Definition sfr_ones : Timer.sfr := fun _ => 255.

(** ** The variables at reset

    The statics of a sketch are zero when [setup()] is entered.  The
    waveform pointers point nowhere until [setup()] assigns them; [ws],
    [w1] and [w2] stand for what they hold. *)

Definition quad_reset (ws : list wave) : Quad.state :=
  {| Quad.pinState := 0; Quad.tickCounter := 0; Quad.fourMilliCounter := 0;
     Quad.accumulator := [0; 0; 0; 0];
     Quad.tuningWord := [0; 0; 0; 0];
     Quad.waveform := ws;
     Quad.waveNum := [0; 0; 0; 0];
     Quad.lastSync := [0; 0; 0; 0];
     Quad.OCR2A := 0; Quad.OCR2B := 0; Quad.OCR0A := 0; Quad.OCR0B := 0 |}.

Definition dual_reset (w1 w2 : wave) : Dual.state :=
  {| Dual.pinState := 0; Dual.lastSYNC1 := 0; Dual.lastSYNC2 := 0;
     Dual.tickCounter := 0; Dual.fourMilliCounter := 0;
     Dual.accumulatorA := 0; Dual.LFO1_TuningWord := 0; Dual.LFO1_Depth := 0;
     Dual.accumulatorB := 0; Dual.LFO2_TuningWord := 0; Dual.LFO2_Depth := 0;
     Dual.LFO1_WaveTable := w1; Dual.LFO2_WaveTable := w2;
     Dual.LFO1_WaveNum := 0; Dual.LFO2_WaveNum := 0;
     Dual.OCR2A := 0; Dual.OCR2B := 0 |}.

(** ** Counting press edges

    The press edges among the passes [inps], for a channel of the
    four-channel sketch and for the first oscillator of the two-channel
    sketch. *)

Definition presses {A : Type} (edge : A -> bool) (inps : list A) : Z :=
  Z.of_nat (length (List.filter edge inps)).

Definition quad_press (i : nat) (inp : Quad.inputs) : bool :=
  press_edge (Quad.changed inp i) (Quad.stateDebounced inp i).

Definition dual_press1 (inp : Dual.inputs) : bool :=
  press_edge (Dual.LFO1_WaveSwitch_changed inp) (Dual.LFO1_WaveSwitch_stateDebounced inp).

(** A pass in which no switch is pressed and every pin reads low. *)
Definition quad_idle : Quad.inputs :=
  {| Quad.digitalRead := fun _ => 0;
     Quad.stateDebounced := fun _ => 0;
     Quad.changed := fun _ => false;
     Quad.value := fun _ => 0 |}.


Definition dual_press2 (inp : Dual.inputs) : bool :=
  press_edge (Dual.LFO2_WaveSwitch_changed inp) (Dual.LFO2_WaveSwitch_stateDebounced inp).

(** ** Operating conditions

    Frequency bounds of Settings.h with [0 <= min <= max <= 4096] (Hz), and
    knob readings of ten bits, as [analogRead] delivers them.  Under these
    the conversion of the tuning word to [unsigned long] is defined. *)

Definition freq_ok (fmin fmax : Q) : Prop :=
  (0 <= fmin)%Q /\ (fmin <= fmax)%Q /\ (fmax <= 4096 # 1)%Q.

Definition quad_settings_ok (cfg : Quad.settings) : Prop :=
  freq_ok (Quad.LFO1_FREQ_MIN cfg) (Quad.LFO1_FREQ_MAX cfg) /\
  freq_ok (Quad.LFO2_FREQ_MIN cfg) (Quad.LFO2_FREQ_MAX cfg) /\
  freq_ok (Quad.LFO3_FREQ_MIN cfg) (Quad.LFO3_FREQ_MAX cfg) /\
  freq_ok (Quad.LFO4_FREQ_MIN cfg) (Quad.LFO4_FREQ_MAX cfg).

Definition quad_readings_ok (inp : Quad.inputs) : Prop :=
  forall pot : nat, 0 <= Quad.value inp pot <= 1023.

Definition dual_settings_ok (cfg : Dual.settings) : Prop :=
  freq_ok (Dual.LFO1_FREQ_MIN cfg) (Dual.LFO1_FREQ_MAX cfg) /\
  freq_ok (Dual.LFO2_FREQ_MIN cfg) (Dual.LFO2_FREQ_MAX cfg).

Definition dual_readings_ok (inp : Dual.inputs) : Prop :=
  0 <= Dual.LFO1_FreqKnob_value inp <= 1023 /\
  0 <= Dual.LFO2_FreqKnob_value inp <= 1023.

(** ** Rounds of the running sketch

    The Arduino core calls [loop()] again and again while the timer
    interrupt fires.  A round is a number of interrupts followed by one
    pass of [loop()] that reads the inputs [inp]; interrupts are taken
    between passes.  A round of between 3276 and 32130 interrupts after a
    control pass finds the controls due. *)

Definition dual_round (cfg : Dual.settings) (flash : progmem) (r : nat * Dual.inputs)
  (s : Dual.state) : result Dual.state :=
  Dual.loop cfg (snd r) (Nat.iter (fst r) (Dual.ISR flash) s).

Definition quad_round (cfg : Quad.settings) (flash : progmem) (r : nat * Quad.inputs)
  (s : Quad.state) : result Quad.state :=
  s ← iterate (Quad.ISR flash) (fst r) s;
  Quad.loop cfg (snd r) s.

Definition round_due {I : Type} (r : nat * I) : Prop :=
  3276 <= Z.of_nat (fst r) <= 32130.

(** A pass of the two-channel sketch with a press on both wave switches. *)
Definition dual_pressed : Dual.inputs :=
  {| Dual.digitalRead := fun _ => 0;
     Dual.LFO1_WaveSwitch_stateDebounced := 1;
     Dual.LFO1_WaveSwitch_changed := true;
     Dual.LFO2_WaveSwitch_stateDebounced := 1;
     Dual.LFO2_WaveSwitch_changed := true;
     Dual.LFO1_FreqKnob_value := 512;
     Dual.LFO1_DepthKnob_value := 1023;
     Dual.LFO2_FreqKnob_value := 512;
     Dual.LFO2_DepthKnob_value := 1023 |}.

(** * Properties *)

(** ** Rounding to the [double] format is monotone *)

Section Rounding.
Local Open Scope Q_scope.

Lemma pow2_pos e : 0 < pow2 e.
Proof. apply Qpower_0_lt. reflexivity. Qed.

Lemma pow2_add a b : pow2 (a + b) == pow2 a * pow2 b.
Proof. apply Qpower_plus. discriminate. Qed.

Lemma pow2_sub a b : pow2 (a - b) == pow2 a / pow2 b.
Proof. apply Qpower_minus. discriminate. Qed.

Lemma pow2_le a b : (a <= b)%Z -> pow2 a <= pow2 b.
Proof. intros. apply Qpower_le_compat_l; [assumption | discriminate]. Qed.

Lemma pow2_lt a b : (a < b)%Z -> pow2 a < pow2 b.
Proof. intros. apply Qpower_lt_compat_l; [assumption | reflexivity]. Qed.

Lemma pow2_lt_inv a b : pow2 a < pow2 b -> (a < b)%Z.
Proof. intros. eapply Qpower_lt_compat_l_inv; [eassumption | reflexivity]. Qed.

Lemma pow2_inject e : (0 <= e)%Z -> pow2 e == inject_Z (2 ^ e).
Proof. intros. unfold pow2. rewrite Zpower_Qpower by assumption. reflexivity. Qed.

Lemma pow2_succ e : pow2 (e + 1) == 2 * pow2 e.
Proof. rewrite pow2_add. change (pow2 1) with 2. ring. Qed.

Lemma inject_Z_pos z : (0 < z)%Z -> 0 < inject_Z z.
Proof. intros. change 0 with (inject_Z 0). rewrite <- Zlt_Qlt. assumption. Qed.

Lemma Qdiv_le_cross (a b n d : Z) :
  (0 < b)%Z -> (0 < d)%Z -> (a * d <= n * b)%Z -> inject_Z a / inject_Z b <= inject_Z n / inject_Z d.
Proof.
  intros Hb Hd H.
  apply Qle_shift_div_l. { apply inject_Z_pos; assumption. }
  unfold Qdiv. rewrite <- Qmult_assoc, (Qmult_comm (/ _)), Qmult_assoc.
  apply Qle_shift_div_r. { apply inject_Z_pos; assumption. }
  rewrite <- !inject_Z_mult. rewrite <- Zle_Qle. assumption.
Qed.

Lemma Qdiv_lt_cross (a b n d : Z) :
  (0 < b)%Z -> (0 < d)%Z -> (a * d < n * b)%Z -> inject_Z a / inject_Z b < inject_Z n / inject_Z d.
Proof.
  intros Hb Hd H.
  apply Qlt_shift_div_l. { apply inject_Z_pos; assumption. }
  unfold Qdiv. rewrite <- Qmult_assoc, (Qmult_comm (/ _)), Qmult_assoc.
  apply Qlt_shift_div_r. { apply inject_Z_pos; assumption. }
  rewrite <- !inject_Z_mult. rewrite <- Zlt_Qlt. assumption.
Qed.

Lemma Qabs_make x : Qabs x = (Z.abs (Qnum x) # Qden x).
Proof. destruct x; reflexivity. Qed.

Lemma mag_bounds (x : Q) : ~ x == 0 -> pow2 (mag x - 1) <= Qabs x /\ Qabs x < pow2 (mag x).
Proof.
  intros Hx.
  assert (Hn : (0 < Z.abs (Qnum x))%Z).
  { destruct x as [n d]. unfold Qeq in Hx. simpl in *. lia. }
  pose proof (Z.log2_spec _ Hn) as [Hn1 Hn2].
  pose proof (Z.log2_spec (Z.pos (Qden x)) eq_refl) as [Hd1 Hd2].
  pose proof (Z.log2_nonneg (Z.abs (Qnum x))) as Hln.
  pose proof (Z.log2_nonneg (Z.pos (Qden x))) as Hld.
  unfold mag.
  set (ln := Z.log2 (Z.abs (Qnum x))) in *.
  set (ld := Z.log2 (Z.pos (Qden x))) in *.
  assert (Hlo : pow2 (ln - ld - 1) <= Qabs x).
  { replace (ln - ld - 1)%Z with (ln - (ld + 1))%Z by lia.
    rewrite pow2_sub, !pow2_inject by lia.
    rewrite Qabs_make, (Qmake_Qdiv (Z.abs (Qnum x))).
    apply Qdiv_le_cross; [lia | lia | nia]. }
  assert (Hhi : Qabs x < pow2 (ln - ld + 1)).
  { replace (ln - ld + 1)%Z with ((ln + 1) - ld)%Z by lia.
    rewrite pow2_sub, !pow2_inject by lia.
    rewrite Qabs_make, (Qmake_Qdiv (Z.abs (Qnum x))).
    change (Z.succ ln) with (ln + 1)%Z in Hn2. change (Z.succ ld) with (ld + 1)%Z in Hd2.
    apply Qdiv_lt_cross; [lia | lia | nia]. }
  destruct (Qle_bool (pow2 (ln - ld)) (Qabs x)) eqn:E.
  - apply Qle_bool_iff in E. replace (ln - ld + 1 - 1)%Z with (ln - ld)%Z by lia. split; assumption.
  - split; [assumption|]. apply Qnot_le_lt. intro H. apply Qle_bool_iff in H. congruence.
Qed.
Lemma mag_le x y : ~ x == 0 -> Qabs x <= Qabs y -> (mag x <= mag y)%Z.
Proof.
  intros Hx Hxy.
  assert (Hy : ~ y == 0).
  { intro E. rewrite E in Hxy. change (Qabs 0) with 0 in Hxy.
    pose proof (Qabs_nonneg x). apply Hx.
    assert (Hax : Qabs x == 0) by lra.
    destruct (Qabs_Qle_condition x 0) as [H1 _]. destruct H1; lra. }
  destruct (mag_bounds x Hx) as [Hx1 _].
  destruct (mag_bounds y Hy) as [_ Hy2].
  assert (H : pow2 (mag x - 1) < pow2 (mag y)) by lra.
  apply pow2_lt_inv in H. lia.
Qed.

Lemma rne_cases x :
  (rne x = Qfloor x /\ x - inject_Z (Qfloor x) <= 1 # 2) \/
  (rne x = (Qfloor x + 1)%Z /\ 1 # 2 <= x - inject_Z (Qfloor x)).
Proof.
  unfold rne. destruct (Qcompare_spec (x - inject_Z (Qfloor x)) (1 # 2)) as [E|E|E].
  - destruct (Z.even (Qfloor x)); [left | right]; split; auto; lra.
  - left; split; auto; lra.
  - right; split; auto; lra.
Qed.

Lemma rne_le x y : x <= y -> (rne x <= rne y)%Z.
Proof.
  intros Hxy.
  pose proof (Qfloor_resp_le _ _ Hxy) as Hf.
  pose proof (Qfloor_le x) as Hx1. pose proof (Qlt_floor x) as Hx2.
  pose proof (Qfloor_le y) as Hy1. pose proof (Qlt_floor y) as Hy2.
  destruct (Z.eq_dec (Qfloor x) (Qfloor y)) as [E|NE].
  - unfold rne. rewrite <- E in *.
    destruct (Qcompare_spec (x - inject_Z (Qfloor x)) (1 # 2)) as [E1|E1|E1];
    destruct (Qcompare_spec (y - inject_Z (Qfloor x)) (1 # 2)) as [E2|E2|E2];
    try destruct (Z.even (Qfloor x)); try lia; exfalso; lra.
  - destruct (rne_cases x) as [[-> _]|[-> _]], (rne_cases y) as [[-> _]|[-> _]]; lia.
Qed.

Lemma rne_Z n : rne (inject_Z n) = n.
Proof.
  unfold rne. rewrite Qfloor_Z.
  destruct (Qcompare_spec (inject_Z n - inject_Z n) (1 # 2)) as [E|E|E]; try reflexivity; exfalso; lra.
Qed.

Lemma rne_eq_Z x n : x == inject_Z n -> rne x = n.
Proof.
  intros E.
  assert (H1 : x <= inject_Z n) by lra. assert (H2 : inject_Z n <= x) by lra.
  apply rne_le in H1, H2. rewrite rne_Z in H1, H2. lia.
Qed.

Lemma scaled_rne_le x y e :
  x <= y -> inject_Z (rne (x / pow2 e)) * pow2 e <= inject_Z (rne (y / pow2 e)) * pow2 e.
Proof.
  intros H. pose proof (pow2_pos e) as Hp.
  apply Qmult_le_compat_r; [|apply Qlt_le_weak, Hp].
  rewrite <- Zle_Qle. apply rne_le.
  apply Qmult_le_compat_r; [assumption|]. apply Qlt_le_weak, Qinv_lt_0_compat, Hp.
Qed.

Lemma scaled_pow2 j e : (e <= j)%Z -> inject_Z (rne (pow2 j / pow2 e)) * pow2 e == pow2 j.
Proof.
  intros H. pose proof (pow2_pos e) as Hp.
  rewrite (rne_eq_Z _ (2 ^ (j - e))).
  - rewrite <- pow2_inject by lia. rewrite pow2_sub. field. lra.
  - rewrite <- pow2_inject by lia. rewrite pow2_sub. reflexivity.
Qed.

Lemma round_abs_eq x : round_abs x == inject_Z (rne (x / pow2 (cexp x))) * pow2 (cexp x).
Proof. unfold round_abs. apply Qred_correct. Qed.

Lemma round_abs_zero x : x == 0 -> round_abs x == 0.
Proof.
  intros E. rewrite round_abs_eq. generalize (cexp x). intros e.
  rewrite (rne_eq_Z _ 0%Z). { ring. }
  rewrite E. unfold Qdiv. ring.
Qed.

Lemma round_abs_nonneg x : 0 <= x -> 0 <= round_abs x.
Proof.
  intros H. rewrite round_abs_eq. pose proof (pow2_pos (cexp x)) as Hp.
  apply Qmult_le_0_compat; [|apply Qlt_le_weak, Hp].
  change 0 with (inject_Z 0). rewrite <- Zle_Qle.
  assert (H0 : inject_Z 0 <= x / pow2 (cexp x)).
  { apply Qle_shift_div_l; [assumption|]. change (inject_Z 0) with 0. rewrite Qmult_0_l. assumption. }
  apply rne_le in H0. rewrite rne_Z in H0. assumption.
Qed.

Lemma double_prec_pos : (1 <= double_prec)%Z.
Proof. unfold double_prec. lia. Qed.

Lemma round_abs_le x y : 0 <= x -> x <= y -> round_abs x <= round_abs y.
Proof.
  intros Hx Hxy.
  destruct (Qeq_dec x 0) as [E|NE].
  { rewrite (round_abs_zero x E). apply round_abs_nonneg. lra. }
  assert (Hm : (mag x <= mag y)%Z).
  { apply mag_le; [assumption|]. rewrite !Qabs_pos by lra. assumption. }
  assert (Hy0 : ~ y == 0) by (intro E; apply NE; lra).
  destruct (mag_bounds x NE) as [_ Hx2]. destruct (mag_bounds y Hy0) as [Hy1 _].
  rewrite Qabs_pos in Hx2 by lra. rewrite Qabs_pos in Hy1 by lra.
  pose proof double_prec_pos as Hp.
  rewrite !round_abs_eq.
  destruct (Z.eq_dec (cexp x) (cexp y)) as [E|NEc].
  { rewrite E. apply scaled_rne_le. assumption. }
  assert (Hc : (cexp x < mag y - double_prec)%Z /\ cexp y = (mag y - double_prec)%Z /\ (mag x < mag y)%Z).
  { unfold cexp in *. lia. }
  destruct Hc as (Hc1 & Hc2 & Hc3).
  apply Qle_trans with (pow2 (mag y - 1)).
  - rewrite <- (scaled_pow2 (mag y - 1) (cexp x)) by lia.
    apply scaled_rne_le. apply Qle_trans with (pow2 (mag x)); [lra|]. apply pow2_le. lia.
  - rewrite <- (scaled_pow2 (mag y - 1) (cexp y)) at 1 by lia.
    apply scaled_rne_le. assumption.
Qed.

Lemma Qle_bool_false x y : Qle_bool x y = false -> y < x.
Proof. intros H. apply Qnot_le_lt. intro L. apply Qle_bool_iff in L. congruence. Qed.

Lemma round_le x y : x <= y -> round x <= round y.
Proof.
  intros Hxy. unfold round.
  destruct (Qle_bool 0 x) eqn:Ex, (Qle_bool 0 y) eqn:Ey.
  - apply Qle_bool_iff in Ex. apply round_abs_le; assumption.
  - apply Qle_bool_iff in Ex. apply Qle_bool_false in Ey. exfalso; lra.
  - apply Qle_bool_false in Ex. apply Qle_bool_iff in Ey.
    pose proof (round_abs_nonneg (- x)). pose proof (round_abs_nonneg y). lra.
  - apply Qle_bool_false in Ex. apply Qle_bool_false in Ey.
    pose proof (round_abs_le (- y) (- x)). lra.
Qed.


Lemma round_0 : round 0 == 0.
Proof. reflexivity. Qed.

Lemma round_nonneg x : 0 <= x -> 0 <= round x.
Proof. intros H. rewrite <- round_0. apply round_le. assumption. Qed.

Lemma fl_Some x y : fl x = Some y -> y = round x /\ Qabs (round x) < pow2 double_emax.
Proof.
  unfold fl. destruct (Qle_bool _ _) eqn:E; [discriminate|].
  intros [= <-]. split; [reflexivity|]. apply Qle_bool_false. assumption.
Qed.

Lemma fl_le x y a b : fl x = Some a -> fl y = Some b -> x <= y -> a <= b.
Proof.
  intros Hx Hy Hxy. apply fl_Some in Hx as [-> _]. apply fl_Some in Hy as [-> _].
  apply round_le. assumption.
Qed.

Lemma fl_bounded x B B' :
  fl B = Some B' -> 0 <= x -> x <= B -> exists y, fl x = Some y /\ 0 <= y /\ y <= B'.
Proof.
  intros HB H0 Hx. apply fl_Some in HB as [-> HB].
  pose proof (round_nonneg x H0) as Hr0. pose proof (round_le x B Hx) as Hr.
  exists (round x). split; [|split; assumption].
  unfold fl. destruct (Qle_bool _ _) eqn:E; [|reflexivity].
  apply Qle_bool_iff in E. exfalso.
  rewrite Qabs_pos in E by assumption.
  rewrite Qabs_pos in HB by (apply Qle_trans with (round x); assumption).
  apply (Qlt_irrefl (pow2 double_emax)). 
  apply Qle_lt_trans with (round x); [assumption|]. apply Qle_lt_trans with (round B); assumption.
Qed.

Lemma fmul_inv x y r : fmul x y = Some r -> exists a b, x = Some a /\ y = Some b /\ fl (a * b) = Some r.
Proof. destruct x as [a|], y as [b|]; try discriminate. intros H. exists a, b. auto. Qed.

Lemma fadd_inv x y r : fadd x y = Some r -> exists a b, x = Some a /\ y = Some b /\ fl (a + b) = Some r.
Proof. destruct x as [a|], y as [b|]; try discriminate. intros H. exists a, b. auto. Qed.

Lemma fsub_inv x y r : fsub x y = Some r -> exists a b, x = Some a /\ y = Some b /\ fl (a - b) = Some r.
Proof. destruct x as [a|], y as [b|]; try discriminate. intros H. exists a, b. auto. Qed.

Lemma fdiv_inv x y r :
  fdiv x y = Some r -> exists a b, x = Some a /\ y = Some b /\ ~ b == 0 /\ fl (a / b) = Some r.
Proof.
  destruct x as [a|], y as [b|]; try discriminate. simpl.
  destruct (Qeq_bool b 0) eqn:E; [discriminate|]. intros H. exists a, b.
  repeat split; auto. intro Hb. apply Qeq_bool_iff in Hb. congruence.
Qed.

Lemma double_to_ulong_inv x t :
  double_to_ulong x = Some t -> exists a, x = Some a /\ t = Qtrunc a /\ (0 <= t < 2 ^ 32)%Z.
Proof.
  destruct x as [a|]; [|discriminate]. simpl.
  destruct (_ && _) eqn:E; [|discriminate]. intros [= <-]. exists a.
  apply andb_true_iff in E as [E1 E2]. apply Z.leb_le in E1. apply Z.ltb_lt in E2. auto.
Qed.

Lemma Qtrunc_le x y : x <= y -> (Qtrunc x <= Qtrunc y)%Z.
Proof.
  intros Hxy. unfold Qtrunc.
  destruct (Qle_bool 0 x) eqn:Ex, (Qle_bool 0 y) eqn:Ey.
  - apply Qfloor_resp_le. assumption.
  - apply Qle_bool_iff in Ex. apply Qle_bool_false in Ey. exfalso; lra.
  - apply Qle_bool_false in Ex. apply Qle_bool_iff in Ey.
    apply Z.le_trans with 0%Z.
    + change 0%Z with (Qceiling 0). apply Qceiling_resp_le. lra.
    + change 0%Z with (Qfloor 0). apply Qfloor_resp_le. assumption.
  - apply Qceiling_resp_le. assumption.
Qed.

Lemma clock_value : clock = Some (16062745 # 512).
Proof. vm_compute. reflexivity. Qed.

Lemma double_1023 : double_of_Z 1023 = Some (1023 # 1).
Proof. vm_compute. reflexivity. Qed.

Lemma double_POW2TO32 : double_of_Z POW2TO32 = Some (4294967296 # 1).
Proof. vm_compute. reflexivity. Qed.

Lemma tuning_word_le range fmin r1 r2 t1 t2 :
  (forall g, range = Some g -> 0 <= g) -> (r1 <= r2)%Z ->
  tuning_word range fmin r1 = Some t1 -> tuning_word range fmin r2 = Some t2 ->
  (t1 <= t2)%Z.
Proof.
  intros Hg Hr H1 H2. unfold tuning_word, tuning_expr in *.
  rewrite clock_value, double_1023, double_POW2TO32 in *.
  apply double_to_ulong_inv in H1 as (e1 & H1 & -> & _).
  apply double_to_ulong_inv in H2 as (e2 & H2 & -> & _).
  apply fmul_inv in H1 as (p1 & d1 & [= <-] & H1 & He1).
  apply fmul_inv in H2 as (p2 & d2 & [= <-] & H2 & He2).
  apply fdiv_inv in H1 as (c1 & k1 & H1 & [= <-] & _ & Hd1).
  apply fdiv_inv in H2 as (c2 & k2 & H2 & [= <-] & _ & Hd2).
  apply fadd_inv in H1 as (b1 & m1 & H1 & Hm1 & Hc1).
  apply fadd_inv in H2 as (b2 & m2 & H2 & Hm2 & Hc2).
  assert (m2 = m1) by congruence; subst m2.
  apply fdiv_inv in H1 as (a1 & l1 & H1 & [= <-] & _ & Hb1).
  apply fdiv_inv in H2 as (a2 & l2 & H2 & [= <-] & _ & Hb2).
  apply fmul_inv in H1 as (v1 & g1 & Hv1 & Hg1 & Ha1).
  apply fmul_inv in H2 as (v2 & g2 & Hv2 & Hg2 & Ha2).
  assert (g2 = g1) by congruence; subst g2.
  pose proof (Hg _ Hg1) as Hg0.
  assert (Lv : v1 <= v2). { apply (fl_le _ _ _ _ Hv1 Hv2). rewrite <- Zle_Qle. assumption. }
  assert (La : a1 <= a2). { apply (fl_le _ _ _ _ Ha1 Ha2). apply Qmult_le_compat_r; assumption. }
  assert (Lb : b1 <= b2). { apply (fl_le _ _ _ _ Hb1 Hb2). apply Qmult_le_compat_r; [assumption|]. discriminate. }
  assert (Lc : c1 <= c2). { apply (fl_le _ _ _ _ Hc1 Hc2). lra. }
  assert (Ld : d1 <= d2). { apply (fl_le _ _ _ _ Hd1 Hd2). apply Qmult_le_compat_r; [assumption|]. discriminate. }
  assert (Le : e1 <= e2). { apply (fl_le _ _ _ _ He1 He2). lra. }
  apply Qtrunc_le. assumption.
Qed.
Lemma FREQ_RANGE_nonneg fmin fmax g :
  fmin <= fmax -> FREQ_RANGE_of fmin fmax = Some g -> 0 <= g.
Proof.
  intros Hle H. unfold FREQ_RANGE_of in H.
  apply fsub_inv in H as (M & m & HM & Hm & Hg).
  pose proof (fl_le _ _ _ _ Hm HM Hle) as HmM.
  apply fl_Some in Hg as [-> _]. apply round_nonneg. lra.
Qed.

Lemma fl_exact_4096 : fl (4096 # 1) = Some (4096 # 1).
Proof. vm_compute. reflexivity. Qed.

Lemma FREQ_RANGE_defined fmin fmax :
  0 <= fmin -> fmin <= fmax -> fmax <= 4096 # 1 ->
  exists m g, fl fmin = Some m /\ 0 <= m <= 4096 # 1 /\
              FREQ_RANGE_of fmin fmax = Some g /\ 0 <= g <= 4096 # 1.
Proof.
  intros H0 Hle Hmax.
  destruct (fl_bounded fmin _ _ fl_exact_4096) as (m & Hm & Hm0 & Hm1); [lra | lra |].
  destruct (fl_bounded fmax _ _ fl_exact_4096) as (M & HM & HM0 & HM1); [lra | lra |].
  pose proof (fl_le _ _ _ _ Hm HM Hle) as HmM.
  destruct (fl_bounded (M - m) _ _ fl_exact_4096) as (g & Hg & Hg0 & Hg1); [lra | lra |].
  exists m, g. unfold FREQ_RANGE_of. rewrite Hm, HM. simpl. auto.
Qed.

Lemma tuning_word_defined range fmin g m r :
  range = Some g -> 0 <= g <= 4096 # 1 -> fmin = Some m -> 0 <= m <= 4096 # 1 ->
  (0 <= r <= 1023)%Z -> exists t, tuning_word range fmin r = Some t.
Proof.
  intros -> [Hg0 Hg1] -> [Hm0 Hm1] [Hr0 Hr1].
  unfold tuning_word, tuning_expr. rewrite clock_value, double_1023, double_POW2TO32.
  unfold double_of_Z.
  assert (Hr0' : 0 <= inject_Z r) by (change 0 with (inject_Z 0); rewrite <- Zle_Qle; assumption).
  assert (Hr1' : inject_Z r <= 1023 # 1) by (change (1023 # 1) with (inject_Z 1023); rewrite <- Zle_Qle; assumption).
  destruct (fl_bounded (inject_Z r) (1023 # 1) (1023 # 1)) as (v & -> & Hv0 & Hv1);
    [vm_compute; reflexivity | assumption | assumption |].
  destruct (fl_bounded (v * g) (4194304 # 1) (4194304 # 1)) as (a & Ha & Ha0 & Ha1);
    [vm_compute; reflexivity | nra | nra |].
  destruct (fl_bounded (a / (1023 # 1)) (8192 # 1) (8192 # 1)) as (b & Hb & Hb0 & Hb1);
    [vm_compute; reflexivity
    | apply Qle_shift_div_l; [reflexivity | lra]
    | apply Qle_shift_div_r; [reflexivity | lra] |].
  destruct (fl_bounded (b + m) (16384 # 1) (16384 # 1)) as (c & Hc & Hc0 & Hc1);
    [vm_compute; reflexivity | lra | lra |].
  destruct (fl_bounded (c / (16062745 # 512)) (3 # 4) (3 # 4)) as (d & Hd & Hd0 & Hd1);
    [vm_compute; reflexivity
    | apply Qle_shift_div_l; [reflexivity | lra]
    | apply Qle_shift_div_r; [reflexivity | lra] |].
  destruct (fl_bounded ((4294967296 # 1) * d) (3221225472 # 1) (3221225472 # 1)) as (e & He & He0 & He1);
    [vm_compute; reflexivity | lra | lra |].
  cbn [fmul fdiv fadd mbind option_bind]. rewrite Ha. cbn [mbind option_bind].
  change (Qeq_bool (1023 # 1) 0) with false. cbv iota. rewrite Hb. cbn [mbind option_bind].
  rewrite Hc. cbn [mbind option_bind].
  change (Qeq_bool (16062745 # 512) 0) with false. cbv iota. rewrite Hd. cbn [mbind option_bind].
  rewrite He. unfold double_to_ulong. cbn [mbind option_bind].
  assert (Ht0 : (0 <= Qtrunc e)%Z).
  { change 0%Z with (Qtrunc 0). apply Qtrunc_le. assumption. }
  assert (Ht1 : (Qtrunc e <= 3221225472)%Z).
  { change 3221225472%Z with (Qtrunc (3221225472 # 1)). apply Qtrunc_le. assumption. }
  destruct (_ && _) eqn:E; [eauto|].
  apply andb_false_iff in E as [E|E]; [apply Z.leb_gt in E | apply Z.ltb_ge in E]; lia.
Qed.

End Rounding.

(** ** Fixed-width arithmetic *)

Lemma to_ulong_range x : is_ulong (to_ulong x).
Proof. unfold is_ulong, to_ulong. apply Z.mod_pos_bound. lia. Qed.

Lemma to_ulong_small x : is_ulong x -> to_ulong x = x.
Proof. unfold is_ulong, to_ulong. intros H. apply Z.mod_small. assumption. Qed.

Lemma to_ulong_add_l a t : to_ulong (to_ulong a + t) = to_ulong (a + t).
Proof. unfold to_ulong. apply Zplus_mod_idemp_l. Qed.

Lemma to_byte_range x : is_byte (to_byte x).
Proof. unfold is_byte, to_byte. apply Z.mod_pos_bound. lia. Qed.

Lemma to_byte_small x : is_byte x -> to_byte x = x.
Proof. unfold is_byte, to_byte. intros H. apply Z.mod_small. assumption. Qed.

Lemma length_four {A : Type} (l : list A) :
  length l = 4%nat -> exists a b c d, l = [a; b; c; d].
Proof.
  destruct l as [|a [|b [|c [|d [|e l]]]]]; try discriminate. intros _. eauto.
Qed.

(** ** The phase accumulators under the timer interrupt *)

(** One interrupt of the four-channel sketch, on arrays of four. *)
Lemma quad_ISR_step flash s a0 a1 a2 a3 t0 t1 t2 t3 :
  Quad.wf s ->
  Quad.accumulator s = [a0; a1; a2; a3] -> Quad.tuningWord s = [t0; t1; t2; t3] ->
  exists s', Quad.ISR flash s = Ok s' /\ Quad.wf s' /\
    Quad.accumulator s' =
      [to_ulong (a0 + t0); to_ulong (a1 + t1); to_ulong (a2 + t2); to_ulong (a3 + t3)] /\
    Quad.tuningWord s' = Quad.tuningWord s /\
    Quad.waveform s' = Quad.waveform s /\ Quad.waveNum s' = Quad.waveNum s /\
    Quad.lastSync s' = Quad.lastSync s /\
    (Quad.tickCounter s', Quad.fourMilliCounter s') =
      count_tick (Quad.tickCounter s, Quad.fourMilliCounter s).
Proof.
  intros (Ha & Ht & Hw & Hn & Hl) Ea Et.
  destruct (length_four _ Hw) as (w0 & w1 & w2 & w3 & Ew).
  destruct s as [ps tc fc acc tw wfm wn ls o1 o2 o3 o4]. simpl in *. subst acc tw wfm.
  eexists. split; [reflexivity|]. simpl.
  unfold Quad.wf. simpl. repeat split; auto.
  destruct (tc =? 125); reflexivity.
Qed.

Lemma quad_accumulator_iterate flash k :
  forall s i a t, Quad.wf s ->
    Quad.accumulator s !! i = Some a -> is_ulong a -> Quad.tuningWord s !! i = Some t ->
    exists s', iterate (Quad.ISR flash) k s = Ok s' /\ Quad.wf s' /\
      Quad.accumulator s' !! i = Some (to_ulong (a + Z.of_nat k * t)) /\
      Quad.tuningWord s' = Quad.tuningWord s.
Proof.
  induction k as [|k IH]; intros s i a t Hwf Ha Hu Ht.
  - exists s. simpl. rewrite Z.add_0_r, to_ulong_small by assumption. auto.
  - pose proof Hwf as (La & Lt & _).
    destruct (length_four _ La) as (a0 & a1 & a2 & a3 & Ea).
    destruct (length_four _ Lt) as (t0 & t1 & t2 & t3 & Et).
    destruct (quad_ISR_step flash s _ _ _ _ _ _ _ _ Hwf Ea Et)
      as (s1 & Hs1 & Hwf1 & Ea1 & Et1 & _).
    assert (Ha1 : Quad.accumulator s1 !! i = Some (to_ulong (a + t))).
    { rewrite Ea1. rewrite Ea in Ha. rewrite Et in Ht.
      destruct i as [|[|[|[|i]]]]; simpl in *; try discriminate; congruence. }
    destruct (IH s1 i (to_ulong (a + t)) t Hwf1 Ha1 (to_ulong_range _)) as (s' & Hs' & Hwf' & Ha' & Et').
    { rewrite Et1. assumption. }
    exists s'. simpl. rewrite Hs1. simpl. split; [assumption|]. split; [assumption|].
    split; [|congruence].
    rewrite Ha'. f_equal. rewrite to_ulong_add_l. f_equal. lia.
Qed.

Lemma dual_ISR_fields flash s :
  Dual.accumulatorA (Dual.ISR flash s) = to_ulong (Dual.accumulatorA s + Dual.LFO1_TuningWord s) /\
  Dual.accumulatorB (Dual.ISR flash s) = to_ulong (Dual.accumulatorB s + Dual.LFO2_TuningWord s) /\
  Dual.LFO1_TuningWord (Dual.ISR flash s) = Dual.LFO1_TuningWord s /\
  Dual.LFO2_TuningWord (Dual.ISR flash s) = Dual.LFO2_TuningWord s.
Proof. destruct s. repeat split; reflexivity. Qed.

Lemma dual_accumulator_iterate flash k :
  forall s, is_ulong (Dual.accumulatorA s) -> is_ulong (Dual.accumulatorB s) ->
    let s' := Nat.iter k (Dual.ISR flash) s in
    Dual.accumulatorA s' = to_ulong (Dual.accumulatorA s + Z.of_nat k * Dual.LFO1_TuningWord s) /\
    Dual.accumulatorB s' = to_ulong (Dual.accumulatorB s + Z.of_nat k * Dual.LFO2_TuningWord s) /\
    Dual.LFO1_TuningWord s' = Dual.LFO1_TuningWord s /\
    Dual.LFO2_TuningWord s' = Dual.LFO2_TuningWord s.
Proof.
  induction k as [|k IH]; intros s HA HB.
  - simpl. rewrite !Z.add_0_r, !to_ulong_small by assumption. auto.
  - cbv zeta. rewrite Nat.iter_succ.
    destruct (IH s HA HB) as (EA & EB & E1 & E2).
    destruct (dual_ISR_fields flash (Nat.iter k (Dual.ISR flash) s)) as (FA & FB & F1 & F2).
    rewrite FA, FB, F1, F2, EA, EB, E1, E2, !to_ulong_add_l.
    repeat split; auto; f_equal; lia.
Qed.

(** C1. After [k] runs of the tick routine a channel's phase accumulator is
    [(initial + k * tuning_word) mod 2^32]: every tick adds the tuning word
    once, wrapping at 32 bits, and leaves the tuning word alone.  This holds
    for each of the four channels of the four-channel sketch and for both
    channels of the two-channel sketch. *)
Theorem accumulator_after_ticks :
  (forall flash s k i a t, Quad.wf s ->
     Quad.accumulator s !! i = Some a -> is_ulong a -> Quad.tuningWord s !! i = Some t ->
     exists s', iterate (Quad.ISR flash) k s = Ok s' /\
       Quad.accumulator s' !! i = Some ((a + Z.of_nat k * t) mod 2 ^ 32) /\
       Quad.tuningWord s' = Quad.tuningWord s) /\
  (forall flash s k, is_ulong (Dual.accumulatorA s) -> is_ulong (Dual.accumulatorB s) ->
     let s' := Nat.iter k (Dual.ISR flash) s in
     Dual.accumulatorA s' =
       (Dual.accumulatorA s + Z.of_nat k * Dual.LFO1_TuningWord s) mod 2 ^ 32 /\
     Dual.accumulatorB s' =
       (Dual.accumulatorB s + Z.of_nat k * Dual.LFO2_TuningWord s) mod 2 ^ 32 /\
     Dual.LFO1_TuningWord s' = Dual.LFO1_TuningWord s /\
     Dual.LFO2_TuningWord s' = Dual.LFO2_TuningWord s).
Proof.
  split.
  - intros flash s k i a t Hwf Ha Hu Ht.
    destruct (quad_accumulator_iterate flash k s i a t Hwf Ha Hu Ht) as (s' & H1 & _ & H2 & H3).
    exists s'. auto.
  - intros flash s k HA HB. apply dual_accumulator_iterate; assumption.
Qed.

(** ** The tick counters *)

Lemma count_tick_below k four :
  (k <= 125)%nat -> Nat.iter k count_tick (0, four) = (Z.of_nat k, four).
Proof.
  induction k as [|k IH]; intros Hk; [reflexivity|].
  rewrite Nat.iter_succ, IH by lia. unfold count_tick.
  destruct (Z.eqb_spec (Z.of_nat k) 125) as [E|_]; [lia|].
  rewrite to_byte_small by (unfold is_byte; lia). f_equal. lia.
Qed.

Lemma count_tick_period four :
  Nat.iter 126 count_tick (0, four) = (0, to_byte (four + 1)).
Proof.
  change 126%nat with (S 125). rewrite Nat.iter_succ, count_tick_below by lia.
  reflexivity.
Qed.

Lemma dual_ISR_counters flash s :
  (Dual.tickCounter (Dual.ISR flash s), Dual.fourMilliCounter (Dual.ISR flash s)) =
  count_tick (Dual.tickCounter s, Dual.fourMilliCounter s).
Proof. destruct s. simpl. destruct (_ =? 125); reflexivity. Qed.

Lemma dual_ISR_counters_iter flash k s :
  (Dual.tickCounter (Nat.iter k (Dual.ISR flash) s),
   Dual.fourMilliCounter (Nat.iter k (Dual.ISR flash) s)) =
  Nat.iter k count_tick (Dual.tickCounter s, Dual.fourMilliCounter s).
Proof.
  induction k as [|k IH]; [reflexivity|].
  rewrite !Nat.iter_succ, dual_ISR_counters, IH. reflexivity.
Qed.

Lemma quad_ISR_counters_iter flash k :
  forall s, Quad.wf s ->
    exists s', iterate (Quad.ISR flash) k s = Ok s' /\ Quad.wf s' /\
      (Quad.tickCounter s', Quad.fourMilliCounter s') =
        Nat.iter k count_tick (Quad.tickCounter s, Quad.fourMilliCounter s).
Proof.
  induction k as [|k IH]; intros s Hwf.
  - exists s. simpl. auto.
  - pose proof Hwf as (La & Lt & _).
    destruct (length_four _ La) as (a0 & a1 & a2 & a3 & Ea).
    destruct (length_four _ Lt) as (t0 & t1 & t2 & t3 & Et).
    destruct (quad_ISR_step flash s _ _ _ _ _ _ _ _ Hwf Ea Et)
      as (s1 & Hs1 & Hwf1 & _ & _ & _ & _ & _ & Hc).
    destruct (IH s1 Hwf1) as (s' & Hs' & Hwf' & Hc').
    exists s'. simpl iterate. rewrite Hs1. cbn [mbind result_bind].
    split; [assumption|]. split; [assumption|].
    rewrite Hc', Hc, Nat.iter_succ_r. reflexivity.
Qed.

(** C4. What the interrupt does with its two counters: starting from a
    tick counter of 0, the slow-tick counter is still unchanged after 125
    interrupts (the tick counter then holds 125) and advances on the 126th,
    which also clears the tick counter; and the control branch of [loop()]
    is not taken at a slow-tick count of 25, only from 26 on.  So the
    slow-tick counter advances once every 126 ticks and the controls are
    read once per 26 slow ticks.  Stated for the counting step and for the
    interrupt routines of both sketches. *)
Theorem slow_tick_every_126_ticks :
  (forall four,
     Nat.iter 125 count_tick (0, four) = (125, four) /\
     Nat.iter 126 count_tick (0, four) = (0, to_byte (four + 1))) /\
  (forall flash s, Dual.tickCounter s = 0 ->
     Dual.fourMilliCounter (Nat.iter 125 (Dual.ISR flash) s) = Dual.fourMilliCounter s /\
     Dual.tickCounter (Nat.iter 125 (Dual.ISR flash) s) = 125 /\
     Dual.fourMilliCounter (Nat.iter 126 (Dual.ISR flash) s) =
       to_byte (Dual.fourMilliCounter s + 1)) /\
  (forall flash s, Quad.wf s -> Quad.tickCounter s = 0 ->
     exists s125 s126,
       iterate (Quad.ISR flash) 125 s = Ok s125 /\
       Quad.fourMilliCounter s125 = Quad.fourMilliCounter s /\
       Quad.tickCounter s125 = 125 /\
       iterate (Quad.ISR flash) 126 s = Ok s126 /\
       Quad.fourMilliCounter s126 = to_byte (Quad.fourMilliCounter s + 1) /\
       Quad.tickCounter s126 = 0) /\
  control_due 25 = false /\ control_due 26 = true.
Proof.
  split; [|split; [|split; [|split; reflexivity]]].
  - intros four. split; [apply (count_tick_below 125); lia | apply count_tick_period].
  - intros flash s H0.
    pose proof (dual_ISR_counters_iter flash 125 s) as H125.
    pose proof (dual_ISR_counters_iter flash 126 s) as H126.
    rewrite H0 in H125, H126.
    rewrite (count_tick_below 125) in H125 by lia. rewrite count_tick_period in H126.
    apply pair_equal_spec in H125 as [T125 F125].
    apply pair_equal_spec in H126 as [_ F126]. auto.
  - intros flash s Hwf H0.
    destruct (quad_ISR_counters_iter flash 125 s Hwf) as (s125 & E125 & _ & H125).
    destruct (quad_ISR_counters_iter flash 126 s Hwf) as (s126 & E126 & _ & H126).
    rewrite H0 in H125, H126.
    rewrite (count_tick_below 125) in H125 by lia. rewrite count_tick_period in H126.
    apply pair_equal_spec in H125 as [T125 F125].
    apply pair_equal_spec in H126 as [T126 F126].
    exists s125, s126. auto 10.
Qed.

(** ** The sync handler *)

Lemma store_ok {A : Type} (arr : list A) (i : nat) (x y : A) :
  arr !! i = Some y -> store arr i x = Ok (<[i := x]> arr).
Proof.
  intros H. unfold store. apply lookup_lt_Some in H.
  destruct (Nat.ltb_spec i (length arr)); [reflexivity | lia].
Qed.

Lemma load_ok {A : Type} (arr : list A) (i : nat) (y : A) :
  arr !! i = Some y -> load arr i = Ok y.
Proof. intros H. unfold load. rewrite H. reflexivity. Qed.

Lemma quad_sync_lfo_spec cfg inp i s pin last a :
  Quad.wf s -> Quad.SYNC_PIN cfg !! i = Some pin ->
  Quad.lastSync s !! i = Some last -> Quad.accumulator s !! i = Some a ->
  exists s', Quad.sync_lfo cfg inp i s = Ok s' /\ Quad.wf s' /\
    Quad.accumulator s' =
      <[i := if trigger_edge (to_byte (Quad.digitalRead inp pin)) last (Quad.SYNC_TRIGGER cfg)
             then 0 else a]> (Quad.accumulator s) /\
    Quad.lastSync s' = <[i := to_byte (Quad.digitalRead inp pin)]> (Quad.lastSync s) /\
    Quad.tuningWord s' = Quad.tuningWord s /\ Quad.waveform s' = Quad.waveform s /\
    Quad.waveNum s' = Quad.waveNum s /\
    Quad.fourMilliCounter s' = Quad.fourMilliCounter s.
Proof.
  intros (La & Lt & Lw & Ln & Ll) Hp Hl Ha.
  destruct s as [ps tc fc acc tw wfm wn ls o1 o2 o3 o4]. simpl in *.
  unfold Quad.sync_lfo, trigger_edge. rewrite (load_ok _ _ _ Hp). simpl.
  rewrite (load_ok _ _ _ Hl). simpl.
  destruct (Z.eqb_spec (to_byte (Quad.digitalRead inp pin)) last) as [E|NE]; simpl.
  - eexists. split; [reflexivity|]. unfold Quad.wf. simpl.
    rewrite !list_insert_id by congruence. repeat split; auto.
  - rewrite (store_ok _ _ _ _ Hl). simpl.
    destruct (to_byte (Quad.digitalRead inp pin) =? Quad.SYNC_TRIGGER cfg); simpl.
    + rewrite (store_ok _ _ _ _ Ha). simpl.
      eexists. split; [reflexivity|]. unfold Quad.wf. simpl.
      rewrite !length_insert. repeat split; auto.
    + eexists. split; [reflexivity|]. unfold Quad.wf. simpl.
      rewrite !length_insert, (list_insert_id acc) by assumption. repeat split; auto.
Qed.

Lemma quad_sync_spec cfg inp s :
  Quad.SYNC cfg = true -> Quad.wf s ->
  exists s', Quad.sync cfg inp s = Ok s' /\ Quad.wf s' /\
    (forall i pin last a,
       Quad.SYNC_PIN cfg !! i = Some pin -> Quad.lastSync s !! i = Some last ->
       Quad.accumulator s !! i = Some a ->
       Quad.accumulator s' !! i =
         Some (if trigger_edge (to_byte (Quad.digitalRead inp pin)) last (Quad.SYNC_TRIGGER cfg)
               then 0 else a) /\
       Quad.lastSync s' !! i = Some (to_byte (Quad.digitalRead inp pin))) /\
    Quad.tuningWord s' = Quad.tuningWord s /\ Quad.waveform s' = Quad.waveform s /\
    Quad.waveNum s' = Quad.waveNum s /\
    Quad.fourMilliCounter s' = Quad.fourMilliCounter s.
Proof.
  intros Hsync Hwf. unfold Quad.sync. rewrite Hsync.
  pose proof Hwf as (La & _ & _ & _ & Ll).
  destruct (length_four _ La) as (a0 & a1 & a2 & a3 & Ea).
  destruct (length_four _ Ll) as (l0 & l1 & l2 & l3 & El).
  change (below Quad.NUM_LFO) with [0; 1; 2; 3]%nat. cbn [for_each].
  destruct (quad_sync_lfo_spec cfg inp 0 s _ l0 a0 Hwf eq_refl)
    as (s1 & -> & Hwf1 & Ea1 & El1 & Et1 & Ew1 & En1 & Ef1);
    [rewrite El; reflexivity | rewrite Ea; reflexivity |].
  rewrite Ea, El in *. cbn [mbind result_bind].
  destruct (quad_sync_lfo_spec cfg inp 1 s1 _ l1 a1 Hwf1 eq_refl)
    as (s2 & -> & Hwf2 & Ea2 & El2 & Et2 & Ew2 & En2 & Ef2);
    [rewrite El1; reflexivity | rewrite Ea1; reflexivity |].
  rewrite Ea1, El1 in *. cbn [mbind result_bind].
  destruct (quad_sync_lfo_spec cfg inp 2 s2 _ l2 a2 Hwf2 eq_refl)
    as (s3 & -> & Hwf3 & Ea3 & El3 & Et3 & Ew3 & En3 & Ef3);
    [rewrite El2; reflexivity | rewrite Ea2; reflexivity |].
  rewrite Ea2, El2 in *. cbn [mbind result_bind].
  destruct (quad_sync_lfo_spec cfg inp 3 s3 _ l3 a3 Hwf3 eq_refl)
    as (s4 & -> & Hwf4 & Ea4 & El4 & Et4 & Ew4 & En4 & Ef4);
    [rewrite El3; reflexivity | rewrite Ea3; reflexivity |].
  rewrite Ea3, El3 in *. cbn [mbind result_bind].
  exists s4. split; [reflexivity|]. split; [assumption|].
  split; [|repeat split; congruence].
  intros i pin last a Hp Hl Ha. rewrite Ea4, El4.
  destruct i as [|[|[|[|i]]]]; simpl in *; try discriminate;
    injection Hp as <-; injection Hl as <-; injection Ha as <-; split; reflexivity.
Qed.

Lemma dual_sync1_spec cfg inp s :
  let level := to_byte (Dual.digitalRead inp (Dual.SYNC1_PIN cfg)) in
  let edge := trigger_edge level (Dual.lastSYNC1 s) (Dual.SYNC1_TRIGGER cfg) in
  let s' := Dual.sync1 cfg inp s in
  Dual.accumulatorA s' = (if edge then 0 else Dual.accumulatorA s) /\
  Dual.accumulatorB s' =
    (if edge && Dual.SYNC_COMMON cfg then 0 else Dual.accumulatorB s) /\
  Dual.lastSYNC1 s' = level /\ Dual.lastSYNC2 s' = Dual.lastSYNC2 s.
Proof.
  destruct s. unfold Dual.sync1, trigger_edge. simpl.
  destruct (Z.eqb_spec (to_byte (Dual.digitalRead inp (Dual.SYNC1_PIN cfg))) lastSYNC1); simpl;
    [auto|].
  destruct (_ =? Dual.SYNC1_TRIGGER cfg); simpl; [|auto].
  destruct (Dual.SYNC_COMMON cfg); simpl; auto.
Qed.

Lemma dual_sync2_spec cfg inp s :
  let level := to_byte (Dual.digitalRead inp (Dual.SYNC2_PIN cfg)) in
  let edge := trigger_edge level (Dual.lastSYNC2 s) (Dual.SYNC2_TRIGGER cfg) in
  let s' := Dual.sync2 cfg inp s in
  Dual.accumulatorA s' = Dual.accumulatorA s /\
  Dual.accumulatorB s' = (if edge then 0 else Dual.accumulatorB s) /\
  Dual.lastSYNC1 s' = Dual.lastSYNC1 s /\ Dual.lastSYNC2 s' = level.
Proof.
  destruct s. unfold Dual.sync2, trigger_edge. simpl.
  destruct (Z.eqb_spec (to_byte (Dual.digitalRead inp (Dual.SYNC2_PIN cfg))) lastSYNC2); simpl;
    [auto|].
  destruct (_ =? Dual.SYNC2_TRIGGER cfg); simpl; auto.
Qed.

(** C5. One pass of the sync handler sets a channel's accumulator to 0
    exactly when the level read from its sync pin differs from the last
    level seen and equals the trigger level, and leaves the accumulator as
    it was otherwise; the last level seen becomes the level read.  This
    holds for each of the four channels of the four-channel sketch and for
    the two-channel sketch, where with SYNC_COMMON one trigger edge on the
    first sync pin zeroes both accumulators. *)
Theorem sync_resets_on_trigger_edge :
  (forall cfg inp s i pin last a,
     Quad.SYNC cfg = true -> Quad.wf s ->
     Quad.SYNC_PIN cfg !! i = Some pin -> Quad.lastSync s !! i = Some last ->
     Quad.accumulator s !! i = Some a ->
     let level := to_byte (Quad.digitalRead inp pin) in
     let edge := trigger_edge level last (Quad.SYNC_TRIGGER cfg) in
     exists s', Quad.sync cfg inp s = Ok s' /\
       Quad.accumulator s' !! i = Some (if edge then 0 else a) /\
       Quad.lastSync s' !! i = Some level) /\
  (forall cfg inp s,
     Dual.SYNC cfg = true ->
     let level1 := to_byte (Dual.digitalRead inp (Dual.SYNC1_PIN cfg)) in
     let edge1 := trigger_edge level1 (Dual.lastSYNC1 s) (Dual.SYNC1_TRIGGER cfg) in
     let level2 := to_byte (Dual.digitalRead inp (Dual.SYNC2_PIN cfg)) in
     let edge2 := trigger_edge level2 (Dual.lastSYNC2 s) (Dual.SYNC2_TRIGGER cfg) in
     let s' := Dual.sync cfg inp s in
     Dual.accumulatorA s' = (if edge1 then 0 else Dual.accumulatorA s) /\
     Dual.lastSYNC1 s' = level1 /\
     (Dual.SYNC_COMMON cfg = true ->
        Dual.accumulatorB s' = (if edge1 then 0 else Dual.accumulatorB s)) /\
     (Dual.SYNC_COMMON cfg = false ->
        Dual.accumulatorB s' = (if edge2 then 0 else Dual.accumulatorB s) /\
        Dual.lastSYNC2 s' = level2)).
Proof.
  split.
  - intros cfg inp s i pin last a Hsync Hwf Hp Hl Ha level edge.
    destruct (quad_sync_spec cfg inp s Hsync Hwf) as (s' & Hs' & _ & H & _).
    destruct (H i pin last a Hp Hl Ha) as [H1 H2]. exists s'. auto.
  - intros cfg inp s Hsync level1 edge1 level2 edge2 s'.
    subst s'. unfold Dual.sync. rewrite Hsync.
    destruct (dual_sync1_spec cfg inp s) as (A1 & B1 & L1 & L2).
    destruct (dual_sync2_spec cfg inp (Dual.sync1 cfg inp s)) as (A2 & B2 & M1 & M2).
    destruct (Dual.SYNC_COMMON cfg) eqn:Ec.
    + rewrite A1, B1, L1, andb_true_r. repeat split; auto; discriminate.
    + rewrite A2, B2, M1, M2, A1, B1, L1, L2, andb_false_r.
      repeat split; auto; discriminate.
Qed.

(** ** The per-channel loop of the four-channel control branch *)

Lemma quad_update_lfo_past_end cfg inp s :
  Quad.update_lfo cfg inp (Z.to_nat Quad.NUM_LFO) s = Fault OutOfBounds.
Proof. reflexivity. Qed.

Lemma for_each_app {I A : Type} (body : I -> A -> result A) (xs ys : list I) (x : A) :
  for_each body (xs ++ ys) x = (x' ← for_each body xs x; for_each body ys x').
Proof.
  revert x. induction xs as [|i xs IH]; intros x; simpl; [reflexivity|].
  destruct (body i x) as [x'|f]; simpl; [apply IH | reflexivity].
Qed.

Lemma quad_update_indices_split :
  Quad.update_indices = below Quad.NUM_LFO ++ [Z.to_nat Quad.NUM_LFO].
Proof. reflexivity. Qed.

Lemma quad_update_faults cfg inp s :
  control_due (Quad.fourMilliCounter s) = true -> exists f, Quad.update cfg inp s = Fault f.
Proof.
  intros Hdue. unfold Quad.update. rewrite Hdue.
  rewrite quad_update_indices_split, for_each_app.
  destruct (for_each _ (below _) _) as [s4|f]; simpl; eauto.
Qed.

Lemma quad_loop_faults cfg inp s :
  Quad.wf s -> control_due (Quad.fourMilliCounter s) = true ->
  exists f, Quad.loop cfg inp s = Fault f.
Proof.
  intros Hwf Hdue. unfold Quad.loop.
  destruct (Quad.SYNC cfg) eqn:Es.
  - destruct (quad_sync_spec cfg inp s Es Hwf) as (s1 & -> & _ & _ & _ & _ & _ & Ef).
    cbn [mbind result_bind]. apply quad_update_faults. rewrite Ef. assumption.
  - unfold Quad.sync. rewrite Es. cbn [mbind result_bind].
    apply quad_update_faults. assumption.
Qed.

(** C3. The control branch of the four-channel sketch runs its loop body
    for the indices 0, 1, 2, 3 and 4, one more than the four channels, and
    the body at index 4 reads [waveCtrl[4]], outside the array: no pass
    through the branch, and so no pass of [loop()] with the controls due,
    stays within the bounds of the per-channel arrays.  When the four
    channels themselves are updated without a fault, the pass ends in the
    out-of-bounds access. *)
Theorem update_loop_runs_past_last_channel :
  Quad.update_indices = [0; 1; 2; 3; 4]%nat /\
  (forall cfg inp s, Quad.update_lfo cfg inp 4 s = Fault OutOfBounds) /\
  (forall cfg inp s, control_due (Quad.fourMilliCounter s) = true ->
     exists f, Quad.update cfg inp s = Fault f) /\
  (forall cfg inp s s4, control_due (Quad.fourMilliCounter s) = true ->
     for_each (Quad.update_lfo cfg inp) (below Quad.NUM_LFO)
              (Quad.set_counters (Quad.tickCounter s, 0) s) = Ok s4 ->
     Quad.update cfg inp s = Fault OutOfBounds) /\
  (forall cfg inp s, Quad.wf s -> control_due (Quad.fourMilliCounter s) = true ->
     exists f, Quad.loop cfg inp s = Fault f).
Proof.
  split; [reflexivity|]. split; [intros; reflexivity|].
  split; [apply quad_update_faults|]. split.
  - intros cfg inp s s4 Hdue H4. unfold Quad.update. rewrite Hdue.
    rewrite quad_update_indices_split, for_each_app, H4. reflexivity.
  - intros cfg inp s Hwf Hdue. apply quad_loop_faults; assumption.
Qed.

(** ** Wave selection *)

Lemma NUM_WAVES_value : NUM_WAVES = 9.
Proof. reflexivity. Qed.

Lemma next_wave_range n : 0 <= (n + 1) mod NUM_WAVES < NUM_WAVES.
Proof. apply Z.mod_pos_bound. rewrite NUM_WAVES_value. lia. Qed.

Lemma next_wave_byte n : to_byte ((n + 1) mod NUM_WAVES) = (n + 1) mod NUM_WAVES.
Proof.
  apply to_byte_small. pose proof (next_wave_range n) as H.
  rewrite NUM_WAVES_value in *. unfold is_byte. lia.
Qed.

Lemma waveTable_lookup n :
  0 <= n < NUM_WAVES -> exists table, waveTable !! Z.to_nat n = Some table.
Proof.
  intros H. apply lookup_lt_is_Some_2. rewrite NUM_WAVES_value in H.
  change (length waveTable) with 9%nat. lia.
Qed.

Lemma quad_wave_select_spec inp i s n :
  Quad.wf s -> (i < 4)%nat -> Quad.waveNum s !! i = Some n ->
  exists s', Quad.wave_select inp i s = Ok s' /\ Quad.wf s' /\
    (if press_edge (Quad.changed inp i) (Quad.stateDebounced inp i)
     then exists table,
            waveTable !! Z.to_nat ((n + 1) mod NUM_WAVES) = Some table /\
            Quad.waveNum s' = <[i := (n + 1) mod NUM_WAVES]> (Quad.waveNum s) /\
            Quad.waveform s' = <[i := table]> (Quad.waveform s)
     else Quad.waveNum s' = Quad.waveNum s /\ Quad.waveform s' = Quad.waveform s) /\
    Quad.accumulator s' = Quad.accumulator s /\ Quad.tuningWord s' = Quad.tuningWord s /\
    Quad.lastSync s' = Quad.lastSync s /\
    Quad.fourMilliCounter s' = Quad.fourMilliCounter s.
Proof.
  intros (La & Lt & Lw & Ln & Ll) Hi Hn.
  assert (Hsw : Quad.waveCtrl !! i = Some i).
  { destruct i as [|[|[|[|i]]]]; try reflexivity; lia. }
  destruct (lookup_lt_is_Some_2 (Quad.waveform s) i) as [w Hw]; [lia|].
  destruct s as [ps tc fc acc tw wfm wn ls o1 o2 o3 o4]. simpl in *.
  unfold Quad.wave_select, press_edge. rewrite (load_ok _ _ _ Hsw). simpl.
  destruct (Quad.changed inp i); simpl.
  2: { eexists. split; [reflexivity|]. unfold Quad.wf. simpl. repeat split; auto. }
  destruct (to_byte (Quad.stateDebounced inp i) =? 1); simpl.
  2: { eexists. split; [reflexivity|]. unfold Quad.wf. simpl. repeat split; auto. }
  rewrite (load_ok _ _ _ Hn). simpl. rewrite next_wave_byte.
  rewrite (store_ok _ _ _ _ Hn). simpl.
  assert (Hn' : <[i := (n + 1) mod NUM_WAVES]> wn !! i = Some ((n + 1) mod NUM_WAVES)).
  { apply list_lookup_insert_eq. lia. }
  rewrite (load_ok _ _ _ Hn'). simpl.
  destruct (waveTable_lookup _ (next_wave_range n)) as [table Htable].
  rewrite (load_ok _ _ _ Htable). simpl. rewrite (store_ok _ _ _ _ Hw). simpl.
  eexists. split; [reflexivity|]. unfold Quad.wf. simpl. rewrite !length_insert.
  repeat split; auto. exists table. auto.
Qed.

Lemma quad_frequency_spec cfg inp i s s' :
  Quad.wf s -> Quad.frequency cfg inp i s = Ok s' ->
  Quad.wf s' /\ Quad.waveNum s' = Quad.waveNum s /\ Quad.waveform s' = Quad.waveform s /\
  Quad.accumulator s' = Quad.accumulator s /\ Quad.lastSync s' = Quad.lastSync s.
Proof.
  intros (La & Lt & Lw & Ln & Ll) H. unfold Quad.frequency in H.
  destruct (load Quad.freqCtrl i) as [pot|]; [|discriminate]. cbn [mbind result_bind] in H.
  destruct (load (Quad.FREQ_RANGE cfg) i) as [range|]; [|discriminate]. cbn [mbind result_bind] in H.
  destruct (load (Quad.FREQ_MIN cfg) i) as [fmin|]; [|discriminate]. cbn [mbind result_bind] in H.
  destruct (assign_ulong _) as [t|]; [|discriminate]. cbn [mbind result_bind] in H.
  unfold store in H. destruct (_ <? _)%nat; [|discriminate]. cbn [mbind result_bind] in H.
  injection H as <-. destruct s. unfold Quad.wf. simpl in *.
  rewrite length_insert. repeat split; auto.
Qed.

Lemma dual_wave_select1_spec inp s :
  exists s', Dual.wave_select1 inp s = Ok s' /\
    (if press_edge (Dual.LFO1_WaveSwitch_changed inp) (Dual.LFO1_WaveSwitch_stateDebounced inp)
     then Dual.LFO1_WaveNum s' = (Dual.LFO1_WaveNum s + 1) mod NUM_WAVES /\
          waveTable !! Z.to_nat ((Dual.LFO1_WaveNum s + 1) mod NUM_WAVES) =
            Some (Dual.LFO1_WaveTable s')
     else Dual.LFO1_WaveNum s' = Dual.LFO1_WaveNum s /\
          Dual.LFO1_WaveTable s' = Dual.LFO1_WaveTable s) /\
    Dual.LFO2_WaveNum s' = Dual.LFO2_WaveNum s /\
    Dual.LFO2_WaveTable s' = Dual.LFO2_WaveTable s /\
    Dual.LFO1_Depth s' = Dual.LFO1_Depth s /\ Dual.LFO2_Depth s' = Dual.LFO2_Depth s.
Proof.
  destruct s. unfold Dual.wave_select1, press_edge. simpl.
  destruct (Dual.LFO1_WaveSwitch_changed inp); simpl; [|eexists; repeat split; reflexivity].
  destruct (_ =? 1); simpl; [|eexists; repeat split; reflexivity].
  rewrite next_wave_byte.
  destruct (waveTable_lookup _ (next_wave_range LFO1_WaveNum)) as [table Htable].
  rewrite (load_ok _ _ _ Htable). simpl. eexists. repeat split; try reflexivity. assumption.
Qed.

Lemma dual_wave_select2_spec inp s :
  exists s', Dual.wave_select2 inp s = Ok s' /\
    (if press_edge (Dual.LFO2_WaveSwitch_changed inp) (Dual.LFO2_WaveSwitch_stateDebounced inp)
     then Dual.LFO2_WaveNum s' = (Dual.LFO2_WaveNum s + 1) mod NUM_WAVES /\
          waveTable !! Z.to_nat ((Dual.LFO2_WaveNum s + 1) mod NUM_WAVES) =
            Some (Dual.LFO2_WaveTable s')
     else Dual.LFO2_WaveNum s' = Dual.LFO2_WaveNum s /\
          Dual.LFO2_WaveTable s' = Dual.LFO2_WaveTable s) /\
    Dual.LFO1_WaveNum s' = Dual.LFO1_WaveNum s /\
    Dual.LFO1_WaveTable s' = Dual.LFO1_WaveTable s /\
    Dual.LFO1_Depth s' = Dual.LFO1_Depth s /\ Dual.LFO2_Depth s' = Dual.LFO2_Depth s.
Proof.
  destruct s. unfold Dual.wave_select2, press_edge. simpl.
  destruct (Dual.LFO2_WaveSwitch_changed inp); simpl; [|eexists; repeat split; reflexivity].
  destruct (_ =? 1); simpl; [|eexists; repeat split; reflexivity].
  rewrite next_wave_byte.
  destruct (waveTable_lookup _ (next_wave_range LFO2_WaveNum)) as [table Htable].
  rewrite (load_ok _ _ _ Htable). simpl. eexists. repeat split; try reflexivity. assumption.
Qed.

(** ** The wave number stays inside the wavetable library *)

Lemma quad_wave_ok_after_setup cfg inp :
  Quad.wf (Quad.after_setup cfg inp) /\ Quad.wave_ok (Quad.after_setup cfg inp).
Proof.
  split; [unfold Quad.wf; simpl; auto|].
  intros i Hi. change (Z.to_nat Quad.NUM_LFO) with 4%nat in Hi. exists 0, sine256.
  split; [|split; [rewrite NUM_WAVES_value; lia | split; [reflexivity|]]];
    destruct i as [|[|[|[|i]]]]; try reflexivity; lia.
Qed.

Lemma quad_wave_ok_same s s' :
  Quad.waveNum s' = Quad.waveNum s -> Quad.waveform s' = Quad.waveform s ->
  Quad.wave_ok s -> Quad.wave_ok s'.
Proof. intros En Ew H i Hi. rewrite En, Ew. apply H. assumption. Qed.

Lemma quad_wave_select_wave_ok inp i s s' :
  Quad.wf s -> Quad.wave_ok s -> Quad.wave_select inp i s = Ok s' ->
  Quad.wf s' /\ Quad.wave_ok s'.
Proof.
  intros Hwf Hok Hs.
  assert (Hi : (i < 4)%nat).
  { unfold Quad.wave_select in Hs. destruct (load Quad.waveCtrl i) eqn:E; [|discriminate].
    unfold load in E. destruct (Quad.waveCtrl !! i) eqn:E'; [|discriminate].
    apply lookup_lt_Some in E'. simpl in E'. lia. }
  destruct (Hok i Hi) as (n & table & Hn & Hr & Ht & Hw).
  destruct (quad_wave_select_spec inp i s n Hwf Hi Hn) as (s1 & Hs1 & Hwf1 & Hsel & _).
  assert (s1 = s') by congruence. subst s1. split; [assumption|].
  destruct (press_edge _ _).
  - destruct Hsel as (t1 & Ht1 & Hn1 & Hw1).
    destruct Hwf as (_ & _ & Lw & Ln & _).
    intros j Hj. destruct (Nat.eq_dec i j) as [<-|NE].
    + exists ((n + 1) mod NUM_WAVES), t1. rewrite Hn1, Hw1.
      repeat split; try (apply list_lookup_insert_eq; lia); try apply next_wave_range.
      assumption.
    + rewrite Hn1, Hw1, !list_lookup_insert_ne by assumption. apply Hok. assumption.
  - destruct Hsel as [En Ew]. apply (quad_wave_ok_same s); assumption.
Qed.

Lemma quad_update_lfo_wave_ok cfg inp i s s' :
  Quad.wf s -> Quad.wave_ok s -> Quad.update_lfo cfg inp i s = Ok s' ->
  Quad.wf s' /\ Quad.wave_ok s'.
Proof.
  intros Hwf Hok H. unfold Quad.update_lfo in H.
  destruct (Quad.wave_select inp i s) as [s1|] eqn:E1; [|discriminate].
  cbn [mbind result_bind] in H.
  destruct (quad_wave_select_wave_ok inp i s s1 Hwf Hok E1) as [Hwf1 Hok1].
  destruct (quad_frequency_spec cfg inp i s1 s' Hwf1 H) as (Hwf' & En & Ew & _).
  split; [assumption|]. apply (quad_wave_ok_same s1); assumption.
Qed.

Lemma quad_for_each_wave_ok cfg inp idx :
  forall s s', Quad.wf s -> Quad.wave_ok s ->
    for_each (Quad.update_lfo cfg inp) idx s = Ok s' -> Quad.wf s' /\ Quad.wave_ok s'.
Proof.
  induction idx as [|i idx IH]; intros s s' Hwf Hok H; simpl in H.
  - injection H as <-. auto.
  - destruct (Quad.update_lfo cfg inp i s) as [s1|] eqn:E1; [|discriminate].
    cbn [mbind result_bind] in H.
    destruct (quad_update_lfo_wave_ok cfg inp i s s1 Hwf Hok E1) as [Hwf1 Hok1].
    apply (IH s1); assumption.
Qed.

(** ** Depth scaling in the two-channel sketch *)

Lemma depth_scale_exact s d :
  0 <= s <= 255 -> 0 <= d <= 1024 ->
  Dual.depth_scale s d = s * d / 1024 /\ 0 <= s * d / 1024 <= 255.
Proof.
  intros Hs Hd.
  assert (Hp : 0 <= s * d <= 255 * 1024) by nia.
  assert (Hq : 0 <= s * d / 1024 <= 255).
  { split; [apply Z.div_pos; lia|]. apply Z.div_le_upper_bound; lia. }
  unfold Dual.depth_scale. rewrite to_ulong_small by (unfold is_ulong; lia).
  rewrite to_byte_small by (unfold is_byte; lia). auto.
Qed.

Lemma depth_scale_below_full s d :
  0 <= s <= 255 -> 0 <= d <= 1023 -> Dual.depth_scale s d <= 254.
Proof.
  intros Hs Hd. destruct (depth_scale_exact s d) as [-> _]; [lia | lia |].
  assert (Hp : s * d <= 255 * 1023) by nia.
  apply Z.lt_succ_r. apply Z.div_lt_upper_bound; lia.
Qed.

Lemma pgm_read_byte_range flash table offset :
  0 <= pgm_read_byte_near flash table offset <= 255.
Proof.
  unfold pgm_read_byte_near. pose proof (to_byte_range (flash table offset)) as H.
  unfold is_byte in H. lia.
Qed.

Lemma dual_ISR_outputs flash s :
  Dual.OCR2A (Dual.ISR flash s) =
    Dual.depth_scale
      (pgm_read_byte_near flash (Dual.LFO1_WaveTable s)
         (to_byte (Z.shiftr (Dual.accumulatorA (Dual.ISR flash s)) 24)))
      (Dual.LFO1_Depth s) /\
  Dual.OCR2B (Dual.ISR flash s) =
    Dual.depth_scale
      (pgm_read_byte_near flash (Dual.LFO2_WaveTable s)
         (to_byte (Z.shiftr (Dual.accumulatorB (Dual.ISR flash s)) 24)))
      (Dual.LFO2_Depth s).
Proof. destruct s. split; reflexivity. Qed.

(** C8. In the two-channel sketch the value written to an output register
    is [floor(sample * depth / 1024)] whenever the sample is at most 255 and
    the depth at most 1024, and it is at most 255; it is the floor of the
    product of sample and depth over 1024, so it grows with either of them,
    a depth of 1024 passes the sample through and a depth of 0 gives 0. *)
Theorem depth_scaling_is_floor :
  (forall s d, 0 <= s <= 255 -> 0 <= d <= 1024 ->
     Dual.depth_scale s d = s * d / 1024 /\
     0 <= Dual.depth_scale s d <= 255 /\
     1024 * Dual.depth_scale s d <= s * d < 1024 * Dual.depth_scale s d + 1024 /\
     Dual.depth_scale s 1024 = s /\ Dual.depth_scale s 0 = 0) /\
  (forall s1 s2 d1 d2, 0 <= s1 <= s2 -> s2 <= 255 -> 0 <= d1 <= d2 -> d2 <= 1024 ->
     Dual.depth_scale s1 d1 <= Dual.depth_scale s2 d2) /\
  (forall flash st,
     0 <= Dual.LFO1_Depth st <= 1024 -> 0 <= Dual.LFO2_Depth st <= 1024 ->
     let st' := Dual.ISR flash st in
     let sampleA := pgm_read_byte_near flash (Dual.LFO1_WaveTable st)
                      (to_byte (Z.shiftr (Dual.accumulatorA st') 24)) in
     let sampleB := pgm_read_byte_near flash (Dual.LFO2_WaveTable st)
                      (to_byte (Z.shiftr (Dual.accumulatorB st') 24)) in
     Dual.OCR2A st' = sampleA * Dual.LFO1_Depth st / 1024 /\ Dual.OCR2A st' <= 255 /\
     Dual.OCR2B st' = sampleB * Dual.LFO2_Depth st / 1024 /\ Dual.OCR2B st' <= 255).
Proof.
  split; [|split].
  - intros s d Hs Hd. destruct (depth_scale_exact s d Hs Hd) as [E R].
    rewrite E. split; [reflexivity|]. split; [assumption|]. split.
    + pose proof (Z.mul_div_le (s * d) 1024). pose proof (Z.mod_pos_bound (s * d) 1024).
      pose proof (Z.div_mod (s * d) 1024). lia.
    + destruct (depth_scale_exact s 1024 Hs) as [-> _]; [lia|].
      destruct (depth_scale_exact s 0 Hs) as [-> _]; [lia|].
      rewrite Z.div_mul by lia. rewrite Z.mul_0_r. auto.
  - intros s1 s2 d1 d2 Hs1 Hs2 Hd1 Hd2.
    destruct (depth_scale_exact s1 d1) as [-> _]; [lia | lia |].
    destruct (depth_scale_exact s2 d2) as [-> _]; [lia | lia |].
    apply Z.div_le_mono; [lia | nia].
  - intros flash st H1 H2 st' sampleA sampleB.
    destruct (dual_ISR_outputs flash st) as [EA EB]. fold st' in EA, EB.
    fold sampleA in EA. fold sampleB in EB.
    destruct (depth_scale_exact sampleA (Dual.LFO1_Depth st)) as [EA' RA];
      [apply pgm_read_byte_range | assumption |].
    destruct (depth_scale_exact sampleB (Dual.LFO2_Depth st)) as [EB' RB];
      [apply pgm_read_byte_range | assumption |].
    rewrite EA, EB, EA', EB'. repeat split; lia.
Qed.

Lemma dual_controls_depth cfg inp s s' :
  Dual.update cfg inp s = Ok s' -> control_due (Dual.fourMilliCounter s) = true ->
  Dual.LFO1_Depth s' = to_ulong (Dual.LFO1_DepthKnob_value inp) /\
  Dual.LFO2_Depth s' = to_ulong (Dual.LFO2_DepthKnob_value inp).
Proof.
  intros H Hdue. unfold Dual.update in H. rewrite Hdue in H. cbv zeta in H.
  destruct (dual_wave_select1_spec inp (Dual.set_counters (Dual.tickCounter s, 0) s))
    as (s1 & E1 & _). rewrite E1 in H. cbn [mbind result_bind] in H.
  destruct (dual_wave_select2_spec inp s1) as (s2 & E2 & _). rewrite E2 in H.
  cbn [mbind result_bind] in H.
  unfold Dual.controls1 in H. destruct (assign_ulong _) as [t1|]; [|discriminate].
  cbn [mbind result_bind] in H.
  unfold Dual.controls2 in H. destruct (assign_ulong _) as [t2|]; [|discriminate].
  cbn [mbind result_bind] in H. injection H as <-. destruct s2. split; reflexivity.
Qed.

Lemma dual_sync_counter cfg inp s :
  Dual.fourMilliCounter (Dual.sync cfg inp s) = Dual.fourMilliCounter s.
Proof.
  destruct s. unfold Dual.sync, Dual.sync1, Dual.sync2. simpl.
  repeat (match goal with |- context [if ?b then _ else _] => destruct b end; simpl);
    reflexivity.
Qed.

(** C9. In the two-channel sketch a control pass stores the raw reading of
    the depth knob as the depth; a reading is at most 1023, so for every
    sample the value written to the output register by the next interrupt
    is at most 254: the register never receives 255. *)
Theorem depth_output_below_full_scale :
  (forall s d, 0 <= s <= 255 -> 0 <= d <= 1023 -> Dual.depth_scale s d <= 254) /\
  (forall cfg inp flash st st',
     control_due (Dual.fourMilliCounter st) = true ->
     0 <= Dual.LFO1_DepthKnob_value inp <= 1023 ->
     0 <= Dual.LFO2_DepthKnob_value inp <= 1023 ->
     Dual.loop cfg inp st = Ok st' ->
     Dual.LFO1_Depth st' = Dual.LFO1_DepthKnob_value inp /\
     Dual.LFO2_Depth st' = Dual.LFO2_DepthKnob_value inp /\
     Dual.OCR2A (Dual.ISR flash st') <= 254 /\ Dual.OCR2B (Dual.ISR flash st') <= 254).
Proof.
  split; [apply depth_scale_below_full|].
  intros cfg inp flash st st' Hdue H1 H2 Hup. unfold Dual.loop in Hup.
  rewrite <- (dual_sync_counter cfg inp st) in Hdue.
  destruct (dual_controls_depth cfg inp _ st' Hup Hdue) as [E1 E2].
  rewrite to_ulong_small in E1 by (unfold is_ulong; lia).
  rewrite to_ulong_small in E2 by (unfold is_ulong; lia).
  destruct (dual_ISR_outputs flash st') as [EA EB].
  split; [assumption|]. split; [assumption|]. rewrite EA, EB, E1, E2.
  split; apply depth_scale_below_full; auto using pgm_read_byte_range.
Qed.

(** ** The tuning word *)

Lemma readings_complete r : 0 <= r <= 1023 -> In r readings.
Proof.
  intros H. unfold readings. rewrite <- (Z2Nat.id r) by lia.
  apply in_map. apply in_seq. lia.
Qed.

Lemma scenario_check_all : forallb scenario_check readings = true.
Proof. vm_compute. reflexivity. Qed.

Lemma scenario_agrees_all : forallb scenario_agrees readings = true.
Proof. vm_compute. reflexivity. Qed.

(** On every reading of the scenario the rounding model of [double]
    computes the value that the IEEE-754 reference operations compute. *)
Lemma double_model_agrees_with_reference r :
  0 <= r <= 1023 -> scenario_agrees r = true.
Proof.
  intros H. pose proof scenario_agrees_all as Hall.
  rewrite forallb_forall in Hall. apply Hall, readings_complete, H.
Qed.

Lemma tuning_word_truncates range fmin r t :
  tuning_word range fmin r = Some t ->
  exists e, tuning_expr range fmin r = Some e /\
    (inject_Z t - 1 < e < inject_Z t + 1)%Q /\ ((0 <= e)%Q -> (inject_Z t <= e)%Q).
Proof.
  intros H. unfold tuning_word in H.
  apply double_to_ulong_inv in H as (e & He & -> & _). exists e. split; [assumption|].
  unfold Qtrunc. destruct (Qle_bool 0 e) eqn:E.
  - pose proof (Qfloor_le e). pose proof (Qlt_floor e).
    rewrite inject_Z_plus in *. change (inject_Z 1) with 1%Q in *.
    repeat split; try intros _; lra.
  - apply Qle_bool_false in E.
    pose proof (Qle_ceiling e) as Hc1. pose proof (Qceiling_lt e) as Hc2.
    unfold Z.sub in Hc2. rewrite inject_Z_plus in Hc2. change (inject_Z (Z.opp 1)) with (-1)%Q in Hc2.
    repeat split; try intros ?; lra.
Qed.

Lemma quad_frequency_scenario inp i s :
  Quad.wf s -> (i < 4)%nat -> 0 <= Quad.value inp i <= 1023 ->
  exists s' t, Quad.frequency scenario_quad inp i s = Ok s' /\
    Quad.tuningWord s' !! i = Some t /\ scenario_tuning_word (Quad.value inp i) = Some t.
Proof.
  intros (La & Lt & Lw & Ln & Ll) Hi Hr.
  pose proof scenario_check_all as Hall. rewrite forallb_forall in Hall.
  specialize (Hall _ (readings_complete _ Hr)). unfold scenario_check in Hall.
  destruct (scenario_tuning_word (Quad.value inp i)) as [t|] eqn:Et; [|discriminate].
  destruct (lookup_lt_is_Some_2 (Quad.tuningWord s) i) as [t0 Ht0]; [lia|].
  assert (E : Quad.frequency scenario_quad inp i s =
              (tw ← assign_ulong (scenario_tuning_word (Quad.value inp i));
               tws ← store (Quad.tuningWord s) i tw;
               Ok (Quad.set_tuningWord tws s))).
  { destruct i as [|[|[|[|i]]]]; try lia; reflexivity. }
  rewrite Et in E. cbn [assign_ulong mbind result_bind] in E.
  rewrite (store_ok _ _ _ _ Ht0) in E. cbn [mbind result_bind] in E.
  exists (Quad.set_tuningWord (<[i := t]> (Quad.tuningWord s)) s), t.
  split; [assumption|]. split; [|reflexivity].
  destruct s. simpl in *. apply list_lookup_insert_eq. lia.
Qed.

(** C2, as the sketch has it.  The tuning word is the [double] value of
    [POW2TO32 * ((value * FREQ_RANGE / 1023 + FREQ_MIN) / clock)] with its
    fraction dropped.  With the tick rate 31372.549, [min_freq = 0.1] and
    [max_freq = 10], every reading in [[0, 1023]] yields a tuning word, the
    word is [round(2^32 * freq / tick_rate)] or one less, and it is what the
    control pass stores for the channel; reading 0 yields 13690, which is
    [round(2^32 * min_freq / tick_rate)], and reading 1023 yields 1369020,
    one less than [round(2^32 * max_freq / tick_rate)]. *)
Theorem tuning_word_truncated :
  (forall range fmin r t, tuning_word range fmin r = Some t ->
     exists e, tuning_expr range fmin r = Some e /\
       (inject_Z t - 1 < e < inject_Z t + 1)%Q /\ ((0 <= e)%Q -> (inject_Z t <= e)%Q)) /\
  (forall r, 0 <= r <= 1023 ->
     exists t, scenario_tuning_word r = Some t /\
       let w := spec_tuning_word scenario_tick_rate scenario_min scenario_max r in
       w - 1 <= t <= w) /\
  (forall inp i s, Quad.wf s -> (i < 4)%nat -> 0 <= Quad.value inp i <= 1023 ->
     exists s' t, Quad.frequency scenario_quad inp i s = Ok s' /\
       Quad.tuningWord s' !! i = Some t /\ scenario_tuning_word (Quad.value inp i) = Some t) /\
  scenario_tuning_word 0 = Some 13690 /\
  spec_tuning_word scenario_tick_rate scenario_min scenario_max 0 = 13690 /\
  scenario_tuning_word 1023 = Some 1369020 /\
  spec_tuning_word scenario_tick_rate scenario_min scenario_max 1023 = 1369021.
Proof.
  split; [apply tuning_word_truncates|]. split; [|split; [apply quad_frequency_scenario|]].
  - intros r Hr. pose proof scenario_check_all as Hall. rewrite forallb_forall in Hall.
    specialize (Hall _ (readings_complete _ Hr)). unfold scenario_check in Hall.
    destruct (scenario_tuning_word r) as [t|]; [|discriminate]. exists t.
    split; [reflexivity|]. cbv zeta in *.
    apply andb_true_iff in Hall as [H1 H2]. apply Z.leb_le in H1, H2. lia.
  - repeat split; vm_compute; reflexivity.
Qed.

(** C2, as the specification has it, fails: at reading 1023 of the scenario
    the tuning word is neither [round(2^32 * max_freq / tick_rate)] nor
    within 1 of 1368710. *)
Lemma tuning_word_not_rounded :
  scenario_tuning_word 1023 <>
    Some (spec_tuning_word scenario_tick_rate scenario_min scenario_max 1023) /\
  ~ (exists t, scenario_tuning_word 1023 = Some t /\ 1368710 - 1 <= t <= 1368710 + 1).
Proof.
  assert (E : scenario_tuning_word 1023 = Some 1369020) by (vm_compute; reflexivity).
  assert (W : spec_tuning_word scenario_tick_rate scenario_min scenario_max 1023 = 1369021)
    by (vm_compute; reflexivity).
  rewrite E, W. split; [discriminate|].
  intros (t & [= <-] & H). lia.
Qed.

(** C7. With [min_freq <= max_freq] the tuning word does not decrease when
    the reading grows: for readings [r1 <= r2] in [[0, 1023]], whenever both
    tuning words are defined the one of [r1] is at most the one of [r2];
    and both are defined when [0 <= min_freq] and [max_freq <= 4096]. *)
Theorem tuning_word_monotone (fmin fmax : Q) (r1 r2 : Z) :
  (fmin <= fmax)%Q -> 0 <= r1 <= r2 -> r2 <= 1023 ->
  (forall t1 t2,
     tuning_word (FREQ_RANGE_of fmin fmax) (fl fmin) r1 = Some t1 ->
     tuning_word (FREQ_RANGE_of fmin fmax) (fl fmin) r2 = Some t2 -> t1 <= t2) /\
  ((0 <= fmin)%Q -> (fmax <= 4096 # 1)%Q ->
   exists t1 t2,
     tuning_word (FREQ_RANGE_of fmin fmax) (fl fmin) r1 = Some t1 /\
     tuning_word (FREQ_RANGE_of fmin fmax) (fl fmin) r2 = Some t2 /\ t1 <= t2).
Proof.
  intros Hle Hr1 Hr2.
  assert (Hmono : forall t1 t2,
     tuning_word (FREQ_RANGE_of fmin fmax) (fl fmin) r1 = Some t1 ->
     tuning_word (FREQ_RANGE_of fmin fmax) (fl fmin) r2 = Some t2 -> t1 <= t2).
  { intros t1 t2. apply tuning_word_le; [|lia].
    intros g Hg. apply (FREQ_RANGE_nonneg fmin fmax); assumption. }
  split; [exact Hmono|].
  intros H0 Hmax.
  destruct (FREQ_RANGE_defined fmin fmax H0 Hle Hmax) as (m & g & Hm & Hmr & Hg & Hgr).
  destruct (tuning_word_defined _ _ g m r1 Hg Hgr Hm Hmr) as [t1 Ht1]; [lia|].
  destruct (tuning_word_defined _ _ g m r2 Hg Hgr Hm Hmr) as [t2 Ht2]; [lia|].
  exists t1, t2. auto.
Qed.

(** ** Worked instances *)

Lemma accumulator_after_ticks_witness :
  Quad.wf quad_example /\
  exists s', iterate (Quad.ISR ramp_flash) 2 quad_example = Ok s' /\
    Quad.accumulator s' !! 0%nat = Some ((4294967295 + Z.of_nat 2 * 3) mod 2 ^ 32) /\
    Quad.tuningWord s' = Quad.tuningWord quad_example.
Proof.
  assert (Hwf : Quad.wf quad_example) by (unfold Quad.wf; simpl; auto).
  split; [exact Hwf|].
  apply (proj1 accumulator_after_ticks ramp_flash quad_example 2%nat 0%nat 4294967295 3);
    [exact Hwf | reflexivity | unfold is_ulong; lia | reflexivity].
Defined.

Lemma tuning_word_truncated_witness :
  0 <= 512 <= 1023 /\
  exists t, scenario_tuning_word 512 = Some t /\
    let w := spec_tuning_word scenario_tick_rate scenario_min scenario_max 512 in
    w - 1 <= t <= w.
Proof.
  assert (H : 0 <= 512 <= 1023) by lia.
  split; [exact H|].
  apply (proj1 (proj2 tuning_word_truncated) 512 H).
Defined.

Lemma update_loop_runs_past_last_channel_witness :
  control_due (Quad.fourMilliCounter quad_example) = true /\
  exists f, Quad.update scenario_quad quad_inputs quad_example = Fault f.
Proof.
  split; [reflexivity|].
  apply (proj1 (proj2 (proj2 update_loop_runs_past_last_channel))
           scenario_quad quad_inputs quad_example).
  reflexivity.
Defined.

Lemma slow_tick_every_126_ticks_witness :
  Dual.tickCounter dual_example = 0 /\
  Dual.fourMilliCounter (Nat.iter 125 (Dual.ISR ramp_flash) dual_example) =
    Dual.fourMilliCounter dual_example /\
  Dual.tickCounter (Nat.iter 125 (Dual.ISR ramp_flash) dual_example) = 125 /\
  Dual.fourMilliCounter (Nat.iter 126 (Dual.ISR ramp_flash) dual_example) =
    to_byte (Dual.fourMilliCounter dual_example + 1).
Proof.
  split; [reflexivity|].
  apply (proj1 (proj2 slow_tick_every_126_ticks) ramp_flash dual_example).
  reflexivity.
Defined.

Lemma sync_resets_on_trigger_edge_witness :
  Quad.wf quad_example /\
  exists s', Quad.sync scenario_quad quad_inputs quad_example = Ok s' /\
    Quad.accumulator s' !! 0%nat = Some 0 /\ Quad.lastSync s' !! 0%nat = Some 1.
Proof.
  assert (Hwf : Quad.wf quad_example) by (unfold Quad.wf; simpl; auto).
  split; [exact Hwf|].
  apply (proj1 sync_resets_on_trigger_edge scenario_quad quad_inputs quad_example
           0%nat 9 0 4294967295); [reflexivity | exact Hwf | reflexivity | reflexivity | reflexivity].
Defined.

Lemma tuning_word_monotone_witness :
  (scenario_min <= scenario_max)%Q /\
  exists t1 t2, scenario_tuning_word 0 = Some t1 /\ scenario_tuning_word 1023 = Some t2 /\
    t1 <= t2.
Proof.
  assert (H : (scenario_min <= scenario_max)%Q) by (unfold Qle; simpl; lia).
  split; [exact H|].
  apply (proj2 (tuning_word_monotone scenario_min scenario_max 0 1023 H
                  ltac:(lia) ltac:(lia)));
    unfold Qle; simpl; lia.
Defined.

Lemma depth_scaling_is_floor_witness :
  0 <= Dual.LFO1_Depth dual_example <= 1024 /\
  0 <= Dual.LFO2_Depth dual_example <= 1024 /\
  Dual.OCR2A (Dual.ISR ramp_flash dual_example) <= 255 /\
  Dual.OCR2B (Dual.ISR ramp_flash dual_example) <= 255.
Proof.
  assert (H1 : 0 <= Dual.LFO1_Depth dual_example <= 1024) by (simpl; lia).
  assert (H2 : 0 <= Dual.LFO2_Depth dual_example <= 1024) by (simpl; lia).
  split; [exact H1|]. split; [exact H2|].
  destruct (proj2 (proj2 depth_scaling_is_floor) ramp_flash dual_example H1 H2)
    as (_ & HA & _ & HB).
  split; [exact HA | exact HB].
Defined.

Lemma depth_output_below_full_scale_witness :
  exists st', Dual.loop (scenario_dual true) dual_inputs dual_example = Ok st' /\
    Dual.LFO1_Depth st' = 1023 /\ Dual.LFO2_Depth st' = 512 /\
    Dual.OCR2A (Dual.ISR ramp_flash st') <= 254 /\
    Dual.OCR2B (Dual.ISR ramp_flash st') <= 254.
Proof.
  eexists. split; [vm_compute; reflexivity|].
  apply (proj2 depth_output_below_full_scale (scenario_dual true) dual_inputs ramp_flash
           dual_example); [reflexivity | simpl; lia | simpl; lia | vm_compute; reflexivity].
Defined.

(** * Further properties *)

(** ** The counters over any number of interrupts *)

Lemma count_tick_closed k : forall tick four,
  0 <= tick <= 125 -> is_byte four ->
  Nat.iter k count_tick (tick, four) =
    ((tick + Z.of_nat k) mod 126, (four + (tick + Z.of_nat k) / 126) mod 256).
Proof.
  induction k as [|k IH]; intros tick four Ht Hf.
  - simpl. rewrite Z.add_0_r. unfold is_byte in Hf.
    rewrite (Z.mod_small tick), (Z.div_small tick), Z.add_0_r, Z.mod_small by lia.
    reflexivity.
  - rewrite Nat.iter_succ, IH by assumption. unfold count_tick, to_byte.
    change (2 ^ 8) with 256.
    replace (tick + Z.of_nat (S k)) with (tick + Z.of_nat k + 1) by lia.
    set (n := tick + Z.of_nat k). assert (Hn : 0 <= n) by lia. clearbody n.
    destruct (Z.eqb_spec (n mod 126) 125) as [E|NE].
    + f_equal.
      * symmetry. apply Z.mod_divide; [lia|]. exists (n / 126 + 1).
        pose proof (Z.div_mod n 126). lia.
      * rewrite Zplus_mod_idemp_l. f_equal.
        assert ((n + 1) / 126 = n / 126 + 1); [|lia].
        symmetry. apply Z.div_unique with 0; [lia|]. pose proof (Z.div_mod n 126). lia.
    + pose proof (Z.mod_pos_bound n 126). pose proof (Z.div_mod n 126).
      assert (Hq : (n + 1) / 126 = n / 126).
      { symmetry. apply Z.div_unique with (n mod 126 + 1); lia. }
      assert (Hr : (n + 1) mod 126 = n mod 126 + 1).
      { symmetry. apply Z.mod_unique with (n / 126); lia. }
      rewrite Hq, Hr. f_equal. apply Z.mod_small. lia.
Qed.

(** X1. From a tick counter within its range, [k] interrupts leave the tick
    counter at [(tick + k) mod 126] and the slow-tick counter advanced by
    [(tick + k) / 126], wrapping at 256; the tick counter never leaves
    [[0, 125]].  Stated for the counting step and for the interrupt routines
    of both sketches. *)
Theorem counters_after_ticks (k : nat) (tick four : Z) :
  0 <= tick <= 125 -> is_byte four ->
  Nat.iter k count_tick (tick, four) =
    ((tick + Z.of_nat k) mod 126, (four + (tick + Z.of_nat k) / 126) mod 256) /\
  0 <= fst (Nat.iter k count_tick (tick, four)) <= 125 /\
  (forall flash s, Dual.tickCounter s = tick -> Dual.fourMilliCounter s = four ->
     Dual.tickCounter (Nat.iter k (Dual.ISR flash) s) = (tick + Z.of_nat k) mod 126 /\
     Dual.fourMilliCounter (Nat.iter k (Dual.ISR flash) s) =
       (four + (tick + Z.of_nat k) / 126) mod 256) /\
  (forall flash s, Quad.wf s -> Quad.tickCounter s = tick -> Quad.fourMilliCounter s = four ->
     exists s', iterate (Quad.ISR flash) k s = Ok s' /\
       Quad.tickCounter s' = (tick + Z.of_nat k) mod 126 /\
       Quad.fourMilliCounter s' = (four + (tick + Z.of_nat k) / 126) mod 256).
Proof.
  intros Ht Hf. pose proof (count_tick_closed k tick four Ht Hf) as E.
  split; [exact E|]. split; [|split].
  - rewrite E. simpl. pose proof (Z.mod_pos_bound (tick + Z.of_nat k) 126). lia.
  - intros flash s <- <-. pose proof (dual_ISR_counters_iter flash k s) as H.
    rewrite E in H. apply pair_equal_spec in H. exact H.
  - intros flash s Hwf <- <-.
    destruct (quad_ISR_counters_iter flash k s Hwf) as (s' & Hs' & _ & H).
    rewrite E in H. apply pair_equal_spec in H. exists s'. tauto.
Qed.

Lemma counters_after_ticks_witness :
  0 <= 100 <= 125 /\ is_byte 255 /\
  Nat.iter 30 count_tick (100, 255) = (4, 0).
Proof.
  assert (H1 : 0 <= 100 <= 125) by lia.
  assert (H2 : is_byte 255) by (unfold is_byte; lia).
  split; [exact H1|]. split; [exact H2|].
  exact (proj1 (counters_after_ticks 30 100 255 H1 H2)).
Defined.

(** X2. After a control pass has cleared the slow-tick counter, the next
    pass becomes due with the interrupt that brings the count of ticks
    (from the last clearing of the tick counter) to 26 * 126 = 3276, not
    before; and if [loop()] does not take it within the following
    230 * 126 ticks, the slow-tick counter wraps to 0 and the pass is no
    longer due. *)
Theorem control_pass_due_after_3276_ticks (flash : progmem) (s : Dual.state) (k : nat) :
  0 <= Dual.tickCounter s <= 125 -> Dual.fourMilliCounter s = 0 ->
  let n := Dual.tickCounter s + Z.of_nat k in
  let due := control_due (Dual.fourMilliCounter (Nat.iter k (Dual.ISR flash) s)) in
  (n < 3276 -> due = false) /\
  (3276 <= n < 32256 -> due = true) /\
  (32256 <= n < 32256 + 3276 -> due = false).
Proof.
  intros Ht Hf n due.
  assert (Hb : is_byte 0) by (unfold is_byte; lia).
  pose proof (dual_ISR_counters_iter flash k s) as E.
  rewrite Hf, (count_tick_closed k _ 0 Ht Hb) in E. apply pair_equal_spec in E as [_ E].
  subst due. rewrite E. fold n. unfold control_due. rewrite Z.add_0_l.
  assert (Hn : 0 <= n) by (subst n; lia). clearbody n.
  pose proof (Z.div_mod n 126). pose proof (Z.mod_pos_bound n 126).
  repeat split; intros Hr.
  - apply Z.ltb_ge. rewrite Z.mod_small; [|split; [apply Z.div_pos; lia|]];
      [|apply Z.div_lt_upper_bound; lia]. 
    assert (n / 126 < 26) by (apply Z.div_lt_upper_bound; lia). lia.
  - apply Z.ltb_lt.
    assert (26 <= n / 126) by (apply Z.div_le_lower_bound; lia).
    assert (n / 126 < 256) by (apply Z.div_lt_upper_bound; lia).
    rewrite Z.mod_small by lia. lia.
  - apply Z.ltb_ge.
    assert (256 <= n / 126) by (apply Z.div_le_lower_bound; lia).
    assert (n / 126 < 282) by (apply Z.div_lt_upper_bound; lia).
    replace (n / 126) with ((n / 126 - 256) + 1 * 256) by lia.
    rewrite Z.mod_add by lia. rewrite Z.mod_small by lia. lia.
Qed.

Lemma control_pass_due_after_3276_ticks_witness :
  0 <= Dual.tickCounter (Dual.set_counters (100, 0) dual_example) <= 125 /\
  control_due (Dual.fourMilliCounter
                 (Nat.iter 3176 (Dual.ISR ramp_flash)
                    (Dual.set_counters (100, 0) dual_example))) = true.
Proof.
  assert (H1 : 0 <= Dual.tickCounter (Dual.set_counters (100, 0) dual_example) <= 125)
    by (simpl; lia).
  split; [exact H1|].
  apply (proj1 (proj2 (control_pass_due_after_3276_ticks ramp_flash
                         (Dual.set_counters (100, 0) dual_example) 3176 H1 eq_refl))).
  simpl. lia.
Defined.

(** ** The interrupt routine of the four-channel sketch *)

Lemma high_byte acc :
  is_ulong acc -> to_byte (Z.shiftr acc 24) = acc / 2 ^ 24 /\ 0 <= acc / 2 ^ 24 < 256.
Proof.
  unfold is_ulong. intros H. rewrite Z.shiftr_div_pow2 by lia.
  assert (R : 0 <= acc / 2 ^ 24 < 256).
  { split; [apply Z.div_pos; lia | apply Z.div_lt_upper_bound; lia]. }
  split; [|exact R]. apply to_byte_small. unfold is_byte. lia.
Qed.

Lemma iterate_snoc {A : Type} (f : A -> result A) (k : nat) (x : A) :
  iterate f (S k) x = (y ← iterate f k x; f y).
Proof.
  revert x. induction k as [|k IH]; intros x.
  - simpl. destruct (f x); reflexivity.
  - change (mbind (iterate f (S k)) (f x) = mbind f (mbind (iterate f k) (f x))).
    destruct (f x) as [y|e]; cbn [mbind result_bind]; [apply IH | reflexivity].
Qed.

(** One interrupt, channel by channel: the new accumulator and the byte
    written to the channel's compare register. *)
Lemma quad_ISR_channel flash s i a t table :
  Quad.wf s -> Quad.accumulator s !! i = Some a -> Quad.tuningWord s !! i = Some t ->
  Quad.waveform s !! i = Some table ->
  exists s', Quad.ISR flash s = Ok s' /\ Quad.wf s' /\
    Quad.accumulator s' !! i = Some (to_ulong (a + t)) /\
    quad_output i s' =
      pgm_read_byte_near flash table (to_byte (Z.shiftr (to_ulong (a + t)) 24)) /\
    Quad.tuningWord s' = Quad.tuningWord s /\ Quad.waveform s' = Quad.waveform s /\
    Quad.waveNum s' = Quad.waveNum s /\ Quad.lastSync s' = Quad.lastSync s /\
    Quad.pinState s' = Quad.pinState s.
Proof.
  intros Hwf Ha Ht Hw. pose proof Hwf as (La & Lt & Lw & Ln & Ll).
  destruct (length_four _ La) as (a0 & a1 & a2 & a3 & Ea).
  destruct (length_four _ Lt) as (t0 & t1 & t2 & t3 & Et).
  destruct (length_four _ Lw) as (w0 & w1 & w2 & w3 & Ew).
  destruct s as [ps tc fc acc tw wfm wn ls o1 o2 o3 o4]. simpl in *. subst acc tw wfm.
  eexists. split; [reflexivity|]. unfold Quad.wf. simpl.
  destruct i as [|[|[|[|i]]]]; simpl in *; try discriminate;
    injection Ha as <-; injection Ht as <-; injection Hw as <-;
    repeat split; auto.
Qed.

Lemma quad_ISR_iterate_frame (flash : progmem) (k : nat) (s : Quad.state) :
  Quad.wf s ->
  exists s', iterate (Quad.ISR flash) k s = Ok s' /\ Quad.wf s' /\
    Quad.tuningWord s' = Quad.tuningWord s /\ Quad.waveform s' = Quad.waveform s /\
    Quad.waveNum s' = Quad.waveNum s /\ Quad.lastSync s' = Quad.lastSync s /\
    Quad.pinState s' = Quad.pinState s.
Proof.
  revert s. induction k as [|k IH]; intros s Hwf.
  - exists s. simpl. auto 10.
  - pose proof Hwf as (La & Lt & Lw & _).
    destruct (lookup_lt_is_Some_2 (Quad.accumulator s) 0) as [a Ha]; [lia|].
    destruct (lookup_lt_is_Some_2 (Quad.tuningWord s) 0) as [t Ht]; [lia|].
    destruct (lookup_lt_is_Some_2 (Quad.waveform s) 0) as [w Hw]; [lia|].
    destruct (quad_ISR_channel flash s 0 a t w Hwf Ha Ht Hw)
      as (s1 & Hs1 & Hwf1 & _ & _ & E1 & E2 & E3 & E4 & E5).
    destruct (IH s1 Hwf1) as (s' & Hs' & Hwf' & F1 & F2 & F3 & F4 & F5).
    exists s'. simpl iterate. rewrite Hs1. cbn [mbind result_bind].
    split; [assumption|]. split; [assumption|]. repeat split; congruence.
Qed.

(** X3. On a state whose arrays have their declared length the interrupt
    routine stays inside the arrays, however often it runs, and it changes
    nothing but the counters, the accumulators and the compare registers:
    tuning words, waveform pointers, wave numbers and sync levels are
    left as they are. *)
Theorem interrupt_stays_in_bounds (flash : progmem) (k : nat) (s : Quad.state) :
  Quad.wf s ->
  exists s', iterate (Quad.ISR flash) k s = Ok s' /\ Quad.wf s' /\
    Quad.tuningWord s' = Quad.tuningWord s /\ Quad.waveform s' = Quad.waveform s /\
    Quad.waveNum s' = Quad.waveNum s /\ Quad.lastSync s' = Quad.lastSync s /\
    Quad.pinState s' = Quad.pinState s.
Proof. apply quad_ISR_iterate_frame. Qed.

Lemma interrupt_stays_in_bounds_witness :
  Quad.wf quad_example /\
  exists s', iterate (Quad.ISR ramp_flash) 300 quad_example = Ok s' /\
    Quad.tuningWord s' = [3; 16777216; 0; 0].
Proof.
  assert (Hwf : Quad.wf quad_example) by (unfold Quad.wf; simpl; auto).
  split; [exact Hwf|].
  destruct (interrupt_stays_in_bounds ramp_flash 300 quad_example Hwf)
    as (s' & Hs' & _ & Ht & _).
  exists s'. split; [exact Hs' | exact Ht].
Defined.

(** X4. An interrupt writes, for each channel, the byte of the channel's
    current wavetable at the offset given by the top eight bits of the
    channel's new accumulator, to the channel's own compare register
    (OCR2A, OCR2B, OCR0A, OCR0B for channels 0 to 3); the offset is
    [accumulator / 2^24], below 256, so storing it in a byte loses
    nothing, and the byte written is at most 255. *)
Theorem interrupt_outputs_table_entry
  (flash : progmem) (s : Quad.state) (i : nat) (a t : Z) (table : wave) :
  Quad.wf s -> Quad.accumulator s !! i = Some a -> Quad.tuningWord s !! i = Some t ->
  Quad.waveform s !! i = Some table ->
  exists s', Quad.ISR flash s = Ok s' /\
    let acc := (a + t) mod 2 ^ 32 in
    Quad.accumulator s' !! i = Some acc /\
    0 <= acc / 2 ^ 24 < 256 /\
    quad_output i s' = pgm_read_byte_near flash table (acc / 2 ^ 24) /\
    0 <= quad_output i s' <= 255.
Proof.
  intros Hwf Ha Ht Hw.
  destruct (quad_ISR_channel flash s i a t table Hwf Ha Ht Hw)
    as (s' & Hs' & _ & Ha' & Ho & _).
  exists s'. split; [exact Hs'|]. cbv zeta. fold (to_ulong (a + t)).
  destruct (high_byte (to_ulong (a + t)) (to_ulong_range _)) as [Eh Rh].
  rewrite Eh in Ho. rewrite Ho.
  repeat split; try assumption; try lia; apply pgm_read_byte_range.
Qed.

Lemma interrupt_outputs_table_entry_witness :
  Quad.wf quad_example /\
  exists s', Quad.ISR ramp_flash quad_example = Ok s' /\
    let acc := (7 + 16777216) mod 2 ^ 32 in
    Quad.accumulator s' !! 1%nat = Some acc /\
    0 <= acc / 2 ^ 24 < 256 /\
    quad_output 1 s' = pgm_read_byte_near ramp_flash sine256 (acc / 2 ^ 24) /\
    0 <= quad_output 1 s' <= 255.
Proof.
  assert (Hwf : Quad.wf quad_example) by (unfold Quad.wf; simpl; auto).
  split; [exact Hwf|].
  apply (interrupt_outputs_table_entry ramp_flash quad_example 1%nat 7 16777216 sine256 Hwf);
    reflexivity.
Defined.

Lemma quad_output_after_ticks flash k s i a t table :
  Quad.wf s -> Quad.accumulator s !! i = Some a -> is_ulong a ->
  Quad.tuningWord s !! i = Some t -> Quad.waveform s !! i = Some table ->
  exists s', iterate (Quad.ISR flash) (S k) s = Ok s' /\
    Quad.accumulator s' !! i = Some (to_ulong (a + Z.of_nat (S k) * t)) /\
    quad_output i s' =
      pgm_read_byte_near flash table (to_ulong (a + Z.of_nat (S k) * t) / 2 ^ 24).
Proof.
  intros Hwf Ha Hu Ht Hw.
  destruct (quad_accumulator_iterate flash k s i a t Hwf Ha Hu Ht)
    as (s1 & Hs1 & Hwf1 & Ha1 & Et1).
  destruct (quad_ISR_iterate_frame flash k s Hwf) as (s1' & Hs1' & _ & _ & Ew1 & _).
  assert (s1' = s1) by congruence. subst s1'.
  destruct (quad_ISR_channel flash s1 i _ t table Hwf1 Ha1)
    as (s' & Hs' & _ & Ha' & Ho & _); [congruence | congruence |].
  exists s'. rewrite iterate_snoc, Hs1. cbn [mbind result_bind].
  split; [exact Hs'|].
  assert (E : to_ulong (to_ulong (a + Z.of_nat k * t) + t) = to_ulong (a + Z.of_nat (S k) * t)).
  { rewrite to_ulong_add_l. f_equal. lia. }
  rewrite E in Ha', Ho. split; [exact Ha'|]. rewrite Ho. f_equal.
  apply (high_byte _ (to_ulong_range _)).
Qed.

Lemma sweep_offset a k :
  is_ulong a -> 0 <= k ->
  ((a + k * 2 ^ 24) mod 2 ^ 32) / 2 ^ 24 = (a / 2 ^ 24 + k) mod 256.
Proof.
  intros Ha Hk. unfold is_ulong in Ha.
  change (2 ^ 32) with (2 ^ 24 * 256). set (P := 2 ^ 24). assert (HP : 0 < P) by (subst P; lia).
  assert (E1 : (a + k * P) / P = a / P + k) by (apply Z.div_add; lia).
  rewrite Z.rem_mul_r by lia. rewrite E1.
  symmetry. apply Z.div_unique with ((a + k * P) mod P).
  - left. apply Z.mod_pos_bound. assumption.
  - ring.
Qed.

(** X5. With a tuning word of [2^24] a channel steps through its wavetable
    one entry per tick: the [k]-th interrupt writes the entry at offset
    [(accumulator / 2^24 + k) mod 256] to the channel's compare register,
    and within 256 consecutive interrupts no offset comes twice, so one
    period reads the whole table in order, without repeats or skips. *)
Theorem full_table_sweep
  (flash : progmem) (s : Quad.state) (i : nat) (a : Z) (table : wave) (k : nat) :
  Quad.wf s -> Quad.accumulator s !! i = Some a -> is_ulong a ->
  Quad.tuningWord s !! i = Some (2 ^ 24) -> Quad.waveform s !! i = Some table ->
  (exists s', iterate (Quad.ISR flash) (S k) s = Ok s' /\
     quad_output i s' =
       pgm_read_byte_near flash table ((a / 2 ^ 24 + Z.of_nat (S k)) mod 256)) /\
  (forall k1 k2 : Z, 0 <= k1 < 256 -> 0 <= k2 < 256 ->
     (a / 2 ^ 24 + k1) mod 256 = (a / 2 ^ 24 + k2) mod 256 -> k1 = k2).
Proof.
  intros Hwf Ha Hu Ht Hw. split.
  - destruct (quad_output_after_ticks flash k s i a (2 ^ 24) table Hwf Ha Hu Ht Hw)
      as (s' & Hs' & _ & Ho).
    exists s'. split; [exact Hs'|]. rewrite Ho. f_equal.
    apply sweep_offset; [assumption | lia].
  - intros k1 k2 H1 H2 E. unfold is_ulong in Hu.
    assert (0 <= a / 2 ^ 24 < 256)
      by (split; [apply Z.div_pos; lia | apply Z.div_lt_upper_bound; lia]).
    set (h := a / 2 ^ 24) in *. clearbody h.
    pose proof (Z.div_mod (h + k1) 256). pose proof (Z.div_mod (h + k2) 256).
    pose proof (Z.mod_pos_bound (h + k1) 256). pose proof (Z.mod_pos_bound (h + k2) 256).
    assert (0 <= (h + k1) / 256 <= 1)
      by (split; [apply Z.div_pos; lia | apply Z.lt_succ_r, Z.div_lt_upper_bound; lia]).
    assert (0 <= (h + k2) / 256 <= 1)
      by (split; [apply Z.div_pos; lia | apply Z.lt_succ_r, Z.div_lt_upper_bound; lia]).
    lia.
Qed.

Lemma full_table_sweep_witness :
  Quad.wf quad_example /\ is_ulong 7 /\
  exists s', iterate (Quad.ISR ramp_flash) 256 quad_example = Ok s' /\
    quad_output 1 s' =
      pgm_read_byte_near ramp_flash sine256 ((7 / 2 ^ 24 + Z.of_nat 256) mod 256).
Proof.
  assert (Hwf : Quad.wf quad_example) by (unfold Quad.wf; simpl; auto).
  assert (Hu : is_ulong 7) by (unfold is_ulong; lia).
  split; [exact Hwf|]. split; [exact Hu|].
  exact (proj1 (full_table_sweep ramp_flash quad_example 1%nat 7 sine256 255 Hwf
                  eq_refl Hu eq_refl eq_refl)).
Defined.

(** X6. The oscillator is periodic: when [p] tuning words add up to a
    multiple of [2^32], the accumulator of the channel and the byte in its
    compare register are, [p] interrupts later, what they are now. *)
Theorem output_is_periodic
  (flash : progmem) (s : Quad.state) (i : nat) (a t : Z) (table : wave) (k p : nat) :
  Quad.wf s -> Quad.accumulator s !! i = Some a -> is_ulong a ->
  Quad.tuningWord s !! i = Some t -> Quad.waveform s !! i = Some table ->
  (Z.of_nat p * t) mod 2 ^ 32 = 0 ->
  exists s1 s2,
    iterate (Quad.ISR flash) (S k) s = Ok s1 /\
    iterate (Quad.ISR flash) (S k + p) s = Ok s2 /\
    Quad.accumulator s2 !! i = Quad.accumulator s1 !! i /\
    quad_output i s2 = quad_output i s1.
Proof.
  intros Hwf Ha Hu Ht Hw Hp.
  destruct (quad_output_after_ticks flash k s i a t table Hwf Ha Hu Ht Hw)
    as (s1 & Hs1 & Ha1 & Ho1).
  destruct (quad_output_after_ticks flash (k + p) s i a t table Hwf Ha Hu Ht Hw)
    as (s2 & Hs2 & Ha2 & Ho2).
  assert (E : to_ulong (a + Z.of_nat (S (k + p)) * t) = to_ulong (a + Z.of_nat (S k) * t)).
  { unfold to_ulong.
    replace (a + Z.of_nat (S (k + p)) * t) with (a + Z.of_nat (S k) * t + Z.of_nat p * t) by lia.
    rewrite Z.add_mod, Hp, Z.add_0_r, Z.mod_mod by lia. reflexivity. }
  rewrite E in Ha2, Ho2. exists s1, s2.
  repeat split; [exact Hs1 | exact Hs2 | congruence | congruence].
Qed.

Lemma output_is_periodic_witness :
  Quad.wf quad_example /\ (Z.of_nat 256 * 16777216) mod 2 ^ 32 = 0 /\
  exists s1 s2,
    iterate (Quad.ISR ramp_flash) 3 quad_example = Ok s1 /\
    iterate (Quad.ISR ramp_flash) (3 + 256) quad_example = Ok s2 /\
    Quad.accumulator s2 !! 1%nat = Quad.accumulator s1 !! 1%nat /\
    quad_output 1 s2 = quad_output 1 s1.
Proof.
  assert (Hwf : Quad.wf quad_example) by (unfold Quad.wf; simpl; auto).
  assert (Hu : is_ulong 7) by (unfold is_ulong; lia).
  split; [exact Hwf|]. split; [reflexivity|].
  exact (output_is_periodic ramp_flash quad_example 1%nat 7 16777216 sine256 2 256 Hwf
           eq_refl Hu eq_refl eq_refl eq_refl).
Defined.

(** ** The sync handler and the control pass keep to their own variables *)

Lemma trigger_edge_same level trigger : trigger_edge level level trigger = false.
Proof. unfold trigger_edge. rewrite Z.eqb_refl. reflexivity. Qed.

Lemma dual_sync_frame cfg inp s :
  let s' := Dual.sync cfg inp s in
  Dual.LFO1_TuningWord s' = Dual.LFO1_TuningWord s /\
  Dual.LFO2_TuningWord s' = Dual.LFO2_TuningWord s /\
  Dual.LFO1_Depth s' = Dual.LFO1_Depth s /\ Dual.LFO2_Depth s' = Dual.LFO2_Depth s /\
  Dual.LFO1_WaveTable s' = Dual.LFO1_WaveTable s /\
  Dual.LFO2_WaveTable s' = Dual.LFO2_WaveTable s /\
  Dual.LFO1_WaveNum s' = Dual.LFO1_WaveNum s /\ Dual.LFO2_WaveNum s' = Dual.LFO2_WaveNum s /\
  Dual.tickCounter s' = Dual.tickCounter s /\
  Dual.fourMilliCounter s' = Dual.fourMilliCounter s /\
  Dual.OCR2A s' = Dual.OCR2A s /\ Dual.OCR2B s' = Dual.OCR2B s.
Proof.
  destruct s. unfold Dual.sync, Dual.sync1, Dual.sync2. simpl.
  repeat (match goal with |- context [if ?b then _ else _] => destruct b end; simpl);
    repeat split; reflexivity.
Qed.

(** The accumulators and sync levels after one pass of the two-channel sync
    handler. *)
Lemma dual_sync_fields cfg inp s :
  Dual.SYNC cfg = true ->
  let level1 := to_byte (Dual.digitalRead inp (Dual.SYNC1_PIN cfg)) in
  let edge1 := trigger_edge level1 (Dual.lastSYNC1 s) (Dual.SYNC1_TRIGGER cfg) in
  let level2 := to_byte (Dual.digitalRead inp (Dual.SYNC2_PIN cfg)) in
  let edge2 := trigger_edge level2 (Dual.lastSYNC2 s) (Dual.SYNC2_TRIGGER cfg) in
  let s' := Dual.sync cfg inp s in
  Dual.accumulatorA s' = (if edge1 then 0 else Dual.accumulatorA s) /\
  Dual.lastSYNC1 s' = level1 /\
  Dual.accumulatorB s' =
    (if Dual.SYNC_COMMON cfg then (if edge1 then 0 else Dual.accumulatorB s)
     else (if edge2 then 0 else Dual.accumulatorB s)) /\
  Dual.lastSYNC2 s' = (if Dual.SYNC_COMMON cfg then Dual.lastSYNC2 s else level2).
Proof.
  intros Hsync level1 edge1 level2 edge2 s'. subst s'. unfold Dual.sync. rewrite Hsync.
  destruct (dual_sync1_spec cfg inp s) as (A1 & B1 & L1 & L2).
  destruct (dual_sync2_spec cfg inp (Dual.sync1 cfg inp s)) as (A2 & B2 & M1 & M2).
  destruct (Dual.SYNC_COMMON cfg) eqn:Ec.
  - rewrite A1, B1, L1, L2, andb_true_r. auto.
  - rewrite A2, B2, M1, M2, A1, B1, L1, L2, andb_false_r. auto.
Qed.

(** X7. The sync handler is edge triggered: a second pass that reads the
    same pin levels as the pass before resets no accumulator and leaves
    the recorded sync levels as they are, whatever the trigger level; a
    level that is held resets the phase only once. *)
Theorem sync_acts_once_per_edge :
  (forall cfg inp s, Quad.SYNC cfg = true -> Quad.wf s ->
     exists s1 s2, Quad.sync cfg inp s = Ok s1 /\ Quad.sync cfg inp s1 = Ok s2 /\
       Quad.accumulator s2 = Quad.accumulator s1 /\ Quad.lastSync s2 = Quad.lastSync s1) /\
  (forall cfg inp s,
     let s1 := Dual.sync cfg inp s in
     let s2 := Dual.sync cfg inp s1 in
     Dual.accumulatorA s2 = Dual.accumulatorA s1 /\
     Dual.accumulatorB s2 = Dual.accumulatorB s1 /\
     Dual.lastSYNC1 s2 = Dual.lastSYNC1 s1 /\ Dual.lastSYNC2 s2 = Dual.lastSYNC2 s1).
Proof.
  split.
  - intros cfg inp s Hsync Hwf.
    destruct (quad_sync_spec cfg inp s Hsync Hwf) as (s1 & Hs1 & Hwf1 & H1 & _).
    destruct (quad_sync_spec cfg inp s1 Hsync Hwf1) as (s2 & Hs2 & Hwf2 & H2 & _).
    exists s1, s2. split; [exact Hs1|]. split; [exact Hs2|].
    destruct Hwf as (La & _ & _ & _ & Ll). destruct Hwf1 as (La1 & _ & _ & _ & Ll1).
    destruct Hwf2 as (La2 & _ & _ & _ & Ll2).
    assert (Hpt : forall i, Quad.accumulator s2 !! i = Quad.accumulator s1 !! i /\
                            Quad.lastSync s2 !! i = Quad.lastSync s1 !! i).
    { intros i. destruct (Nat.lt_ge_cases i 4) as [Hi|Hi].
      - destruct (lookup_lt_is_Some_2 (Quad.SYNC_PIN cfg) i) as [pin Hp]; [simpl; lia|].
        destruct (lookup_lt_is_Some_2 (Quad.lastSync s) i) as [l Hl]; [lia|].
        destruct (lookup_lt_is_Some_2 (Quad.accumulator s) i) as [a Ha]; [lia|].
        destruct (H1 i pin l a Hp Hl Ha) as [Ea1 El1].
        destruct (H2 i pin _ _ Hp El1 Ea1) as [Ea2 El2].
        rewrite trigger_edge_same in Ea2. rewrite Ea2, El2, Ea1, El1. auto.
      - rewrite !lookup_ge_None_2 by lia. auto. }
    split; apply list_eq; intros i; apply Hpt.
  - intros cfg inp s s1 s2. subst s1 s2.
    destruct (Dual.SYNC cfg) eqn:Hsync; [|unfold Dual.sync; rewrite Hsync; auto].
    destruct (dual_sync_fields cfg inp s Hsync) as (A1 & L1 & B1 & M1).
    destruct (dual_sync_fields cfg inp (Dual.sync cfg inp s) Hsync) as (A2 & L2 & B2 & M2).
    rewrite L1, trigger_edge_same in A2, B2.
    split; [exact A2|]. split; [|split; [congruence|]].
    + destruct (Dual.SYNC_COMMON cfg); [exact B2|].
      rewrite M1, trigger_edge_same in B2. exact B2.
    + destruct (Dual.SYNC_COMMON cfg); congruence.
Qed.

Lemma sync_acts_once_per_edge_witness :
  Quad.wf quad_example /\
  exists s1 s2, Quad.sync scenario_quad quad_inputs quad_example = Ok s1 /\
    Quad.sync scenario_quad quad_inputs s1 = Ok s2 /\
    Quad.accumulator s2 = Quad.accumulator s1 /\ Quad.lastSync s2 = Quad.lastSync s1.
Proof.
  assert (Hwf : Quad.wf quad_example) by (unfold Quad.wf; simpl; auto).
  split; [exact Hwf|].
  exact (proj1 sync_acts_once_per_edge scenario_quad quad_inputs quad_example eq_refl Hwf).
Defined.

(** X8. The sync handler writes only accumulators, the recorded sync levels
    and the pin state: tuning words, depths, waveform pointers, wave
    numbers, the two counters and the compare registers are the same after
    a pass as before, in both sketches. *)
Theorem sync_keeps_control_settings :
  (forall cfg inp s, Quad.SYNC cfg = true -> Quad.wf s ->
     exists s', Quad.sync cfg inp s = Ok s' /\ Quad.wf s' /\
       Quad.tuningWord s' = Quad.tuningWord s /\ Quad.waveform s' = Quad.waveform s /\
       Quad.waveNum s' = Quad.waveNum s /\
       Quad.fourMilliCounter s' = Quad.fourMilliCounter s) /\
  (forall cfg inp s,
     let s' := Dual.sync cfg inp s in
     Dual.LFO1_TuningWord s' = Dual.LFO1_TuningWord s /\
     Dual.LFO2_TuningWord s' = Dual.LFO2_TuningWord s /\
     Dual.LFO1_Depth s' = Dual.LFO1_Depth s /\ Dual.LFO2_Depth s' = Dual.LFO2_Depth s /\
     Dual.LFO1_WaveTable s' = Dual.LFO1_WaveTable s /\
     Dual.LFO2_WaveTable s' = Dual.LFO2_WaveTable s /\
     Dual.LFO1_WaveNum s' = Dual.LFO1_WaveNum s /\
     Dual.LFO2_WaveNum s' = Dual.LFO2_WaveNum s /\
     Dual.tickCounter s' = Dual.tickCounter s /\
     Dual.fourMilliCounter s' = Dual.fourMilliCounter s /\
     Dual.OCR2A s' = Dual.OCR2A s /\ Dual.OCR2B s' = Dual.OCR2B s).
Proof.
  split; [|apply dual_sync_frame].
  intros cfg inp s Hsync Hwf.
  destruct (quad_sync_spec cfg inp s Hsync Hwf) as (s' & Hs' & Hwf' & _ & Et & Ew & En & Ef).
  exists s'. auto 10.
Qed.

Lemma sync_keeps_control_settings_witness :
  Quad.wf quad_example /\
  exists s', Quad.sync scenario_quad quad_inputs quad_example = Ok s' /\ Quad.wf s' /\
    Quad.tuningWord s' = Quad.tuningWord quad_example /\
    Quad.waveform s' = Quad.waveform quad_example /\
    Quad.waveNum s' = Quad.waveNum quad_example /\
    Quad.fourMilliCounter s' = Quad.fourMilliCounter quad_example.
Proof.
  assert (Hwf : Quad.wf quad_example) by (unfold Quad.wf; simpl; auto).
  split; [exact Hwf|].
  exact (proj1 sync_keeps_control_settings scenario_quad quad_inputs quad_example eq_refl Hwf).
Defined.

Lemma quad_update_lfo_frame cfg inp i s s' :
  Quad.wf s -> Quad.update_lfo cfg inp i s = Ok s' ->
  Quad.wf s' /\ Quad.accumulator s' = Quad.accumulator s /\
  Quad.lastSync s' = Quad.lastSync s.
Proof.
  intros Hwf H. unfold Quad.update_lfo in H.
  destruct (Quad.wave_select inp i s) as [s1|] eqn:E1; [|discriminate].
  cbn [mbind result_bind] in H.
  assert (Hi : (i < 4)%nat).
  { unfold Quad.wave_select in E1. destruct (load Quad.waveCtrl i) eqn:E; [|discriminate].
    unfold load in E. destruct (Quad.waveCtrl !! i) eqn:E'; [|discriminate].
    apply lookup_lt_Some in E'. simpl in E'. lia. }
  pose proof Hwf as (_ & _ & _ & Ln & _).
  destruct (lookup_lt_is_Some_2 (Quad.waveNum s) i) as [n Hn]; [lia|].
  destruct (quad_wave_select_spec inp i s n Hwf Hi Hn)
    as (s1' & Hs1 & Hwf1 & _ & Ea1 & _ & El1 & _).
  assert (s1' = s1) by congruence. subst s1'.
  destruct (quad_frequency_spec cfg inp i s1 s' Hwf1 H) as (Hwf' & _ & _ & Ea & El).
  split; [assumption|]. split; congruence.
Qed.

Lemma quad_update_run_frame cfg inp idx :
  forall s s', Quad.wf s -> for_each (Quad.update_lfo cfg inp) idx s = Ok s' ->
    Quad.accumulator s' = Quad.accumulator s /\ Quad.lastSync s' = Quad.lastSync s.
Proof.
  induction idx as [|i idx IH]; intros s s' Hwf H; simpl in H.
  - injection H as <-. auto.
  - destruct (Quad.update_lfo cfg inp i s) as [s1|] eqn:E1; [|discriminate].
    cbn [mbind result_bind] in H.
    destruct (quad_update_lfo_frame cfg inp i s s1 Hwf E1) as (Hwf1 & Ea1 & El1).
    destruct (IH s1 s' Hwf1 H) as [Ea El]. split; congruence.
Qed.

Lemma dual_update_frame cfg inp s s' :
  Dual.update cfg inp s = Ok s' ->
  Dual.accumulatorA s' = Dual.accumulatorA s /\ Dual.accumulatorB s' = Dual.accumulatorB s /\
  Dual.lastSYNC1 s' = Dual.lastSYNC1 s /\ Dual.lastSYNC2 s' = Dual.lastSYNC2 s /\
  Dual.tickCounter s' = Dual.tickCounter s /\
  Dual.OCR2A s' = Dual.OCR2A s /\ Dual.OCR2B s' = Dual.OCR2B s.
Proof.
  unfold Dual.update, Dual.wave_select1, Dual.wave_select2, Dual.controls1, Dual.controls2.
  destruct s as [ps l1 l2 tc fc aa t1 d1 ab t2 d2 w1 w2 n1 n2 oa ob].
  cbn -[load tuning_word assign_ulong].
  repeat (match goal with
          | |- context [if ?b then _ else _] => destruct b
          | |- context [load ?l ?i] => destruct (load l i)
          | |- context [assign_ulong ?x] => destruct (assign_ulong x)
          end; cbn -[load tuning_word assign_ulong]);
    intros H; try discriminate; injection H as <-; repeat split; reflexivity.
Qed.

(** X9. A control pass never moves the phase: wave selection and the
    frequency and depth controls leave every accumulator and every recorded
    sync level as it is, so a change of frequency or waveform takes effect
    from the current phase on.  Stated for any run of the four-channel
    update body that stays within the arrays and for the control branch of
    the two-channel sketch. *)
Theorem control_pass_keeps_phase :
  (forall cfg inp idx s s', Quad.wf s ->
     for_each (Quad.update_lfo cfg inp) idx s = Ok s' ->
     Quad.accumulator s' = Quad.accumulator s /\ Quad.lastSync s' = Quad.lastSync s) /\
  (forall cfg inp s s', Dual.update cfg inp s = Ok s' ->
     Dual.accumulatorA s' = Dual.accumulatorA s /\
     Dual.accumulatorB s' = Dual.accumulatorB s /\
     Dual.lastSYNC1 s' = Dual.lastSYNC1 s /\ Dual.lastSYNC2 s' = Dual.lastSYNC2 s /\
     Dual.tickCounter s' = Dual.tickCounter s /\
     Dual.OCR2A s' = Dual.OCR2A s /\ Dual.OCR2B s' = Dual.OCR2B s).
Proof.
  split.
  - intros cfg inp idx. apply quad_update_run_frame.
  - apply dual_update_frame.
Qed.

Lemma control_pass_keeps_phase_witness :
  exists s', Dual.update (scenario_dual true) dual_inputs dual_example = Ok s' /\
    Dual.accumulatorA s' = 4294967295 /\ Dual.accumulatorB s' = 7.
Proof.
  eexists. split; [vm_compute; reflexivity|].
  destruct (proj2 control_pass_keeps_phase (scenario_dual true) dual_inputs dual_example _
              ltac:(vm_compute; reflexivity)) as (HA & HB & _).
  split; [exact HA | exact HB].
Defined.

(** X10. Two oscillators reset by one shared trigger stay in phase: in the
    two-channel sketch with SYNC_COMMON, after a trigger edge and with
    equal tuning words, the two accumulators are equal after every number
    of interrupts, namely [k] times the tuning word modulo [2^32], whatever
    the two phases were before the edge. *)
Theorem common_sync_locks_phase
  (cfg : Dual.settings) (inp : Dual.inputs) (flash : progmem) (s : Dual.state) (k : nat) :
  Dual.SYNC cfg = true -> Dual.SYNC_COMMON cfg = true ->
  trigger_edge (to_byte (Dual.digitalRead inp (Dual.SYNC1_PIN cfg)))
               (Dual.lastSYNC1 s) (Dual.SYNC1_TRIGGER cfg) = true ->
  Dual.LFO1_TuningWord s = Dual.LFO2_TuningWord s ->
  let s' := Nat.iter k (Dual.ISR flash) (Dual.sync cfg inp s) in
  Dual.accumulatorA s' = (Z.of_nat k * Dual.LFO1_TuningWord s) mod 2 ^ 32 /\
  Dual.accumulatorB s' = Dual.accumulatorA s'.
Proof.
  intros Hsync Hcommon Hedge Htw s'. subst s'.
  destruct (dual_sync_fields cfg inp s Hsync) as (A1 & _ & B1 & _).
  rewrite Hcommon, Hedge in *.
  destruct (dual_sync_frame cfg inp s) as (T1 & T2 & _).
  destruct (dual_accumulator_iterate flash k (Dual.sync cfg inp s)) as (EA & EB & _).
  { rewrite A1. unfold is_ulong. lia. }
  { rewrite B1. unfold is_ulong. lia. }
  rewrite EA, EB, A1, B1, T1, T2, Htw. unfold to_ulong. rewrite !Z.add_0_l. auto.
Qed.

Lemma common_sync_locks_phase_witness :
  let s := Dual.set_LFO2_TuningWord 3 dual_example in
  trigger_edge (to_byte (Dual.digitalRead dual_inputs 9)) (Dual.lastSYNC1 s) 1 = true /\
  let s' := Nat.iter 1000 (Dual.ISR ramp_flash) (Dual.sync (scenario_dual true) dual_inputs s) in
  Dual.accumulatorA s' = (Z.of_nat 1000 * 3) mod 2 ^ 32 /\
  Dual.accumulatorB s' = Dual.accumulatorA s'.
Proof.
  split; [reflexivity|].
  exact (common_sync_locks_phase (scenario_dual true) dual_inputs ramp_flash
           (Dual.set_LFO2_TuningWord 3 dual_example) 1000 eq_refl eq_refl eq_refl eq_refl).
Defined.

(** ** setup() *)

Lemma quad_setup_spec cfg inp io s m :
  Quad.wf s ->
  exists s', QuadSetup.setup cfg inp io (s, m) = Ok (s', Timer.PWM_Setup io m) /\
    Quad.wf s' /\
    Quad.waveform s' = [sine256; sine256; sine256; sine256] /\
    Quad.lastSync s' =
      (if Quad.SYNC cfg
       then (fun pin => to_byte (Quad.digitalRead inp pin)) <$> Quad.SYNC_PIN cfg
       else Quad.lastSync s) /\
    Quad.accumulator s' = Quad.accumulator s /\ Quad.tuningWord s' = Quad.tuningWord s /\
    Quad.waveNum s' = Quad.waveNum s /\
    Quad.tickCounter s' = Quad.tickCounter s /\
    Quad.fourMilliCounter s' = Quad.fourMilliCounter s.
Proof.
  intros (La & Lt & Lw & Ln & Ll).
  destruct (length_four _ Lw) as (w0 & w1 & w2 & w3 & Ew).
  destruct (length_four _ Ll) as (l0 & l1 & l2 & l3 & El).
  destruct s as [ps tc fc acc tw wfm wn ls o1 o2 o3 o4]. simpl in *. subst wfm ls.
  unfold QuadSetup.setup. destruct (Quad.SYNC cfg);
    (eexists; split; [reflexivity|]); unfold Quad.wf; simpl; auto 10.
Qed.

Lemma dual_setup_spec cfg io s m :
  exists s', DualSetup.setup cfg io (s, m) = Ok (s', Timer.Setup_timer2 io m) /\
    Dual.LFO1_WaveTable s' = sine256 /\ Dual.LFO2_WaveTable s' = sine256 /\
    (Dual.SYNC cfg = true ->
       Dual.lastSYNC1 s' = (if Dual.HIGH =? Dual.SYNC1_TRIGGER cfg then Dual.LOW else Dual.HIGH) /\
       Dual.lastSYNC2 s' =
         (if Dual.SYNC_COMMON cfg then Dual.lastSYNC2 s
          else if Dual.HIGH =? Dual.SYNC2_TRIGGER cfg then Dual.LOW else Dual.HIGH)) /\
    Dual.accumulatorA s' = Dual.accumulatorA s /\ Dual.accumulatorB s' = Dual.accumulatorB s.
Proof.
  destruct s. unfold DualSetup.setup.
  destruct (Dual.SYNC cfg), (Dual.SYNC_COMMON cfg);
    (eexists; split; [reflexivity|]); simpl; repeat split; auto; discriminate.
Qed.

(** X11. Entered with the variables as they are at reset, [setup()] stays
    inside its arrays and, once the loops that wait for the wave switches
    have ended, returns with every oscillator on the first table
    of the library, wave number 0 and phase 0, with the sync levels
    initialised (four-channel sketch: the level read from each sync pin;
    two-channel sketch: the level opposite to the trigger level) and the
    timer registers set by the timer setup; in the four-channel sketch
    every wave number then indexes the library and names the table its
    oscillator plays. *)
Theorem setup_reaches_initial_state :
  (forall cfg inp io m ws, Quad.SYNC cfg = true -> length ws = 4%nat ->
     QuadSetup.setup cfg inp io (quad_reset ws, m) =
       Ok (Quad.after_setup cfg inp, Timer.PWM_Setup io m) /\
     Quad.wf (Quad.after_setup cfg inp) /\ Quad.wave_ok (Quad.after_setup cfg inp)) /\
  (forall cfg io m w1 w2, Dual.SYNC cfg = true ->
     DualSetup.setup cfg io (dual_reset w1 w2, m) =
       Ok (Dual.after_setup cfg, Timer.Setup_timer2 io m)).
Proof.
  split.
  - intros cfg inp io m ws Hsync Hlen.
    split; [|apply quad_wave_ok_after_setup].
    destruct (length_four _ Hlen) as (w0 & w1 & w2 & w3 & ->).
    unfold QuadSetup.setup. rewrite Hsync. reflexivity.
  - intros cfg io m w1 w2 Hsync. unfold DualSetup.setup. rewrite Hsync.
    unfold dual_reset, Dual.after_setup.
    destruct (Dual.SYNC_COMMON cfg); simpl; reflexivity.
Qed.

Lemma setup_reaches_initial_state_witness :
  QuadSetup.setup scenario_quad quad_inputs Timer.atmega328p
    (quad_reset [noise256; noise256; noise256; noise256], sfr_ones) =
    Ok (Quad.after_setup scenario_quad quad_inputs,
        Timer.PWM_Setup Timer.atmega328p sfr_ones).
Proof.
  exact (proj1 (proj1 setup_reaches_initial_state scenario_quad quad_inputs Timer.atmega328p
                  sfr_ones [noise256; noise256; noise256; noise256] eq_refl eq_refl)).
Defined.

Lemma quad_sync_same_levels cfg inp s :
  Quad.SYNC cfg = true -> Quad.wf s ->
  Quad.lastSync s = (fun pin => to_byte (Quad.digitalRead inp pin)) <$> Quad.SYNC_PIN cfg ->
  exists s', Quad.sync cfg inp s = Ok s' /\
    Quad.accumulator s' = Quad.accumulator s /\ Quad.lastSync s' = Quad.lastSync s.
Proof.
  intros Hsync Hwf Hl.
  destruct (quad_sync_spec cfg inp s Hsync Hwf) as (s' & Hs' & Hwf' & H & _).
  exists s'. split; [exact Hs'|].
  destruct Hwf as (La & _ & _ & _ & Ll). destruct Hwf' as (La' & _ & _ & _ & Ll').
  assert (Hpt : forall i, Quad.accumulator s' !! i = Quad.accumulator s !! i /\
                          Quad.lastSync s' !! i = Quad.lastSync s !! i).
  { intros i. destruct (Nat.lt_ge_cases i 4) as [Hi|Hi].
    - destruct (lookup_lt_is_Some_2 (Quad.SYNC_PIN cfg) i) as [pin Hp]; [simpl; lia|].
      destruct (lookup_lt_is_Some_2 (Quad.accumulator s) i) as [a Ha]; [lia|].
      assert (Hlast : Quad.lastSync s !! i = Some (to_byte (Quad.digitalRead inp pin))).
      { rewrite Hl, list_lookup_fmap, Hp. reflexivity. }
      destruct (H i pin _ a Hp Hlast Ha) as [Ea El].
      rewrite trigger_edge_same in Ea. rewrite Ea, El, Ha, Hlast. auto.
    - rewrite !lookup_ge_None_2 by lia. auto. }
  split; apply list_eq; intros i; apply Hpt.
Qed.

(** X12. What the first pass of the sync handler does depends on the sketch.
    The two-channel [setup()] records the level opposite to the trigger
    level, so a sync pin that already rests at the trigger level counts as
    an edge and the first pass resets the phase (of both oscillators with
    SYNC_COMMON).  The four-channel [setup()] records the level it reads
    from each pin, so a first pass that reads the same levels resets
    nothing: a pin resting at the trigger level is not an edge. *)
Theorem first_sync_pass_after_setup :
  (forall cfg inp io s m, Dual.SYNC cfg = true ->
     to_byte (Dual.digitalRead inp (Dual.SYNC1_PIN cfg)) = Dual.SYNC1_TRIGGER cfg ->
     exists s1 m1, DualSetup.setup cfg io (s, m) = Ok (s1, m1) /\
       Dual.accumulatorA (Dual.sync cfg inp s1) = 0 /\
       (Dual.SYNC_COMMON cfg = true -> Dual.accumulatorB (Dual.sync cfg inp s1) = 0)) /\
  (forall cfg inp io s m, Quad.SYNC cfg = true -> Quad.wf s ->
     exists s1 m1 s2, QuadSetup.setup cfg inp io (s, m) = Ok (s1, m1) /\
       Quad.sync cfg inp s1 = Ok s2 /\
       Quad.accumulator s2 = Quad.accumulator s /\ Quad.lastSync s2 = Quad.lastSync s1).
Proof.
  split.
  - intros cfg inp io s m Hsync Hlevel.
    destruct (dual_setup_spec cfg io s m) as (s1 & Hs1 & _ & _ & Hl & _).
    destruct (Hl Hsync) as [Hl1 _].
    exists s1, (Timer.Setup_timer2 io m). split; [exact Hs1|].
    destruct (dual_sync_fields cfg inp s1 Hsync) as (A & _ & B & _).
    assert (E : trigger_edge (to_byte (Dual.digitalRead inp (Dual.SYNC1_PIN cfg)))
                  (Dual.lastSYNC1 s1) (Dual.SYNC1_TRIGGER cfg) = true).
    { rewrite Hl1, Hlevel. unfold trigger_edge, Dual.HIGH, Dual.LOW.
      rewrite Z.eqb_refl, andb_true_r.
      destruct (Z.eqb_spec 1 (Dual.SYNC1_TRIGGER cfg)) as [<-|NE]; [reflexivity|].
      apply negb_true_iff, Z.eqb_neq. congruence. }
    rewrite E in A, B. split; [exact A|]. intros Hc. rewrite Hc in B. exact B.
  - intros cfg inp io s m Hsync Hwf.
    destruct (quad_setup_spec cfg inp io s m Hwf) as (s1 & Hs1 & Hwf1 & _ & Hl & Ha & _).
    rewrite Hsync in Hl.
    destruct (quad_sync_same_levels cfg inp s1 Hsync Hwf1 Hl) as (s2 & Hs2 & Ea & El).
    exists s1, (Timer.PWM_Setup io m), s2.
    split; [exact Hs1|]. split; [exact Hs2|]. split; congruence.
Qed.

Lemma first_sync_pass_after_setup_witness :
  to_byte (Dual.digitalRead dual_inputs (Dual.SYNC1_PIN (scenario_dual true))) =
    Dual.SYNC1_TRIGGER (scenario_dual true) /\
  exists s1 m1,
    DualSetup.setup (scenario_dual true) Timer.atmega328p (dual_example, sfr_ones) =
      Ok (s1, m1) /\
    Dual.accumulatorA (Dual.sync (scenario_dual true) dual_inputs s1) = 0 /\
    (Dual.SYNC_COMMON (scenario_dual true) = true ->
     Dual.accumulatorB (Dual.sync (scenario_dual true) dual_inputs s1) = 0).
Proof.
  split; [reflexivity|].
  exact (proj1 first_sync_pass_after_setup (scenario_dual true) dual_inputs Timer.atmega328p
           dual_example sfr_ones eq_refl eq_refl).
Defined.

(** ** Timer setup *)

Lemma testbit_one k : Z.testbit 1 k = (k =? 0).
Proof. destruct k as [|p|p]; reflexivity. Qed.

Lemma testbit_BV b n : 0 <= n -> Z.testbit (Timer.BV b) n = (n =? b).
Proof.
  intros Hn. unfold Timer.BV. rewrite Z.shiftl_spec by assumption. rewrite testbit_one.
  destruct (Z.eqb_spec (n - b) 0), (Z.eqb_spec n b); try reflexivity; lia.
Qed.

Lemma testbit_to_byte x n : 0 <= n -> Z.testbit (to_byte x) n = (n <? 8) && Z.testbit x n.
Proof.
  intros Hn. unfold to_byte. destruct (Z.ltb_spec n 8).
  - rewrite Z.mod_pow2_bits_low by lia. reflexivity.
  - rewrite Z.mod_pow2_bits_high by lia. reflexivity.
Qed.

Lemma testbit_set_byte x b n :
  0 <= n -> Z.testbit (to_byte (Z.lor x (Timer.BV b))) n = (n <? 8) && (Z.testbit x n || (n =? b)).
Proof. intros Hn. rewrite testbit_to_byte, Z.lor_spec, testbit_BV by assumption. reflexivity. Qed.

Lemma testbit_clear_byte x b n :
  0 <= n ->
  Z.testbit (to_byte (Z.land x (Z.lnot (Timer.BV b)))) n =
    (n <? 8) && (Z.testbit x n && negb (n =? b)).
Proof.
  intros Hn. rewrite testbit_to_byte, Z.land_spec, Z.lnot_spec, testbit_BV by assumption.
  reflexivity.
Qed.

Ltac timer_bits :=
  cbv [Timer.PWM_Setup Timer.Setup_timer2 Timer.setBit Timer.clearBit Timer.write Timer.reg_eqb];
  repeat first [rewrite testbit_set_byte by assumption
               |rewrite testbit_clear_byte by assumption].

Lemma bits_ok_distinct io :
  Timer.bits_ok io ->
  Timer.CS20 io <> Timer.CS21 io /\ Timer.CS20 io <> Timer.CS22 io /\
  Timer.CS20 io <> Timer.WGM22 io /\
  Timer.COM2A1 io <> Timer.COM2A0 io /\ Timer.COM2A1 io <> Timer.COM2B0 io /\
  Timer.COM2A1 io <> Timer.WGM21 io /\
  Timer.COM2B1 io <> Timer.COM2A0 io /\ Timer.COM2B1 io <> Timer.COM2B0 io /\
  Timer.COM2B1 io <> Timer.WGM21 io /\
  Timer.WGM20 io <> Timer.COM2A0 io /\ Timer.WGM20 io <> Timer.COM2B0 io /\
  Timer.WGM20 io <> Timer.WGM21 io.
Proof.
  intros (_ & HB & HA).
  repeat (destruct_and?;
          match goal with
          | H : NoDup (_ :: _) |- _ => rewrite NoDup_cons in H
          | H : _ ∉ _ :: _ |- _ => rewrite not_elem_of_cons in H
          end).
  destruct_and?. repeat split; congruence.
Qed.

Ltac bit_cases :=
  repeat match goal with
         | |- context [?a =? ?b] => destruct (Z.eqb_spec a b); try subst
         end;
  simpl; try reflexivity; try congruence; try lia;
  repeat match goal with
         | |- context [if ?c then _ else _] => destruct c
         end; simpl; try reflexivity; try congruence; try btauto.

(** X13. With bit numbers that are bits of a byte and differ within a
    register, the timer setup of either sketch leaves control register B
    of timer 2 with [CS20] set and [CS21], [CS22], [WGM22] clear, register
    A with [COM2A1], [COM2B1], [WGM20] set and [COM2A0], [COM2B0], [WGM21]
    clear, and the interrupt mask with [TOIE2] set, whatever the registers
    held before; every other bit of these registers keeps its value.  The
    four-channel sketch gives timer 0 the mode of timer 2, the two-channel
    sketch leaves timer 0 alone. *)
Theorem timer_setup_sets_mode (io : Timer.bits) (m : Timer.sfr) (n : Z) :
  Timer.bits_ok io -> 0 <= n ->
  (Z.testbit (Timer.PWM_Setup io m Timer.TCCR2B) n = Timer.mode_B io (m Timer.TCCR2B) n /\
   Z.testbit (Timer.PWM_Setup io m Timer.TCCR2A) n = Timer.mode_A io (m Timer.TCCR2A) n /\
   Z.testbit (Timer.PWM_Setup io m Timer.TCCR0B) n = Timer.mode_B io (m Timer.TCCR0B) n /\
   Z.testbit (Timer.PWM_Setup io m Timer.TCCR0A) n = Timer.mode_A io (m Timer.TCCR0A) n /\
   Z.testbit (Timer.PWM_Setup io m Timer.TIMSK2) n =
     (n <? 8) && (Z.testbit (m Timer.TIMSK2) n || (n =? Timer.TOIE2 io))) /\
  (Z.testbit (Timer.Setup_timer2 io m Timer.TCCR2B) n = Timer.mode_B io (m Timer.TCCR2B) n /\
   Z.testbit (Timer.Setup_timer2 io m Timer.TCCR2A) n = Timer.mode_A io (m Timer.TCCR2A) n /\
   Z.testbit (Timer.Setup_timer2 io m Timer.TIMSK2) n =
     (n <? 8) && (Z.testbit (m Timer.TIMSK2) n || (n =? Timer.TOIE2 io)) /\
   Timer.Setup_timer2 io m Timer.TCCR0A = m Timer.TCCR0A /\
   Timer.Setup_timer2 io m Timer.TCCR0B = m Timer.TCCR0B).
Proof.
  intros Hok Hn. pose proof (bits_ok_distinct io Hok) as D.
  destruct D as (D1 & D2 & D3 & D4 & D5 & D6 & D7 & D8 & D9 & D10 & D11 & D12).
  unfold Timer.mode_A, Timer.mode_B.
  repeat split; try reflexivity; timer_bits; destruct (n <? 8); simpl; try reflexivity;
    bit_cases.
Qed.

Lemma timer_setup_sets_mode_witness :
  Timer.bits_ok Timer.atmega328p /\
  Z.testbit (Timer.PWM_Setup Timer.atmega328p sfr_ones Timer.TCCR2B) 1 =
    Timer.mode_B Timer.atmega328p (sfr_ones Timer.TCCR2B) 1.
Proof.
  assert (Hok : Timer.bits_ok Timer.atmega328p).
  { unfold Timer.bits_ok. simpl. split; [repeat constructor; lia|].
    split; repeat first [apply NoDup_nil_2 | apply NoDup_cons_2];
      intros H; repeat (apply elem_of_cons in H as [H|H]; [discriminate H|]);
      apply elem_of_nil in H; exact H. }
  split; [exact Hok|].
  exact (proj1 (proj1 (timer_setup_sets_mode Timer.atmega328p sfr_ones 1 Hok ltac:(lia)))).
Defined.

(** X14. The timer setup of either sketch can be repeated: run a second
    time it leaves every register as the first run left it, for any bit
    numbers and any register contents. *)
Theorem timer_setup_idempotent (io : Timer.bits) (m : Timer.sfr) (a : Timer.reg) :
  Timer.PWM_Setup io (Timer.PWM_Setup io m) a = Timer.PWM_Setup io m a /\
  Timer.Setup_timer2 io (Timer.Setup_timer2 io m) a = Timer.Setup_timer2 io m a.
Proof.
  split; destruct a; try reflexivity; apply Z.bits_inj'; intros n Hn; timer_bits; btauto.
Qed.

(** ** Wave selection over any sequence of passes *)

Lemma presses_cons {A : Type} (edge : A -> bool) (inp : A) (inps : list A) :
  presses edge (inp :: inps) = (if edge inp then 1 else 0) + presses edge inps.
Proof. unfold presses. simpl. destruct (edge inp); simpl length; lia. Qed.

Lemma quad_wave_select_count i inps :
  forall s n table, Quad.wf s -> (i < 4)%nat ->
    Quad.waveNum s !! i = Some n -> 0 <= n < NUM_WAVES ->
    waveTable !! Z.to_nat n = Some table -> Quad.waveform s !! i = Some table ->
    exists s' table',
      for_each (fun inp => Quad.wave_select inp i) inps s = Ok s' /\ Quad.wf s' /\
      Quad.waveNum s' !! i = Some ((n + presses (quad_press i) inps) mod NUM_WAVES) /\
      waveTable !! Z.to_nat ((n + presses (quad_press i) inps) mod NUM_WAVES) = Some table' /\
      Quad.waveform s' !! i = Some table' /\
      (forall j, j <> i -> Quad.waveNum s' !! j = Quad.waveNum s !! j /\
                           Quad.waveform s' !! j = Quad.waveform s !! j).
Proof.
  induction inps as [|inp inps IH]; intros s n table Hwf Hi Hn Hr Ht Hw.
  - exists s, table. simpl. unfold presses. simpl.
    rewrite Z.add_0_r, Z.mod_small by assumption. auto 10.
  - destruct (quad_wave_select_spec inp i s n Hwf Hi Hn) as (s1 & Hs1 & Hwf1 & Hsel & _).
    pose proof Hwf as (_ & _ & Lw & Ln & _).
    rewrite presses_cons. unfold quad_press at 1 3. simpl for_each. rewrite Hs1.
    cbn [mbind result_bind].
    destruct (press_edge _ _).
    + destruct Hsel as (t1 & Ht1 & Hn1 & Hw1).
      destruct (IH s1 ((n + 1) mod NUM_WAVES) t1 Hwf1 Hi)
        as (s' & t' & Hs' & Hwf' & Hn' & Ht' & Hw' & Ho);
        [rewrite Hn1; apply list_lookup_insert_eq; lia | apply next_wave_range | assumption
        | rewrite Hw1; apply list_lookup_insert_eq; lia |].
      assert (E : ((n + 1) mod NUM_WAVES + presses (quad_press i) inps) mod NUM_WAVES =
                  (n + (1 + presses (quad_press i) inps)) mod NUM_WAVES).
      { rewrite Zplus_mod_idemp_l. f_equal. lia. }
      rewrite E in *. exists s', t'. do 5 (split; [assumption|]).
      intros j Hj. destruct (Ho j Hj) as [Ej Ej']. rewrite Ej, Ej', Hn1, Hw1.
      split; apply list_lookup_insert_ne; congruence.
    + destruct Hsel as [Hn1 Hw1].
      destruct (IH s1 n table Hwf1 Hi) as (s' & t' & Hs' & Hwf' & Hn' & Ht' & Hw' & Ho);
        [congruence | assumption | assumption | congruence |].
      rewrite Z.add_0_l. exists s', t'. do 5 (split; [assumption|]).
      intros j Hj. destruct (Ho j Hj) as [Ej Ej']. split; congruence.
Qed.

Lemma dual_wave_select1_count inps :
  forall s, 0 <= Dual.LFO1_WaveNum s < NUM_WAVES ->
    waveTable !! Z.to_nat (Dual.LFO1_WaveNum s) = Some (Dual.LFO1_WaveTable s) ->
    exists s', for_each Dual.wave_select1 inps s = Ok s' /\
      Dual.LFO1_WaveNum s' = (Dual.LFO1_WaveNum s + presses dual_press1 inps) mod NUM_WAVES /\
      waveTable !! Z.to_nat (Dual.LFO1_WaveNum s') = Some (Dual.LFO1_WaveTable s') /\
      Dual.LFO2_WaveNum s' = Dual.LFO2_WaveNum s /\
      Dual.LFO2_WaveTable s' = Dual.LFO2_WaveTable s.
Proof.
  induction inps as [|inp inps IH]; intros s Hr Ht.
  - exists s. simpl. unfold presses. simpl. rewrite Z.add_0_r, Z.mod_small by assumption. auto.
  - destruct (dual_wave_select1_spec inp s) as (s1 & Hs1 & Hsel & E2 & E2' & _).
    rewrite presses_cons. unfold dual_press1 at 1. simpl for_each. rewrite Hs1.
    cbn [mbind result_bind].
    destruct (press_edge _ _).
    + destruct Hsel as [Hn1 Ht1].
      destruct (IH s1) as (s' & Hs' & Hn' & Ht' & F2 & F2');
        [rewrite Hn1; apply next_wave_range | rewrite Hn1; assumption |].
      exists s'. split; [assumption|]. split; [|split; [assumption|split; congruence]].
      rewrite Hn', Hn1, Zplus_mod_idemp_l. f_equal. lia.
    + destruct Hsel as [Hn1 Ht1].
      destruct (IH s1) as (s' & Hs' & Hn' & Ht' & F2 & F2');
        [rewrite Hn1; assumption | rewrite Hn1, Ht1; assumption |].
      exists s'. split; [assumption|]. split; [|split; [assumption|split; congruence]].
      rewrite Hn', Hn1. f_equal.
Qed.

(** X15. Over any sequence of passes the wave number of an oscillator is
    its start value plus the number of press edges among the passes,
    modulo [NUM_WAVES]; passes without a press edge do not count.  The
    oscillator plays the table of that number, and the wave numbers and
    waveform pointers of the other oscillators are not touched. *)
Theorem wave_number_counts_press_edges :
  (forall i inps s n table, Quad.wf s -> (i < 4)%nat ->
     Quad.waveNum s !! i = Some n -> 0 <= n < NUM_WAVES ->
     waveTable !! Z.to_nat n = Some table -> Quad.waveform s !! i = Some table ->
     exists s' table',
       for_each (fun inp => Quad.wave_select inp i) inps s = Ok s' /\
       Quad.waveNum s' !! i = Some ((n + presses (quad_press i) inps) mod NUM_WAVES) /\
       waveTable !! Z.to_nat ((n + presses (quad_press i) inps) mod NUM_WAVES) = Some table' /\
       Quad.waveform s' !! i = Some table' /\
       (forall j, j <> i -> Quad.waveNum s' !! j = Quad.waveNum s !! j /\
                            Quad.waveform s' !! j = Quad.waveform s !! j)) /\
  (forall inps s, 0 <= Dual.LFO1_WaveNum s < NUM_WAVES ->
     waveTable !! Z.to_nat (Dual.LFO1_WaveNum s) = Some (Dual.LFO1_WaveTable s) ->
     exists s', for_each Dual.wave_select1 inps s = Ok s' /\
       Dual.LFO1_WaveNum s' = (Dual.LFO1_WaveNum s + presses dual_press1 inps) mod NUM_WAVES /\
       waveTable !! Z.to_nat (Dual.LFO1_WaveNum s') = Some (Dual.LFO1_WaveTable s') /\
       Dual.LFO2_WaveNum s' = Dual.LFO2_WaveNum s /\
       Dual.LFO2_WaveTable s' = Dual.LFO2_WaveTable s).
Proof.
  split.
  - intros i inps s n table Hwf Hi Hn Hr Ht Hw.
    destruct (quad_wave_select_count i inps s n table Hwf Hi Hn Hr Ht Hw)
      as (s' & t' & Hs' & _ & H).
    exists s', t'. split; [exact Hs' | exact H].
  - intros inps. apply dual_wave_select1_count.
Qed.

Lemma wave_number_counts_press_edges_witness :
  Quad.wf quad_example /\
  exists s' table',
    for_each (fun inp => Quad.wave_select inp 2)
      [quad_inputs; quad_idle; quad_inputs; quad_idle; quad_inputs] quad_example = Ok s' /\
    Quad.waveNum s' !! 2%nat = Some 3 /\
    waveTable !! 3%nat = Some table' /\
    Quad.waveform s' !! 2%nat = Some table'.
Proof.
  assert (Hwf : Quad.wf quad_example) by (unfold Quad.wf; simpl; auto).
  split; [exact Hwf|].
  destruct (proj1 wave_number_counts_press_edges 2%nat
              [quad_inputs; quad_idle; quad_inputs; quad_idle; quad_inputs]
              quad_example 0 sine256 Hwf ltac:(lia) eq_refl ltac:(vm_compute; split; [discriminate | reflexivity])
              eq_refl eq_refl) as (s' & t' & Hs' & Hn' & Ht' & Hw' & _).
  exists s', t'. split; [exact Hs'|]. split; [exact Hn'|]. split; [exact Ht' | exact Hw'].
Defined.

(** * The control pass as a whole *)

(** ** Under the operating conditions the tuning word is defined *)

Lemma tuning_word_ok fmin fmax r :
  freq_ok fmin fmax -> 0 <= r <= 1023 ->
  exists t, assign_ulong (tuning_word (FREQ_RANGE_of fmin fmax) (fl fmin) r) = Ok t.
Proof.
  intros (H0 & Hle & Hmax) Hr.
  destruct (FREQ_RANGE_defined fmin fmax H0 Hle Hmax) as (m & g & Hm & Hmr & Hg & Hgr).
  destruct (tuning_word_defined _ _ g m r Hg Hgr Hm Hmr Hr) as [t Ht].
  exists t. rewrite Ht. reflexivity.
Qed.

(** ** The two-channel sketch *)

Lemma dual_ISR_iter_waves flash k s :
  let s' := Nat.iter k (Dual.ISR flash) s in
  Dual.LFO1_WaveNum s' = Dual.LFO1_WaveNum s /\
  Dual.LFO1_WaveTable s' = Dual.LFO1_WaveTable s /\
  Dual.LFO2_WaveNum s' = Dual.LFO2_WaveNum s /\
  Dual.LFO2_WaveTable s' = Dual.LFO2_WaveTable s.
Proof.
  induction k as [|k IH]; [simpl; auto|].
  cbv zeta in *. rewrite Nat.iter_succ.
  destruct IH as (E1 & E2 & E3 & E4). rewrite <- E1, <- E2, <- E3, <- E4.
  destruct (Nat.iter k (Dual.ISR flash) s). repeat split; reflexivity.
Qed.

Lemma dual_sync_waves cfg inp s :
  let s' := Dual.sync cfg inp s in
  Dual.LFO1_WaveNum s' = Dual.LFO1_WaveNum s /\
  Dual.LFO1_WaveTable s' = Dual.LFO1_WaveTable s /\
  Dual.LFO2_WaveNum s' = Dual.LFO2_WaveNum s /\
  Dual.LFO2_WaveTable s' = Dual.LFO2_WaveTable s /\
  Dual.tickCounter s' = Dual.tickCounter s /\
  Dual.fourMilliCounter s' = Dual.fourMilliCounter s.
Proof.
  destruct (dual_sync_frame cfg inp s) as (_ & _ & _ & _ & T1 & T2 & N1 & N2 & C1 & C2 & _).
  cbv zeta. auto 10.
Qed.

(** The control branch of the two-channel [loop()], taken. *)
Lemma dual_update_due_spec cfg inp s :
  dual_settings_ok cfg -> dual_readings_ok inp ->
  control_due (Dual.fourMilliCounter s) = true ->
  exists s', Dual.update cfg inp s = Ok s' /\
    Dual.tickCounter s' = Dual.tickCounter s /\ Dual.fourMilliCounter s' = 0 /\
    (if dual_press1 inp
     then Dual.LFO1_WaveNum s' = (Dual.LFO1_WaveNum s + 1) mod NUM_WAVES /\
          waveTable !! Z.to_nat ((Dual.LFO1_WaveNum s + 1) mod NUM_WAVES) =
            Some (Dual.LFO1_WaveTable s')
     else Dual.LFO1_WaveNum s' = Dual.LFO1_WaveNum s /\
          Dual.LFO1_WaveTable s' = Dual.LFO1_WaveTable s) /\
    (if dual_press2 inp
     then Dual.LFO2_WaveNum s' = (Dual.LFO2_WaveNum s + 1) mod NUM_WAVES /\
          waveTable !! Z.to_nat ((Dual.LFO2_WaveNum s + 1) mod NUM_WAVES) =
            Some (Dual.LFO2_WaveTable s')
     else Dual.LFO2_WaveNum s' = Dual.LFO2_WaveNum s /\
          Dual.LFO2_WaveTable s' = Dual.LFO2_WaveTable s).
Proof.
  intros [Hc1 Hc2] [Hr1 Hr2] Hdue.
  destruct (tuning_word_ok _ _ _ Hc1 Hr1) as [t1 Ht1].
  destruct (tuning_word_ok _ _ _ Hc2 Hr2) as [t2 Ht2].
  destruct (waveTable_lookup _ (next_wave_range (Dual.LFO1_WaveNum s))) as [w1 Hw1].
  destruct (waveTable_lookup _ (next_wave_range (Dual.LFO2_WaveNum s))) as [w2 Hw2].
  unfold Dual.update. rewrite Hdue.
  unfold Dual.wave_select1, Dual.wave_select2, Dual.controls1, Dual.controls2,
    dual_press1, dual_press2, press_edge, Dual.LFO1_FREQ_RANGE, Dual.LFO2_FREQ_RANGE.
  destruct s as [ps l1 l2 tc fc aa tw1 d1 ab tw2 d2 wt1 wt2 n1 n2 oa ob].
  cbn -[load tuning_word assign_ulong NUM_WAVES waveTable FREQ_RANGE_of fl] in *.
  destruct (Dual.LFO1_WaveSwitch_changed inp), (Dual.LFO2_WaveSwitch_changed inp),
    (to_byte (Dual.LFO1_WaveSwitch_stateDebounced inp) =? 1) eqn:E1,
    (to_byte (Dual.LFO2_WaveSwitch_stateDebounced inp) =? 1) eqn:E2;
    repeat first
      [ progress cbn -[load tuning_word assign_ulong NUM_WAVES waveTable FREQ_RANGE_of fl]
      | rewrite E1 | rewrite E2 | rewrite next_wave_byte
      | rewrite (load_ok _ _ _ Hw1) | rewrite (load_ok _ _ _ Hw2)
      | rewrite Ht1 | rewrite Ht2 ];
    (eexists; split; [reflexivity|]); cbn -[NUM_WAVES waveTable]; auto 10.
Qed.

Lemma dual_loop_due_spec cfg inp s :
  dual_settings_ok cfg -> dual_readings_ok inp ->
  control_due (Dual.fourMilliCounter s) = true ->
  exists s', Dual.loop cfg inp s = Ok s' /\
    Dual.tickCounter s' = Dual.tickCounter s /\ Dual.fourMilliCounter s' = 0 /\
    (if dual_press1 inp
     then Dual.LFO1_WaveNum s' = (Dual.LFO1_WaveNum s + 1) mod NUM_WAVES /\
          waveTable !! Z.to_nat ((Dual.LFO1_WaveNum s + 1) mod NUM_WAVES) =
            Some (Dual.LFO1_WaveTable s')
     else Dual.LFO1_WaveNum s' = Dual.LFO1_WaveNum s /\
          Dual.LFO1_WaveTable s' = Dual.LFO1_WaveTable s) /\
    (if dual_press2 inp
     then Dual.LFO2_WaveNum s' = (Dual.LFO2_WaveNum s + 1) mod NUM_WAVES /\
          waveTable !! Z.to_nat ((Dual.LFO2_WaveNum s + 1) mod NUM_WAVES) =
            Some (Dual.LFO2_WaveTable s')
     else Dual.LFO2_WaveNum s' = Dual.LFO2_WaveNum s /\
          Dual.LFO2_WaveTable s' = Dual.LFO2_WaveTable s).
Proof.
  intros Hc Hr Hdue. unfold Dual.loop.
  destruct (dual_sync_waves cfg inp s) as (N1 & T1 & N2 & T2 & C1 & C2).
  rewrite <- N1, <- T1, <- N2, <- T2, <- C1.
  apply dual_update_due_spec; [assumption | assumption |]. rewrite C2. exact Hdue.
Qed.

Lemma dual_loop_idle cfg inp s :
  control_due (Dual.fourMilliCounter s) = false ->
  Dual.loop cfg inp s = Ok (Dual.sync cfg inp s).
Proof.
  intros Hdue. unfold Dual.loop, Dual.update.
  rewrite dual_sync_counter, Hdue. reflexivity.
Qed.

(** A round that finds the controls due: the interrupts bring the
    slow-tick counter from 0 to above 25, the pass clears it again. *)
Lemma round_makes_due k tick :
  0 <= tick <= 125 -> 3276 <= Z.of_nat k <= 32130 ->
  exists tick' four', Nat.iter k count_tick (tick, 0) = (tick', four') /\
    0 <= tick' <= 125 /\ control_due four' = true.
Proof.
  intros Ht Hk. rewrite count_tick_closed by (unfold is_byte; lia).
  eexists _, _. split; [reflexivity|].
  set (n := tick + Z.of_nat k). assert (Hn : 3276 <= n < 32256) by (subst n; lia).
  clearbody n. split; [pose proof (Z.mod_pos_bound n 126); lia|].
  unfold control_due. apply Z.ltb_lt. rewrite Z.add_0_l.
  assert (26 <= n / 126) by (apply Z.div_le_lower_bound; lia).
  assert (n / 126 < 256) by (apply Z.div_lt_upper_bound; lia).
  rewrite Z.mod_small by lia. lia.
Qed.

Lemma dual_round_spec cfg flash r s :
  dual_settings_ok cfg -> dual_readings_ok (snd r) -> round_due r ->
  0 <= Dual.tickCounter s <= 125 -> Dual.fourMilliCounter s = 0 ->
  exists s', dual_round cfg flash r s = Ok s' /\
    0 <= Dual.tickCounter s' <= 125 /\ Dual.fourMilliCounter s' = 0 /\
    (if dual_press1 (snd r)
     then Dual.LFO1_WaveNum s' = (Dual.LFO1_WaveNum s + 1) mod NUM_WAVES /\
          waveTable !! Z.to_nat ((Dual.LFO1_WaveNum s + 1) mod NUM_WAVES) =
            Some (Dual.LFO1_WaveTable s')
     else Dual.LFO1_WaveNum s' = Dual.LFO1_WaveNum s /\
          Dual.LFO1_WaveTable s' = Dual.LFO1_WaveTable s) /\
    (if dual_press2 (snd r)
     then Dual.LFO2_WaveNum s' = (Dual.LFO2_WaveNum s + 1) mod NUM_WAVES /\
          waveTable !! Z.to_nat ((Dual.LFO2_WaveNum s + 1) mod NUM_WAVES) =
            Some (Dual.LFO2_WaveTable s')
     else Dual.LFO2_WaveNum s' = Dual.LFO2_WaveNum s /\
          Dual.LFO2_WaveTable s' = Dual.LFO2_WaveTable s).
Proof.
  intros Hc Hr Hk Ht Hf. unfold dual_round.
  pose proof (dual_ISR_counters_iter flash (fst r) s) as E. rewrite Hf in E.
  destruct (round_makes_due (fst r) _ Ht Hk) as (tick' & four' & E' & Ht' & Hdue).
  rewrite E' in E. apply pair_equal_spec in E as [Et Ef].
  destruct (dual_ISR_iter_waves flash (fst r) s) as (N1 & T1 & N2 & T2).
  rewrite <- N1, <- T1, <- N2, <- T2.
  destruct (dual_loop_due_spec cfg (snd r) (Nat.iter (fst r) (Dual.ISR flash) s) Hc Hr)
    as (s' & Hs' & Ct & Cf & W); [rewrite Ef; exact Hdue|].
  exists s'. split; [exact Hs'|]. split; [rewrite Ct, Et; exact Ht'|]. split; assumption.
Qed.

Lemma dual_rounds_count cfg flash rounds :
  dual_settings_ok cfg ->
  Forall (fun r => round_due r /\ dual_readings_ok (snd r)) rounds ->
  forall s, 0 <= Dual.tickCounter s <= 125 -> Dual.fourMilliCounter s = 0 ->
    0 <= Dual.LFO1_WaveNum s < NUM_WAVES ->
    waveTable !! Z.to_nat (Dual.LFO1_WaveNum s) = Some (Dual.LFO1_WaveTable s) ->
    0 <= Dual.LFO2_WaveNum s < NUM_WAVES ->
    waveTable !! Z.to_nat (Dual.LFO2_WaveNum s) = Some (Dual.LFO2_WaveTable s) ->
    exists s', for_each (dual_round cfg flash) rounds s = Ok s' /\
      Dual.LFO1_WaveNum s' =
        (Dual.LFO1_WaveNum s + presses (fun r => dual_press1 (snd r)) rounds) mod NUM_WAVES /\
      waveTable !! Z.to_nat (Dual.LFO1_WaveNum s') = Some (Dual.LFO1_WaveTable s') /\
      Dual.LFO2_WaveNum s' =
        (Dual.LFO2_WaveNum s + presses (fun r => dual_press2 (snd r)) rounds) mod NUM_WAVES /\
      waveTable !! Z.to_nat (Dual.LFO2_WaveNum s') = Some (Dual.LFO2_WaveTable s').
Proof.
  intros Hc Hall. induction Hall as [|r rounds [Hk Hr] Hall IH]; intros s Ht Hf R1 W1 R2 W2.
  - exists s. unfold presses. simpl. rewrite !Z.add_0_r, !Z.mod_small by assumption. auto.
  - destruct (dual_round_spec cfg flash r s Hc Hr Hk Ht Hf) as (s1 & Hs1 & Ht1 & Hf1 & P1 & P2).
    assert (A1 : 0 <= Dual.LFO1_WaveNum s1 < NUM_WAVES /\
                 waveTable !! Z.to_nat (Dual.LFO1_WaveNum s1) = Some (Dual.LFO1_WaveTable s1) /\
                 Dual.LFO1_WaveNum s1 =
                   (Dual.LFO1_WaveNum s + (if dual_press1 (snd r) then 1 else 0)) mod NUM_WAVES).
    { destruct (dual_press1 (snd r)).
      - destruct P1 as [-> Hw]. split; [apply next_wave_range|]. split; [exact Hw | reflexivity].
      - destruct P1 as [-> ->]. rewrite Z.add_0_r, Z.mod_small by assumption. auto. }
    assert (A2 : 0 <= Dual.LFO2_WaveNum s1 < NUM_WAVES /\
                 waveTable !! Z.to_nat (Dual.LFO2_WaveNum s1) = Some (Dual.LFO2_WaveTable s1) /\
                 Dual.LFO2_WaveNum s1 =
                   (Dual.LFO2_WaveNum s + (if dual_press2 (snd r) then 1 else 0)) mod NUM_WAVES).
    { destruct (dual_press2 (snd r)).
      - destruct P2 as [-> Hw]. split; [apply next_wave_range|]. split; [exact Hw | reflexivity].
      - destruct P2 as [-> ->]. rewrite Z.add_0_r, Z.mod_small by assumption. auto. }
    destruct A1 as (R1' & W1' & E1). destruct A2 as (R2' & W2' & E2).
    destruct (IH s1 Ht1 Hf1 R1' W1' R2' W2') as (s' & Hs' & N1 & T1 & N2 & T2).
    exists s'. simpl for_each. rewrite Hs1. cbn [mbind result_bind].
    split; [exact Hs'|]. rewrite !presses_cons.
    split; [|split; [exact T1|split; [|exact T2]]].
    + rewrite N1, E1, Zplus_mod_idemp_l. f_equal. lia.
    + rewrite N2, E2, Zplus_mod_idemp_l. f_equal. lia.
Qed.

(** ** The four-channel sketch *)

Lemma quad_set_counters_fields k s :
  Quad.wf (Quad.set_counters k s) = Quad.wf s /\
  Quad.waveNum (Quad.set_counters k s) = Quad.waveNum s /\
  Quad.waveform (Quad.set_counters k s) = Quad.waveform s.
Proof. destruct s. repeat split; reflexivity. Qed.

Lemma quad_frequency_ok cfg inp i s :
  quad_settings_ok cfg -> quad_readings_ok inp -> Quad.wf s -> (i < 4)%nat ->
  exists s', Quad.frequency cfg inp i s = Ok s' /\ Quad.wf s' /\
    Quad.waveNum s' = Quad.waveNum s /\ Quad.waveform s' = Quad.waveform s.
Proof.
  intros (C1 & C2 & C3 & C4) Hr Hwf Hi. pose proof Hwf as (_ & Lt & _).
  destruct (lookup_lt_is_Some_2 (Quad.tuningWord s) i) as [t0 Ht0]; [lia|].
  assert (E : exists fmin fmax, freq_ok fmin fmax /\
            Quad.frequency cfg inp i s =
              (tw ← assign_ulong (tuning_word (FREQ_RANGE_of fmin fmax) (fl fmin)
                                              (Quad.value inp i));
               tws ← store (Quad.tuningWord s) i tw;
               Ok (Quad.set_tuningWord tws s))).
  { destruct i as [|[|[|[|i]]]]; try lia; eexists _, _; (split; [|reflexivity]); assumption. }
  destruct E as (fmin & fmax & Hf & E).
  destruct (tuning_word_ok fmin fmax _ Hf (Hr i)) as [t Ht].
  rewrite Ht in E. cbn [mbind result_bind] in E.
  rewrite (store_ok _ _ _ _ Ht0) in E. cbn [mbind result_bind] in E.
  destruct (quad_frequency_spec cfg inp i s _ Hwf E) as (Hwf' & En & Ew & _).
  eexists. split; [exact E|]. auto.
Qed.

(** One run of the update body for a channel [i < 4]. *)
Lemma quad_update_lfo_spec cfg inp i s n :
  quad_settings_ok cfg -> quad_readings_ok inp -> Quad.wf s -> (i < 4)%nat ->
  Quad.waveNum s !! i = Some n ->
  exists s', Quad.update_lfo cfg inp i s = Ok s' /\ Quad.wf s' /\
    (if quad_press i inp
     then exists table,
            waveTable !! Z.to_nat ((n + 1) mod NUM_WAVES) = Some table /\
            Quad.waveNum s' !! i = Some ((n + 1) mod NUM_WAVES) /\
            Quad.waveform s' !! i = Some table
     else Quad.waveNum s' !! i = Some n /\ Quad.waveform s' !! i = Quad.waveform s !! i) /\
    (forall j, j <> i -> Quad.waveNum s' !! j = Quad.waveNum s !! j /\
                         Quad.waveform s' !! j = Quad.waveform s !! j).
Proof.
  intros Hc Hr Hwf Hi Hn. pose proof Hwf as (_ & _ & Lw & Ln & _).
  destruct (quad_wave_select_spec inp i s n Hwf Hi Hn) as (s1 & Hs1 & Hwf1 & Hsel & _).
  destruct (quad_frequency_ok cfg inp i s1 Hc Hr Hwf1 Hi) as (s' & Hs' & Hwf' & En & Ew).
  exists s'. unfold Quad.update_lfo. rewrite Hs1. cbn [mbind result_bind].
  split; [exact Hs'|]. split; [exact Hwf'|]. rewrite En, Ew. unfold quad_press.
  destruct (press_edge _ _).
  - destruct Hsel as (table & Ht & -> & ->). split.
    + exists table. split; [exact Ht|]. split; apply list_lookup_insert_eq; lia.
    + intros j Hj. split; apply list_lookup_insert_ne; congruence.
  - destruct Hsel as [-> ->]. auto.
Qed.

(** Runs of the body for other channels leave channel [i] alone. *)
Lemma quad_update_run_others cfg inp i idx :
  quad_settings_ok cfg -> quad_readings_ok inp ->
  Forall (fun j => (j < 4)%nat /\ j <> i) idx ->
  forall s, Quad.wf s ->
    exists s', for_each (Quad.update_lfo cfg inp) idx s = Ok s' /\ Quad.wf s' /\
      Quad.waveNum s' !! i = Quad.waveNum s !! i /\
      Quad.waveform s' !! i = Quad.waveform s !! i.
Proof.
  intros Hc Hr Hall. induction Hall as [|j idx [Hj Hne] Hall IH]; intros s Hwf.
  - exists s. simpl. auto.
  - pose proof Hwf as (_ & _ & _ & Ln & _).
    destruct (lookup_lt_is_Some_2 (Quad.waveNum s) j) as [m Hm]; [lia|].
    destruct (quad_update_lfo_spec cfg inp j s m Hc Hr Hwf Hj Hm) as (s1 & Hs1 & Hwf1 & _ & Ho).
    destruct (Ho i) as [En1 Ew1]; [congruence|].
    destruct (IH s1 Hwf1) as (s' & Hs' & Hwf' & En & Ew).
    exists s'. simpl for_each. rewrite Hs1. cbn [mbind result_bind].
    split; [exact Hs'|]. split; [exact Hwf'|]. split; congruence.
Qed.

Lemma quad_update_run_channel cfg inp i pre post s n :
  quad_settings_ok cfg -> quad_readings_ok inp ->
  Forall (fun j => (j < 4)%nat /\ j <> i) pre ->
  Forall (fun j => (j < 4)%nat /\ j <> i) post ->
  Quad.wf s -> (i < 4)%nat -> Quad.waveNum s !! i = Some n ->
  exists s', for_each (Quad.update_lfo cfg inp) (pre ++ i :: post) s = Ok s' /\ Quad.wf s' /\
    (if quad_press i inp
     then exists table,
            waveTable !! Z.to_nat ((n + 1) mod NUM_WAVES) = Some table /\
            Quad.waveNum s' !! i = Some ((n + 1) mod NUM_WAVES) /\
            Quad.waveform s' !! i = Some table
     else Quad.waveNum s' !! i = Some n /\ Quad.waveform s' !! i = Quad.waveform s !! i).
Proof.
  intros Hc Hr Hpre Hpost Hwf Hi Hn.
  destruct (quad_update_run_others cfg inp i pre Hc Hr Hpre s Hwf) as (sa & Hsa & Hwfa & Na & Wa).
  destruct (quad_update_lfo_spec cfg inp i sa n Hc Hr Hwfa Hi) as (sb & Hsb & Hwfb & Hsel & _);
    [congruence|].
  destruct (quad_update_run_others cfg inp i post Hc Hr Hpost sb Hwfb)
    as (s' & Hs' & Hwf' & Nb & Wb).
  exists s'. rewrite for_each_app, Hsa. cbn [mbind result_bind]. simpl for_each.
  rewrite Hsb. cbn [mbind result_bind]. split; [exact Hs'|]. split; [exact Hwf'|].
  rewrite Nb, Wb. destruct (quad_press i inp); [exact Hsel|].
  destruct Hsel as [E1 E2]. split; congruence.
Qed.

(** The control branch of the four-channel [loop()], taken: the runs of
    the body for the four channels, and the run at index 4 that follows. *)
Lemma quad_update_due_spec cfg inp s :
  quad_settings_ok cfg -> quad_readings_ok inp -> Quad.wf s ->
  control_due (Quad.fourMilliCounter s) = true ->
  exists s4,
    for_each (Quad.update_lfo cfg inp) (below Quad.NUM_LFO)
             (Quad.set_counters (Quad.tickCounter s, 0) s) = Ok s4 /\
    Quad.wf s4 /\
    (forall i n, (i < 4)%nat -> Quad.waveNum s !! i = Some n ->
       if quad_press i inp
       then exists table,
              waveTable !! Z.to_nat ((n + 1) mod NUM_WAVES) = Some table /\
              Quad.waveNum s4 !! i = Some ((n + 1) mod NUM_WAVES) /\
              Quad.waveform s4 !! i = Some table
       else Quad.waveNum s4 !! i = Some n /\ Quad.waveform s4 !! i = Quad.waveform s !! i) /\
    Quad.update cfg inp s = Quad.update_lfo cfg inp 4 s4 /\
    Quad.update cfg inp s = Fault OutOfBounds.
Proof.
  intros Hc Hr Hwf Hdue.
  set (s0 := Quad.set_counters (Quad.tickCounter s, 0) s).
  destruct (quad_set_counters_fields (Quad.tickCounter s, 0) s) as (Ewf & En0 & Ew0).
  assert (Hwf0 : Quad.wf s0) by (subst s0; rewrite Ewf; exact Hwf).
  pose proof Hwf as (_ & _ & _ & Ln & _).
  destruct (lookup_lt_is_Some_2 (Quad.waveNum s0) 0) as [m Hm];
    [subst s0; rewrite En0; lia|].
  destruct (quad_update_run_channel cfg inp 0 [] [1; 2; 3]%nat s0 m Hc Hr)
    as (s4 & Hs4 & Hwf4 & _);
    [constructor | repeat constructor; lia | exact Hwf0 | lia | exact Hm |].
  change ([] ++ [0; 1; 2; 3]%nat) with (below Quad.NUM_LFO) in Hs4.
  assert (Hup : Quad.update cfg inp s = Quad.update_lfo cfg inp 4 s4).
  { unfold Quad.update. rewrite Hdue. cbv zeta. fold s0.
    rewrite quad_update_indices_split, for_each_app, Hs4. cbn [mbind result_bind].
    reflexivity. }
  exists s4. split; [exact Hs4|]. split; [exact Hwf4|].
  split; [|split; [exact Hup | rewrite Hup; reflexivity]].
  intros i n Hi Hn.
  assert (Hn0 : Quad.waveNum s0 !! i = Some n) by (subst s0; rewrite En0; exact Hn).
  assert (H : exists pre post, below Quad.NUM_LFO = pre ++ i :: post /\
              Forall (fun j => (j < 4)%nat /\ j <> i) pre /\
              Forall (fun j => (j < 4)%nat /\ j <> i) post).
  { destruct i as [|[|[|[|i]]]]; try lia;
      [exists [], [1; 2; 3]%nat | exists [0]%nat, [2; 3]%nat
      | exists [0; 1]%nat, [3]%nat | exists [0; 1; 2]%nat, []];
      (split; [reflexivity|]); split; repeat constructor; lia. }
  destruct H as (pre & post & Esplit & Hpre & Hpost).
  destruct (quad_update_run_channel cfg inp i pre post s0 n Hc Hr Hpre Hpost Hwf0 Hi Hn0)
    as (s4' & Hs4' & _ & Hsel).
  rewrite <- Esplit, Hs4 in Hs4'. injection Hs4' as <-.
  subst s0. rewrite Ew0 in Hsel. exact Hsel.
Qed.

Lemma quad_sync_ok cfg inp s :
  Quad.wf s ->
  exists s1, Quad.sync cfg inp s = Ok s1 /\ Quad.wf s1 /\
    Quad.waveNum s1 = Quad.waveNum s /\ Quad.waveform s1 = Quad.waveform s /\
    Quad.fourMilliCounter s1 = Quad.fourMilliCounter s.
Proof.
  intros Hwf. destruct (Quad.SYNC cfg) eqn:Es.
  - destruct (quad_sync_spec cfg inp s Es Hwf) as (s1 & Hs1 & Hwf1 & _ & _ & Ew & En & Ef).
    exists s1. auto 10.
  - exists s. unfold Quad.sync. rewrite Es. auto 10.
Qed.

Lemma quad_ISR_ok flash s :
  Quad.wf s ->
  exists s', Quad.ISR flash s = Ok s' /\ Quad.wf s' /\
    Quad.waveNum s' = Quad.waveNum s /\ Quad.waveform s' = Quad.waveform s.
Proof.
  intros Hwf. pose proof Hwf as (La & Lt & _).
  destruct (length_four _ La) as (a0 & a1 & a2 & a3 & Ea).
  destruct (length_four _ Lt) as (t0 & t1 & t2 & t3 & Et).
  destruct (quad_ISR_step flash s _ _ _ _ _ _ _ _ Hwf Ea Et)
    as (s1 & Hs1 & Hwf1 & _ & _ & Ew & En & _).
  exists s1. auto.
Qed.

(** A pass of the four-channel [loop()] with the controls due. *)
Lemma quad_loop_due_spec cfg inp s :
  quad_settings_ok cfg -> quad_readings_ok inp -> Quad.wf s ->
  control_due (Quad.fourMilliCounter s) = true ->
  exists s1 s4,
    Quad.sync cfg inp s = Ok s1 /\
    for_each (Quad.update_lfo cfg inp) (below Quad.NUM_LFO)
             (Quad.set_counters (Quad.tickCounter s1, 0) s1) = Ok s4 /\
    Quad.wf s4 /\
    (forall i n, (i < 4)%nat -> Quad.waveNum s !! i = Some n ->
       if quad_press i inp
       then exists table,
              waveTable !! Z.to_nat ((n + 1) mod NUM_WAVES) = Some table /\
              Quad.waveNum s4 !! i = Some ((n + 1) mod NUM_WAVES) /\
              Quad.waveform s4 !! i = Some table
       else Quad.waveNum s4 !! i = Some n /\ Quad.waveform s4 !! i = Quad.waveform s !! i) /\
    (Quad.wave_ok s -> Quad.wave_ok s4) /\
    Quad.loop cfg inp s = Quad.update_lfo cfg inp 4 s4 /\
    Quad.loop cfg inp s = Fault OutOfBounds.
Proof.
  intros Hc Hr Hwf Hdue.
  destruct (quad_sync_ok cfg inp s Hwf) as (s1 & Hs1 & Hwf1 & En & Ew & Ef).
  destruct (quad_update_due_spec cfg inp s1 Hc Hr Hwf1) as (s4 & Hs4 & Hwf4 & Hsel & Hup & Hf);
    [rewrite Ef; exact Hdue|].
  exists s1, s4. split; [exact Hs1|]. split; [exact Hs4|]. split; [exact Hwf4|].
  rewrite <- En, <- Ew. split; [exact Hsel|].
  assert (Hl : Quad.loop cfg inp s = Quad.update cfg inp s1).
  { unfold Quad.loop. rewrite Hs1. reflexivity. }
  split; [|split; [rewrite Hl; exact Hup | rewrite Hl; exact Hf]].
  intros Hok.
  destruct (quad_set_counters_fields (Quad.tickCounter s1, 0) s1) as (Ewf & En0 & Ew0).
  apply (quad_for_each_wave_ok cfg inp (below Quad.NUM_LFO)
           (Quad.set_counters (Quad.tickCounter s1, 0) s1) s4);
    [rewrite Ewf; exact Hwf1 | | exact Hs4].
  apply (quad_wave_ok_same s); [congruence | congruence | exact Hok].
Qed.

(** ** Wave selection and the wave number in a control pass *)

(** C6. Two-channel sketch: a pass of [loop()] with the controls due
    advances the wave number of an oscillator whose switch reports a press
    edge to [(last + 1) mod NUM_WAVES] and points its waveform pointer to
    that table of the library, and leaves both as they are for an
    oscillator without a press edge; over rounds of interrupts and passes,
    each round long enough for the controls to be due, the wave number is
    the start value plus the number of press edges, modulo [NUM_WAVES], so
    from wave number 0 [NUM_WAVES] press edges lead back to wave number 0
    and the first table.  Four-channel sketch: in a
    pass with the controls due the runs of the loop body for the channels
    0 to 3 do the same for each channel, but the pass goes on to run the
    body at index 4, outside the arrays, and has no defined result. *)
Theorem wave_select_in_control_pass :
  (forall cfg inp s, dual_settings_ok cfg -> dual_readings_ok inp ->
     control_due (Dual.fourMilliCounter s) = true ->
     exists s', Dual.loop cfg inp s = Ok s' /\
       (if dual_press1 inp
        then Dual.LFO1_WaveNum s' = (Dual.LFO1_WaveNum s + 1) mod NUM_WAVES /\
             waveTable !! Z.to_nat ((Dual.LFO1_WaveNum s + 1) mod NUM_WAVES) =
               Some (Dual.LFO1_WaveTable s')
        else Dual.LFO1_WaveNum s' = Dual.LFO1_WaveNum s /\
             Dual.LFO1_WaveTable s' = Dual.LFO1_WaveTable s) /\
       (if dual_press2 inp
        then Dual.LFO2_WaveNum s' = (Dual.LFO2_WaveNum s + 1) mod NUM_WAVES /\
             waveTable !! Z.to_nat ((Dual.LFO2_WaveNum s + 1) mod NUM_WAVES) =
               Some (Dual.LFO2_WaveTable s')
        else Dual.LFO2_WaveNum s' = Dual.LFO2_WaveNum s /\
             Dual.LFO2_WaveTable s' = Dual.LFO2_WaveTable s)) /\
  (forall cfg flash rounds s, dual_settings_ok cfg ->
     Forall (fun r => round_due r /\ dual_readings_ok (snd r)) rounds ->
     0 <= Dual.tickCounter s <= 125 -> Dual.fourMilliCounter s = 0 ->
     0 <= Dual.LFO1_WaveNum s < NUM_WAVES ->
     waveTable !! Z.to_nat (Dual.LFO1_WaveNum s) = Some (Dual.LFO1_WaveTable s) ->
     0 <= Dual.LFO2_WaveNum s < NUM_WAVES ->
     waveTable !! Z.to_nat (Dual.LFO2_WaveNum s) = Some (Dual.LFO2_WaveTable s) ->
     exists s', for_each (dual_round cfg flash) rounds s = Ok s' /\
       Dual.LFO1_WaveNum s' =
         (Dual.LFO1_WaveNum s + presses (fun r => dual_press1 (snd r)) rounds) mod NUM_WAVES /\
       waveTable !! Z.to_nat (Dual.LFO1_WaveNum s') = Some (Dual.LFO1_WaveTable s') /\
       Dual.LFO2_WaveNum s' =
         (Dual.LFO2_WaveNum s + presses (fun r => dual_press2 (snd r)) rounds) mod NUM_WAVES /\
       waveTable !! Z.to_nat (Dual.LFO2_WaveNum s') = Some (Dual.LFO2_WaveTable s') /\
       (Dual.LFO1_WaveNum s = 0 ->
        presses (fun r => dual_press1 (snd r)) rounds = NUM_WAVES ->
        Dual.LFO1_WaveNum s' = 0 /\ Dual.LFO1_WaveTable s' = sine256) /\
       (Dual.LFO2_WaveNum s = 0 ->
        presses (fun r => dual_press2 (snd r)) rounds = NUM_WAVES ->
        Dual.LFO2_WaveNum s' = 0 /\ Dual.LFO2_WaveTable s' = sine256)) /\
  (forall cfg inp s, quad_settings_ok cfg -> quad_readings_ok inp -> Quad.wf s ->
     control_due (Quad.fourMilliCounter s) = true ->
     exists s1 s4,
       Quad.sync cfg inp s = Ok s1 /\
       for_each (Quad.update_lfo cfg inp) (below Quad.NUM_LFO)
                (Quad.set_counters (Quad.tickCounter s1, 0) s1) = Ok s4 /\
       (forall i n, (i < 4)%nat -> Quad.waveNum s !! i = Some n ->
          if quad_press i inp
          then exists table,
                 waveTable !! Z.to_nat ((n + 1) mod NUM_WAVES) = Some table /\
                 Quad.waveNum s4 !! i = Some ((n + 1) mod NUM_WAVES) /\
                 Quad.waveform s4 !! i = Some table
          else Quad.waveNum s4 !! i = Some n /\
               Quad.waveform s4 !! i = Quad.waveform s !! i) /\
       Quad.loop cfg inp s = Quad.update_lfo cfg inp 4 s4 /\
       Quad.loop cfg inp s = Fault OutOfBounds).
Proof.
  split; [|split].
  - intros cfg inp s Hc Hr Hdue.
    destruct (dual_loop_due_spec cfg inp s Hc Hr Hdue) as (s' & Hs' & _ & _ & P1 & P2).
    exists s'. auto.
  - intros cfg flash rounds s Hc Hall Ht Hf R1 W1 R2 W2.
    destruct (dual_rounds_count cfg flash rounds Hc Hall s Ht Hf R1 W1 R2 W2)
      as (s' & Hs' & N1 & T1 & N2 & T2).
    exists s'. do 5 (split; [assumption|]).
    split; intros H0 Hp.
    + rewrite H0, Hp in N1. change ((0 + NUM_WAVES) mod NUM_WAVES) with 0 in N1.
      split; [exact N1|]. rewrite N1 in T1. simpl in T1. congruence.
    + rewrite H0, Hp in N2. change ((0 + NUM_WAVES) mod NUM_WAVES) with 0 in N2.
      split; [exact N2|]. rewrite N2 in T2. simpl in T2. congruence.
  - intros cfg inp s Hc Hr Hwf Hdue.
    destruct (quad_loop_due_spec cfg inp s Hc Hr Hwf Hdue)
      as (s1 & s4 & Hs1 & Hs4 & _ & Hsel & _ & Hl & Hf).
    exists s1, s4. auto.
Qed.

Lemma wave_select_in_control_pass_witness :
  (quad_settings_ok scenario_quad /\ quad_readings_ok quad_inputs /\ Quad.wf quad_example /\
   control_due (Quad.fourMilliCounter quad_example) = true /\
   Quad.loop scenario_quad quad_inputs quad_example = Fault OutOfBounds) /\
  (exists s', for_each (dual_round (scenario_dual true) ramp_flash)
                (replicate 9 (3276%nat, dual_pressed)) (Dual.after_setup (scenario_dual true))
              = Ok s' /\
     Dual.LFO1_WaveNum s' = 0 /\ Dual.LFO1_WaveTable s' = sine256).
Proof.
  assert (Hc : quad_settings_ok scenario_quad)
    by (unfold quad_settings_ok, freq_ok, Qle; simpl; lia).
  assert (Hr : quad_readings_ok quad_inputs) by (intros pot; simpl; lia).
  assert (Hwf : Quad.wf quad_example) by (unfold Quad.wf; simpl; auto).
  assert (Hd : dual_settings_ok (scenario_dual true))
    by (unfold dual_settings_ok, freq_ok, Qle; simpl; lia).
  assert (Hall : Forall (fun r : nat * Dual.inputs => round_due r /\ dual_readings_ok (snd r))
                   (replicate 9 (3276%nat, dual_pressed))).
  { repeat constructor; simpl; lia. }
  split.
  - split; [exact Hc|]. split; [exact Hr|]. split; [exact Hwf|]. split; [reflexivity|].
    destruct (proj2 (proj2 wave_select_in_control_pass) scenario_quad quad_inputs quad_example
                Hc Hr Hwf eq_refl) as (s1 & s4 & _ & _ & _ & _ & Hf).
    exact Hf.
  - destruct (proj1 (proj2 wave_select_in_control_pass) (scenario_dual true) ramp_flash
                (replicate 9 (3276%nat, dual_pressed)) (Dual.after_setup (scenario_dual true))
                Hd Hall ltac:(simpl; lia) eq_refl ltac:(vm_compute; split; [discriminate | reflexivity])
                eq_refl ltac:(vm_compute; split; [discriminate | reflexivity]) eq_refl)
      as (s' & Hs' & _ & _ & _ & _ & H1 & _).
    exists s'. split; [exact Hs'|]. apply H1; reflexivity.
Defined.

(** C10. In the four-channel sketch every wave number is 0 when [setup()]
    returns, with every waveform pointer on the first table.  The timer
    interrupt, the sync handler and a pass of [loop()] without the
    controls due keep every wave number in [[0, NUM_WAVES)] and every
    waveform pointer on the table of its wave number.  In a pass with the
    controls due this still holds when the loop body has run for the
    channels 0 to 3; the pass then runs the body at index 4, outside the
    arrays, so it has no defined result and nothing holds of the wave
    numbers after it.  A first round of 3276 to 32130 interrupts after
    [setup()] ends in such a pass. *)
Theorem wave_number_in_range_until_overrun :
  (forall cfg inp io m ws, length ws = 4%nat ->
     exists s0, QuadSetup.setup cfg inp io (quad_reset ws, m) =
                  Ok (s0, Timer.PWM_Setup io m) /\
       Quad.waveNum s0 = [0; 0; 0; 0] /\ Quad.wf s0 /\ Quad.wave_ok s0) /\
  (forall flash s, Quad.wf s -> Quad.wave_ok s ->
     exists s', Quad.ISR flash s = Ok s' /\ Quad.wf s' /\ Quad.wave_ok s') /\
  (forall cfg inp s, Quad.wf s -> Quad.wave_ok s ->
     control_due (Quad.fourMilliCounter s) = false ->
     exists s', Quad.loop cfg inp s = Ok s' /\ Quad.wf s' /\ Quad.wave_ok s') /\
  (forall cfg inp s, quad_settings_ok cfg -> quad_readings_ok inp ->
     Quad.wf s -> Quad.wave_ok s -> control_due (Quad.fourMilliCounter s) = true ->
     exists s1 s4,
       Quad.sync cfg inp s = Ok s1 /\
       for_each (Quad.update_lfo cfg inp) (below Quad.NUM_LFO)
                (Quad.set_counters (Quad.tickCounter s1, 0) s1) = Ok s4 /\
       Quad.wf s4 /\ Quad.wave_ok s4 /\
       Quad.loop cfg inp s = Quad.update_lfo cfg inp 4 s4 /\
       Quad.loop cfg inp s = Fault OutOfBounds) /\
  (forall cfg inp io m ws flash r, quad_settings_ok cfg -> quad_readings_ok (snd r) ->
     round_due r -> length ws = 4%nat ->
     exists s0, QuadSetup.setup cfg inp io (quad_reset ws, m) =
                  Ok (s0, Timer.PWM_Setup io m) /\
       quad_round cfg flash r s0 = Fault OutOfBounds).
Proof.
  assert (Hsetup : forall cfg inp io m ws, length ws = 4%nat ->
     exists s0, QuadSetup.setup cfg inp io (quad_reset ws, m) =
                  Ok (s0, Timer.PWM_Setup io m) /\
       Quad.waveNum s0 = [0; 0; 0; 0] /\ Quad.wf s0 /\ Quad.wave_ok s0 /\
       Quad.tickCounter s0 = 0 /\ Quad.fourMilliCounter s0 = 0).
  { intros cfg inp io m ws Hlen.
    assert (Hwf : Quad.wf (quad_reset ws)) by (unfold Quad.wf; simpl; auto).
    destruct (quad_setup_spec cfg inp io (quad_reset ws) m Hwf)
      as (s0 & Hs0 & Hwf0 & Ew & _ & _ & _ & En & Et & Ef).
    exists s0. split; [exact Hs0|]. split; [exact En|]. split; [exact Hwf0|].
    split; [|split; [exact Et | exact Ef]].
    intros i Hi. change (Z.to_nat Quad.NUM_LFO) with 4%nat in Hi. exists 0, sine256.
    rewrite En, Ew. simpl Quad.waveNum.
    split; [|split; [rewrite NUM_WAVES_value; lia | split; [reflexivity|]]];
      destruct i as [|[|[|[|i]]]]; try reflexivity; lia. }
  split; [|split; [|split; [|split]]].
  - intros cfg inp io m ws Hlen.
    destruct (Hsetup cfg inp io m ws Hlen) as (s0 & Hs0 & En & Hwf0 & Hok0 & _).
    exists s0. auto.
  - intros flash s Hwf Hok.
    destruct (quad_ISR_ok flash s Hwf) as (s' & Hs' & Hwf' & En & Ew).
    exists s'. split; [exact Hs'|]. split; [exact Hwf'|].
    apply (quad_wave_ok_same s); assumption.
  - intros cfg inp s Hwf Hok Hdue.
    destruct (quad_sync_ok cfg inp s Hwf) as (s1 & Hs1 & Hwf1 & En & Ew & Ef).
    exists s1. unfold Quad.loop. rewrite Hs1. cbn [mbind result_bind].
    unfold Quad.update. rewrite Ef, Hdue.
    split; [reflexivity|]. split; [exact Hwf1|]. apply (quad_wave_ok_same s); assumption.
  - intros cfg inp s Hc Hr Hwf Hok Hdue.
    destruct (quad_loop_due_spec cfg inp s Hc Hr Hwf Hdue)
      as (s1 & s4 & Hs1 & Hs4 & Hwf4 & _ & Hok4 & Hl & Hf).
    exists s1, s4. auto 10.
  - intros cfg inp io m ws flash r Hc Hr Hk Hlen.
    destruct (Hsetup cfg inp io m ws Hlen) as (s0 & Hs0 & _ & Hwf0 & _ & Et & Ef).
    exists s0. split; [exact Hs0|].
    destruct (quad_ISR_counters_iter flash (fst r) s0 Hwf0) as (s1 & Hs1 & Hwf1 & Ec).
    rewrite Et, Ef in Ec.
    destruct (round_makes_due (fst r) 0 ltac:(lia) Hk) as (tick' & four' & E' & _ & Hdue).
    rewrite E' in Ec. apply pair_equal_spec in Ec as [_ Ec].
    destruct (quad_loop_due_spec cfg (snd r) s1 Hc Hr Hwf1) as (_ & _ & _ & _ & _ & _ & _ & _ & Hf);
      [rewrite Ec; exact Hdue|].
    unfold quad_round. rewrite Hs1. cbn [mbind result_bind]. exact Hf.
Qed.

Lemma wave_number_in_range_until_overrun_witness :
  quad_settings_ok scenario_quad /\ quad_readings_ok quad_inputs /\
  exists s0, QuadSetup.setup scenario_quad quad_inputs Timer.atmega328p
               (quad_reset [noise256; noise256; noise256; noise256], sfr_ones) =
               Ok (s0, Timer.PWM_Setup Timer.atmega328p sfr_ones) /\
    quad_round scenario_quad ramp_flash (3276%nat, quad_inputs) s0 = Fault OutOfBounds.
Proof.
  assert (Hc : quad_settings_ok scenario_quad)
    by (unfold quad_settings_ok, freq_ok, Qle; simpl; lia).
  assert (Hr : quad_readings_ok quad_inputs) by (intros pot; simpl; lia).
  split; [exact Hc|]. split; [exact Hr|].
  exact (proj2 (proj2 (proj2 (proj2 wave_number_in_range_until_overrun)))
           scenario_quad quad_inputs Timer.atmega328p sfr_ones
           [noise256; noise256; noise256; noise256] ramp_flash (3276%nat, quad_inputs)
           Hc Hr ltac:(unfold round_due; simpl; lia) eq_refl).
Defined.
